(** * Matrix scanning and debouncing (Scan/MatrixARM/matrix_scan.c)

    A shallow embedding of the scan module of the keyboard controller:
    the debounce array, the tick counter, the two latency histograms, the
    scan statistics, and the functions [Matrix_setup] and [Matrix_scan]
    that work on them.

    Conventions.
    - Fixed-width unsigned integers are [Z] with the wrap-around written
      where the C code can wrap ([wrap8], [wrap16], [wrap32]).
    - Arrays are lists read with [!!] and written with [<[ _ := _ ]>];
      an access outside the array is undefined behaviour in C and makes
      the action return [None], as does a loop that cannot end.
    - The module state is one record, [Matrix_state]; an [action] maps a
      state to the next one.  Calls that leave the module
      ([Macro_keyState], the print routines, the strobe pin writes) are
      appended to the [trace] field in program order.
    - The level read on a sense pin is an input: [Matrix_scan] receives,
      for the invocation, the function [sense_in strobe sense]. *)

From Stdlib Require Import ZArith Lia.
From stdpp Require Import base numbers option list strings.

Local Open Scope Z_scope.

(** ** Machine integers *)

Definition wrap8 (x : Z) : Z := x mod 2 ^ 8.
Definition wrap16 (x : Z) : Z := x mod 2 ^ 16.
Definition wrap32 (x : Z) : Z := x mod 2 ^ 32.

(** Number of zero bits above the highest set bit of [x], looking at the
    bits [n-1 .. 0] from the top. *)
Fixpoint clz_from (n : nat) (x : Z) : Z :=
  match n with
  | O => 0
  | S m => if Z.testbit x (Z.of_nat m) then 0 else 1 + clz_from m x
  end.

(** [__builtin_clzl] on the target of this file: [unsigned long] is 32
    bits wide on the MK20 (ARM Cortex-M4).  For a zero argument GCC leaves
    the result open; the CLZ instruction the builtin compiles to returns
    32 there, which is also what counting the bits gives. *)
Definition builtin_clzl (x : Z) : Z := clz_from 32 x.

(** [uint8_t bucket = 31 - __builtin_clzl(diff);] (matrix_scan.c:348) *)
Definition bucket_of (diff : Z) : Z := wrap8 (31 - builtin_clzl diff).

(** ** Data model *)

(** The key states.  The enumeration [KeyPosition] is declared in
    matrix_scan.h, which is not part of this file; these are the five
    values the code uses, in the order of the specification's data model. *)
Inductive KeyPosition : Set :=
| KeyState_Off
| KeyState_Press
| KeyState_Hold
| KeyState_Release
| KeyState_Invalid.

Global Instance KeyPosition_eq_dec : EqDecision KeyPosition.
Proof. solve_decision. Defined.

(** One entry of the debounce array.  [activeCount] and [inactiveCount]
    have the type [DebounceCounter], which the header picks wide enough
    for [DebounceDivThreshold_define]; both increments of the code are
    guarded by [< DebounceDivThreshold_define], so they cannot wrap.
    [lastChangeCounter] stores values of [Matrix_divCounter] (32 bits). *)
Record KeyState : Set := mkKeyState {
  prevState : KeyPosition;
  curState : KeyPosition;
  activeCount : Z;
  inactiveCount : Z;
  lastChangeCounter : Z
}.

Definition set_prevState (v : KeyPosition) (k : KeyState) : KeyState :=
  mkKeyState v (curState k) (activeCount k) (inactiveCount k) (lastChangeCounter k).
Definition set_curState (v : KeyPosition) (k : KeyState) : KeyState :=
  mkKeyState (prevState k) v (activeCount k) (inactiveCount k) (lastChangeCounter k).
Definition set_activeCount (v : Z) (k : KeyState) : KeyState :=
  mkKeyState (prevState k) (curState k) v (inactiveCount k) (lastChangeCounter k).
Definition set_inactiveCount (v : Z) (k : KeyState) : KeyState :=
  mkKeyState (prevState k) (curState k) (activeCount k) v (lastChangeCounter k).
Definition set_lastChangeCounter (v : Z) (k : KeyState) : KeyState :=
  mkKeyState (prevState k) (curState k) (activeCount k) (inactiveCount k) v.

(** The [Type] argument of [Matrix_pin]. *)
Inductive PinType : Set :=
| Type_StrobeOn
| Type_StrobeOff
| Type_StrobeSetup
| Type_Sense
| Type_SenseSetup.

(** Calls that leave the module, recorded in program order.
    [Matrix_pin_strobe i t] is [Matrix_pin( Matrix_cols[i], t )] and
    [Matrix_pin_sense i t] is [Matrix_pin( Matrix_rows[i], t )] for the
    writing pin actions. *)
Inductive event : Type :=
| Macro_keyState (key : Z) (state : KeyPosition)
| erro_print (msg : string)
| info_msg (msg : string)
| print (msg : string)
| printHex (v : Z)
| printHex_op (v : Z) (op : Z)
| CLI_registerDictionary
| Matrix_pin_strobe (index : Z) (type : PinType)
| Matrix_pin_sense (index : Z) (type : PinType).

(** The globals of the module. *)
Record Matrix_state : Type := mkState {
  Matrix_divCounter : Z;            (* uint32_t *)
  Matrix_repeatThreshold : Z;       (* uint32_t *)
  Matrix_timesRelease : list Z;     (* uint32_t [32] *)
  Matrix_timesPress : list Z;       (* uint32_t [32] *)
  Matrix_scanArray : list KeyState; (* KeyState [Matrix_colsNum * Matrix_rowsNum] *)
  matrixDebugMode : Z;              (* uint8_t *)
  matrixDebugStateCounter : Z;      (* uint16_t *)
  matrixMaxScans : Z;               (* uint16_t *)
  matrixCurScans : Z;               (* uint16_t *)
  matrixPrevScans : Z;              (* uint16_t *)
  trace : list event
}.

Definition set_divCounter (v : Z) (s : Matrix_state) : Matrix_state :=
  mkState v (Matrix_repeatThreshold s) (Matrix_timesRelease s) (Matrix_timesPress s)
    (Matrix_scanArray s) (matrixDebugMode s) (matrixDebugStateCounter s)
    (matrixMaxScans s) (matrixCurScans s) (matrixPrevScans s) (trace s).
Definition set_timesRelease (v : list Z) (s : Matrix_state) : Matrix_state :=
  mkState (Matrix_divCounter s) (Matrix_repeatThreshold s) v (Matrix_timesPress s)
    (Matrix_scanArray s) (matrixDebugMode s) (matrixDebugStateCounter s)
    (matrixMaxScans s) (matrixCurScans s) (matrixPrevScans s) (trace s).
Definition set_timesPress (v : list Z) (s : Matrix_state) : Matrix_state :=
  mkState (Matrix_divCounter s) (Matrix_repeatThreshold s) (Matrix_timesRelease s) v
    (Matrix_scanArray s) (matrixDebugMode s) (matrixDebugStateCounter s)
    (matrixMaxScans s) (matrixCurScans s) (matrixPrevScans s) (trace s).
Definition set_scanArray (v : list KeyState) (s : Matrix_state) : Matrix_state :=
  mkState (Matrix_divCounter s) (Matrix_repeatThreshold s) (Matrix_timesRelease s)
    (Matrix_timesPress s) v (matrixDebugMode s) (matrixDebugStateCounter s)
    (matrixMaxScans s) (matrixCurScans s) (matrixPrevScans s) (trace s).
Definition set_debugStateCounter (v : Z) (s : Matrix_state) : Matrix_state :=
  mkState (Matrix_divCounter s) (Matrix_repeatThreshold s) (Matrix_timesRelease s)
    (Matrix_timesPress s) (Matrix_scanArray s) (matrixDebugMode s) v
    (matrixMaxScans s) (matrixCurScans s) (matrixPrevScans s) (trace s).
Definition set_maxScans (v : Z) (s : Matrix_state) : Matrix_state :=
  mkState (Matrix_divCounter s) (Matrix_repeatThreshold s) (Matrix_timesRelease s)
    (Matrix_timesPress s) (Matrix_scanArray s) (matrixDebugMode s)
    (matrixDebugStateCounter s) v (matrixCurScans s) (matrixPrevScans s) (trace s).
Definition set_curScans (v : Z) (s : Matrix_state) : Matrix_state :=
  mkState (Matrix_divCounter s) (Matrix_repeatThreshold s) (Matrix_timesRelease s)
    (Matrix_timesPress s) (Matrix_scanArray s) (matrixDebugMode s)
    (matrixDebugStateCounter s) (matrixMaxScans s) v (matrixPrevScans s) (trace s).
Definition set_prevScans (v : Z) (s : Matrix_state) : Matrix_state :=
  mkState (Matrix_divCounter s) (Matrix_repeatThreshold s) (Matrix_timesRelease s)
    (Matrix_timesPress s) (Matrix_scanArray s) (matrixDebugMode s)
    (matrixDebugStateCounter s) (matrixMaxScans s) (matrixCurScans s) v (trace s).
Definition set_trace (v : list event) (s : Matrix_state) : Matrix_state :=
  mkState (Matrix_divCounter s) (Matrix_repeatThreshold s) (Matrix_timesRelease s)
    (Matrix_timesPress s) (Matrix_scanArray s) (matrixDebugMode s)
    (matrixDebugStateCounter s) (matrixMaxScans s) (matrixCurScans s)
    (matrixPrevScans s) v.

(** ** Actions *)

Definition action : Type := Matrix_state → option Matrix_state.

Definition and_then (a b : action) : action := λ s, a s ≫= b.
Notation "a >>> b" := (and_then a b) (at level 62, right associativity).

Definition skip : action := Some.
Definition modify (f : Matrix_state → Matrix_state) : action := λ s, Some (f s).
Definition emit (e : event) : action := modify (λ s, set_trace (trace s ++ [e]) s).
Definition when (b : bool) (a : action) : action := if b then a else skip.

(** A [for] loop whose counter runs through [l] in order. *)
Fixpoint for_each {A : Type} (l : list A) (body : A → action) : action :=
  match l with
  | [] => skip
  | x :: l' => body x >>> for_each l' body
  end.

(** A [for] loop whose [uint8_t] counter runs from 0 up to [bound].  When
    [bound] is above 255 the counter wraps around before it reaches the
    bound and the loop never ends: there is no next state. *)
Definition for_uint8 (bound : Z) (body : Z → action) : action :=
  if bool_decide (bound ≤ 255) then for_each (seqZ 0 bound) body else λ _, None.

(** [a[i]++] on an array of [uint32_t]. *)
Definition incr32 (a : list Z) (i : Z) : option (list Z) :=
  v ← a !! Z.to_nat i; Some (<[Z.to_nat i := wrap32 (v + 1)]> a).

(** [a[i] = v]. *)
Definition store {A : Type} (a : list A) (i : Z) (v : A) : option (list A) :=
  _ ← a !! Z.to_nat i; Some (<[Z.to_nat i := v]> a).

(** ** The scan module *)

(** The escape character that starts the colour codes of the state
    glyphs (written [\033] in the C strings). *)
Definition ESC : string := String (Ascii.ascii_of_nat 27) EmptyString.

(** [Matrix_keyPositionDebug] (matrix_scan.c:232-258) *)
Definition Matrix_keyPositionDebug (pos : KeyPosition) : action :=
  match pos with
  | KeyState_Off => emit (print (ESC +:+ "[1mO" +:+ ESC +:+ "[0m"))
  | KeyState_Press => emit (print (ESC +:+ "[1;33mP" +:+ ESC +:+ "[0m"))
  | KeyState_Hold => emit (print (ESC +:+ "[1;32mH" +:+ ESC +:+ "[0m"))
  | KeyState_Release => emit (print (ESC +:+ "[1;35mR" +:+ ESC +:+ "[0m"))
  | KeyState_Invalid => emit (print (ESC +:+ "[1;31mI" +:+ ESC +:+ "[0m"))
  end.

(** The state every entry of the debounce array gets in [Matrix_setup]
    (matrix_scan.c:214-218); the argument is [DebounceDivThreshold_define]. *)
Definition KeyState_cleared (threshold : Z) : KeyState :=
  mkKeyState KeyState_Off KeyState_Off 0 threshold 0.

(** "If first scan, reset state" (matrix_scan.c:304-309) *)
Definition reset_state (scanNum : Z) (state : KeyState) : KeyState :=
  if scanNum =? 0
  then set_curState KeyState_Invalid (set_prevState (curState state) state)
  else state.

(** The two counters (matrix_scan.c:318-334): the count of the level that
    was read goes up by one unless it has reached the threshold, the
    opposing count is shifted right by one. *)
Definition debounce (threshold : Z) (detected : bool) (state : KeyState) : KeyState :=
  if detected then
    let state :=
      if activeCount state <? threshold
      then set_activeCount (activeCount state + 1) state else state in
    set_inactiveCount (Z.shiftr (inactiveCount state) 1) state
  else
    let state :=
      if inactiveCount state <? threshold
      then set_inactiveCount (inactiveCount state + 1) state else state in
    set_activeCount (Z.shiftr (activeCount state) 1) state.

(** The [switch ( state->prevState )] of matrix_scan.c:359-393.  It
    returns the entry and the module state after the switch. *)
Definition resolve (bucket : Z) (state : KeyState) (s : Matrix_state)
  : option (KeyState * Matrix_state) :=
  match prevState state with
  | KeyState_Press | KeyState_Hold =>
      if inactiveCount state <? activeCount state then
        Some (set_curState KeyState_Hold state, s)
      else
        h ← incr32 (Matrix_timesRelease s) bucket;
        Some (set_lastChangeCounter (Matrix_divCounter s)
                (set_curState KeyState_Release state),
              set_timesRelease h s)
  | KeyState_Release | KeyState_Off =>
      if inactiveCount state <? activeCount state then
        h ← incr32 (Matrix_timesPress s) bucket;
        Some (set_lastChangeCounter (Matrix_divCounter s)
                (set_curState KeyState_Press state),
              set_timesPress h s)
      else
        Some (set_curState KeyState_Off state, s)
  | KeyState_Invalid =>
      s' ← emit (erro_print "Matrix scan bug!! Report me!") s;
      Some (state, s')
  end.

(** [Matrix_scanArray[ key ] = state] *)
Definition put_key (key : Z) (state : KeyState) : action :=
  λ s, a ← store (Matrix_scanArray s) key state; Some (set_scanArray a s).

(** "Matrix Debug, only if there is a state change" (matrix_scan.c:398-414) *)
Definition debug_key (key : Z) (state : KeyState) : action :=
  λ s,
    when (negb (matrixDebugMode s =? 0)
          && negb (bool_decide (curState state = prevState state)))
      (if (matrixDebugMode s =? 1) && bool_decide (curState state = KeyState_Press)
       then emit (printHex key) >>> emit (print " ")
       else if matrixDebugMode s =? 2
       then emit (printHex key) >>> Matrix_keyPositionDebug (curState state)
            >>> emit (print " ")
       else skip) s.

(** The body of the inner loop of [Matrix_scan] (matrix_scan.c:299-415)
    for the entry [key], with [detected] the level read on the sense pin. *)
Definition scan_key (threshold scanNum : Z) (detected : bool) (key : Z) : action :=
  λ s,
    state ← Matrix_scanArray s !! Z.to_nat key;
    let state := reset_state scanNum state in
    let state := debounce threshold detected state in
    if bool_decide (curState state = KeyState_Invalid) then
      let diff := wrap32 (Matrix_divCounter s - lastChangeCounter state) in
      let bucket := bucket_of diff in
      if diff <? Matrix_repeatThreshold s then
        put_key key (set_curState (prevState state) state) s
      else
        '(state, s) ← resolve bucket state s;
        (put_key key state
         >>> emit (Macro_keyState key (curState state))
         >>> debug_key key state) s
    else
      put_key key state s.

Section Matrix.

(** The configuration, from headers that are not part of this file:
    the numbers of strobe and sense lines ([matrix.h]), the debounce
    threshold and the throttle divider (KLL defines), and the line
    terminator of [print.h]. *)
Variables Matrix_colsNum Matrix_rowsNum : Z.
Variables DebounceDivThreshold_define DebounceThrottleDiv_define : Z.
Variable NL : string.

(** Modelled from the spec: [Matrix_maxKeys] is declared in a header
    that is not part of this file; the number of keys is strobes times
    senses, the declared length of [Matrix_scanArray]. *)
Definition Matrix_maxKeys : Z := Matrix_colsNum * Matrix_rowsNum.

(** The globals as the C initialisers leave them at start-up; the
    debounce array has no initialiser and starts zeroed, which
    [Matrix_setup] overwrites entry by entry. *)
Definition boot : Matrix_state :=
  {| Matrix_divCounter := 0;
     Matrix_repeatThreshold := 16;
     Matrix_timesRelease := replicate 32 0;
     Matrix_timesPress := replicate 32 0;
     Matrix_scanArray :=
       replicate (Z.to_nat Matrix_maxKeys)
         (mkKeyState KeyState_Off KeyState_Off 0 0 0);
     matrixDebugMode := 0;
     matrixDebugStateCounter := 0;
     matrixMaxScans := 0;
     matrixCurScans := 0;
     matrixPrevScans := 0;
     trace := [] |}.

(** [Matrix_setup] (matrix_scan.c:183-230) *)
Definition Matrix_setup : action :=
  emit CLI_registerDictionary
  >>> emit (info_msg "Columns:  ") >>> emit (printHex Matrix_colsNum)
  >>> for_uint8 Matrix_colsNum
        (λ pin, emit (Matrix_pin_strobe pin Type_StrobeSetup))
  >>> emit (print NL)
  >>> emit (info_msg "Rows:     ") >>> emit (printHex Matrix_rowsNum)
  >>> for_uint8 Matrix_rowsNum
        (λ pin, emit (Matrix_pin_sense pin Type_SenseSetup))
  >>> emit (print NL)
  >>> emit (info_msg "Max Keys: ") >>> emit (printHex Matrix_maxKeys)
  >>> for_uint8 Matrix_maxKeys
        (λ item, put_key item (KeyState_cleared DebounceDivThreshold_define))
  >>> modify (set_maxScans 0)
  >>> modify (set_prevScans 0)
  >>> for_each (seqZ 0 32)
        (λ i s,
           r ← store (Matrix_timesRelease s) i 0;
           p ← store (Matrix_timesPress s) i 0;
           Some (set_timesPress p (set_timesRelease r s))).

(** The throttle test of matrix_scan.c:267-274, on the counter that has
    already been incremented. *)
Definition throttled (s : Matrix_state) : bool :=
  (0 <? DebounceThrottleDiv_define)
  && (Z.land (Matrix_divCounter s)
        (Z.shiftl 1 (DebounceThrottleDiv_define - 1)) =? 0).

(** "Increment stats counters" (matrix_scan.c:276-288) *)
Definition scan_stats (scanNum : Z) : action :=
  modify (λ s, if matrixMaxScans s <? scanNum then set_maxScans scanNum s else s)
  >>> modify (λ s,
        if scanNum =? 0
        then set_curScans 0 (set_prevScans (matrixCurScans s) s)
        else set_curScans (wrap16 (matrixCurScans s + 1)) s).

(** "State Table Output Debug" (matrix_scan.c:422-464) *)
Definition debug_state_table (scanNum : Z) : action :=
  λ s,
    if 0 <? matrixDebugStateCounter s then
      (modify (set_debugStateCounter (matrixDebugStateCounter s - 1))
       >>> emit (print NL)
       >>> emit (info_msg "Max scans:      ") >>> emit (printHex (matrixMaxScans s))
       >>> emit (print NL)
       >>> emit (info_msg "Previous scans: ") >>> emit (printHex (matrixPrevScans s))
       >>> emit (print NL)
       >>> emit (info_msg "Scan Number:    ") >>> emit (printHex scanNum)
       >>> emit (print NL)
       >>> emit (print "<key>:<previous state><current state> <active count> <inactive count>")
       >>> for_uint8 Matrix_maxKeys
             (λ key s,
                state ← Matrix_scanArray s !! Z.to_nat key;
                (when (key mod 4 =? 0) (emit (print NL))
                 >>> emit (print (ESC +:+ "[1m0x"))
                 >>> emit (printHex_op key 2)
                 >>> emit (print (ESC +:+ "[0m"))
                 >>> emit (print ":")
                 >>> Matrix_keyPositionDebug (prevState state)
                 >>> Matrix_keyPositionDebug (curState state)
                 >>> emit (print " 0x")
                 >>> emit (printHex_op (activeCount state) 4)
                 >>> emit (print " 0x")
                 >>> emit (printHex_op (inactiveCount state) 4)
                 >>> emit (print " ")) s)
       >>> emit (print NL)) s
    else Some s.

(** The position of the key at ([strobe], [sense]) in the debounce
    array: [uint8_t key = Matrix_colsNum * sense + strobe;] *)
Definition key_of (strobe sense : Z) : Z :=
  wrap8 (Matrix_colsNum * sense + strobe).

(** "For each strobe, scan each of the sense pins" (matrix_scan.c:290-420) *)
Definition scan_strobe (scanNum : Z) (sense_in : Z → Z → bool) (strobe : Z) : action :=
  emit (Matrix_pin_strobe strobe Type_StrobeOn)
  >>> for_uint8 Matrix_rowsNum
        (λ sense,
           scan_key DebounceDivThreshold_define scanNum
             (sense_in strobe sense) (key_of strobe sense))
  >>> emit (Matrix_pin_strobe strobe Type_StrobeOff).

(** [Matrix_scan] (matrix_scan.c:263-465) *)
Definition Matrix_scan (scanNum : Z) (sense_in : Z → Z → bool) : action :=
  modify (λ s, set_divCounter (wrap32 (Matrix_divCounter s + 1)) s)
  >>> λ s,
    if throttled s then Some s
    else
      (scan_stats scanNum
       >>> for_uint8 Matrix_colsNum (scan_strobe scanNum sense_in)
       >>> debug_state_table scanNum) s.

(** A run of the module: the invocations of [Matrix_scan] in order,
    each with its [scanNum] and the levels the sense pins show. *)
Definition run (calls : list (Z * (Z → Z → bool))) : action :=
  for_each calls (λ c, Matrix_scan c.1 c.2).


(** ** Predicates of the properties *)

(** The entry holds a state that may be reported. *)
Definition resolved (state : KeyState) : Prop :=
  curState state ≠ KeyState_Invalid.

(** Both counters of the entry are within [0 .. threshold]. *)
Definition counts_ok (state : KeyState) : Prop :=
  (0 ≤ activeCount state ≤ DebounceDivThreshold_define)
  ∧ (0 ≤ inactiveCount state ≤ DebounceDivThreshold_define).

(** The configuration lets the loops end: their [uint8_t] counters can
    reach the bounds. *)
Definition config_ok : Prop :=
  Matrix_colsNum ≤ 255 ∧ Matrix_rowsNum ≤ 255 ∧ Matrix_maxKeys ≤ 255.

(** The shape of the globals: the arrays have their declared lengths
    and the repeat threshold is not zero. *)
Definition wf (s : Matrix_state) : Prop :=
  length (Matrix_scanArray s) = Z.to_nat Matrix_maxKeys
  ∧ length (Matrix_timesRelease s) = 32%nat
  ∧ length (Matrix_timesPress s) = 32%nat
  ∧ 0 < Matrix_repeatThreshold s.

(** [wf] together with a property of every entry of the debounce array. *)
Definition inv (P : KeyState → Prop) (s : Matrix_state) : Prop :=
  wf s ∧ Forall P (Matrix_scanArray s).

(** Number of calls [Macro_keyState( key, _ )] among the events. *)
Fixpoint keyState_calls (key : Z) (evs : list event) : nat :=
  match evs with
  | [] => 0
  | Macro_keyState k _ :: evs' =>
      ((if bool_decide (k = key) then 1 else 0) + keyState_calls key evs')%nat
  | _ :: evs' => keyState_calls key evs'
  end.

(** The event is not a call of [Macro_keyState] with [KeyState_Invalid]. *)
Definition notify_ok (e : event) : Prop :=
  match e with
  | Macro_keyState _ state => state ≠ KeyState_Invalid
  | _ => True
  end.

(** A scan pass: an invocation with [scanNum == 0] followed by the
    invocations up to the next one with [scanNum == 0]. *)
Definition is_pass (calls : list (Z * (Z → Z → bool))) : Prop :=
  match calls with
  | [] => False
  | c :: rest => c.1 = 0 ∧ Forall (λ c', c'.1 ≠ 0) rest
  end.

(** The buckets a delta of at least [threshold] cannot fall into. *)
Definition low_bucket (threshold : Z) (i : nat) : Prop :=
  2 ^ (Z.of_nat i + 1) ≤ threshold.

(** The low buckets of both histograms read the same in [s'] as in [s]. *)
Definition hist_frame (s s' : Matrix_state) : Prop :=
  ∀ i : nat, low_bucket (Matrix_repeatThreshold s) i →
    Matrix_timesRelease s' !! i = Matrix_timesRelease s !! i
    ∧ Matrix_timesPress s' !! i = Matrix_timesPress s !! i.

(** What relates the globals before and after a piece of scanning: the
    threshold, the debug mode and the array lengths stay, the low
    buckets stay, resolved entries stay resolved, bounded counters stay
    bounded, and the trace grows by events among which, when every
    entry was resolved before, [Macro_keyState] is called at most [n]
    times for [key] and never with [KeyState_Invalid]. *)
Definition scan_rel (key : Z) (n : nat) (s s' : Matrix_state) : Prop :=
  Matrix_repeatThreshold s' = Matrix_repeatThreshold s
  ∧ matrixDebugMode s' = matrixDebugMode s
  ∧ length (Matrix_scanArray s') = length (Matrix_scanArray s)
  ∧ length (Matrix_timesRelease s') = length (Matrix_timesRelease s)
  ∧ length (Matrix_timesPress s') = length (Matrix_timesPress s)
  ∧ hist_frame s s'
  ∧ (Forall resolved (Matrix_scanArray s) → Forall resolved (Matrix_scanArray s'))
  ∧ (Forall counts_ok (Matrix_scanArray s) → Forall counts_ok (Matrix_scanArray s'))
  ∧ ∃ evs, trace s' = trace s ++ evs
      ∧ (Forall resolved (Matrix_scanArray s) →
         (keyState_calls key evs ≤ n)%nat ∧ Forall notify_ok evs).

(** [scan_rel] for the code after the statistics, which in addition
    leaves the tick counter and the statistics alone. *)
Definition loop_rel (key : Z) (n : nat) (s s' : Matrix_state) : Prop :=
  scan_rel key n s s'
  ∧ Matrix_divCounter s' = Matrix_divCounter s
  ∧ matrixMaxScans s' = matrixMaxScans s
  ∧ matrixCurScans s' = matrixCurScans s
  ∧ matrixPrevScans s' = matrixPrevScans s.

(** How often the key at ([strobe], [sense]) can be reported for [key]
    in an invocation with [scanNum]. *)
Definition visit (scanNum key strobe sense : Z) : nat :=
  if bool_decide (scanNum = 0 ∧ key_of strobe sense = key) then 1%nat else 0%nat.

Definition visits_strobe (scanNum key strobe : Z) : nat :=
  sum_list (visit scanNum key strobe <$> seqZ 0 Matrix_rowsNum).

Definition visits (scanNum key : Z) : nat :=
  sum_list (visits_strobe scanNum key <$> seqZ 0 Matrix_colsNum).

(** The event is not a call of [Macro_keyState]. *)
Definition quiet (e : event) : Prop :=
  match e with Macro_keyState _ _ => False | _ => True end.

(** On well-formed globals the action returns and relates the states
    by [loop_rel]. *)
Definition does (key : Z) (n : nat) (a : action) : Prop :=
  ∀ s, wf s → ∃ s', a s = Some s' ∧ loop_rel key n s s'.

(** The states the globals go through, at the grain of the statements
    of [Matrix_scan] outside the scan of one key: after [Matrix_setup]
    on the start-up values, after a whole invocation of [Matrix_scan],
    and inside an invocation after the tick, after the statistics,
    after a call that leaves the module and after the scan of one key.
    The steps may be taken in any order, so this covers more states
    than a run goes through. *)
Inductive reachable : Matrix_state → Prop :=
| reach_setup s0 :
    Matrix_setup boot = Some s0 → reachable s0
| reach_scan s scanNum sense_in s' :
    reachable s → Matrix_scan scanNum sense_in s = Some s' → reachable s'
| reach_tick s :
    reachable s →
    reachable (set_divCounter (wrap32 (Matrix_divCounter s + 1)) s)
| reach_stats s scanNum s' :
    reachable s → scan_stats scanNum s = Some s' → reachable s'
| reach_emit s e s' :
    reachable s → quiet e → emit e s = Some s' → reachable s'
| reach_key s scanNum detected strobe sense s' :
    reachable s →
    0 ≤ strobe < Matrix_colsNum → 0 ≤ sense < Matrix_rowsNum →
    scan_key DebounceDivThreshold_define scanNum detected (key_of strobe sense) s
    = Some s' →
    reachable s'.

(** The action always returns and changes nothing but the trace, which
    it extends by events other than calls of [Macro_keyState]. *)
Definition only_emits (a : action) : Prop :=
  ∀ s, ∃ evs, a s = Some (set_trace (trace s ++ evs) s) ∧ Forall quiet evs.

(** ** Concrete inputs for the examples *)

(** The line terminator of the firmware's [print.h]. *)
Definition CRLF : string :=
  String (Ascii.ascii_of_nat 13) (String (Ascii.ascii_of_nat 10) EmptyString).

(** Globals at the given tick with empty histograms, the default
    threshold and the given debounce array. *)
Definition ex_globals (tick : Z) (entries : list KeyState) : Matrix_state :=
  mkState tick 16 (replicate 32 0) (replicate 32 0) entries 0 0 0 0 0 [].

(** A held key whose contact has been reading open for a few scans. *)
Definition ex_held : KeyState := mkKeyState KeyState_Hold KeyState_Hold 1 4 10.

(** An entry with no valid state at all. *)
Definition ex_broken : KeyState :=
  mkKeyState KeyState_Invalid KeyState_Invalid 0 5 10.

(** An entry as [Matrix_setup] leaves it, for the threshold 5. *)
Definition ex_idle : KeyState := KeyState_cleared 5.

(** Every contact closed, every contact open. *)
Definition all_closed : Z → Z → bool := λ _ _, true.
Definition all_open : Z → Z → bool := λ _ _, false.

(** Globals of a 2 x 2 matrix in the middle of a reporting interval. *)
Definition ex_counted : Matrix_state :=
  mkState 20 16 (replicate 32 0) (replicate 32 0) (replicate 4 ex_idle)
    0 0 5 3 1 [].

(** ** One entry, as a function *)

(** What the body of the inner loop (matrix_scan.c:303-393) does to the
    entry of the key it scans, as a function of the entry, the level
    read, the tick counter and the repeat threshold. *)
Definition scan_entry (T scanNum : Z) (detected : bool) (tick threshold : Z)
    (state : KeyState) : KeyState :=
  let state := debounce T detected (reset_state scanNum state) in
  if bool_decide (curState state = KeyState_Invalid) then
    if wrap32 (tick - lastChangeCounter state) <? threshold then
      set_curState (prevState state) state
    else
      match prevState state with
      | KeyState_Press | KeyState_Hold =>
          if inactiveCount state <? activeCount state
          then set_curState KeyState_Hold state
          else set_lastChangeCounter tick (set_curState KeyState_Release state)
      | KeyState_Release | KeyState_Off =>
          if inactiveCount state <? activeCount state
          then set_lastChangeCounter tick (set_curState KeyState_Press state)
          else set_curState KeyState_Off state
      | KeyState_Invalid => state
      end
  else state.

(** The states the scan of the key passes to [Macro_keyState]
    (matrix_scan.c:396): none, or the new current state. *)
Definition scan_notify (T scanNum : Z) (detected : bool) (tick threshold : Z)
    (state : KeyState) : list KeyPosition :=
  let st := debounce T detected (reset_state scanNum state) in
  if bool_decide (curState st = KeyState_Invalid)
     && negb (wrap32 (tick - lastChangeCounter st) <? threshold)
  then [curState (scan_entry T scanNum detected tick threshold state)]
  else [].

(** The states passed to [Macro_keyState] for [key], in order. *)
Fixpoint key_events (key : Z) (evs : list event) : list KeyPosition :=
  match evs with
  | [] => []
  | Macro_keyState k state :: evs' =>
      if bool_decide (k = key) then state :: key_events key evs'
      else key_events key evs'
  | _ :: evs' => key_events key evs'
  end.

(** How often an invocation scans the entry at position [key]. *)
Definition hit (key strobe sense : Z) : nat :=
  if bool_decide (key_of strobe sense = key) then 1%nat else 0%nat.

Definition hits_strobe (key strobe : Z) : nat :=
  sum_list (hit key strobe <$> seqZ 0 Matrix_rowsNum).

Definition hits (key : Z) : nat :=
  sum_list (hits_strobe key <$> seqZ 0 Matrix_colsNum).

(** The globals the scan of the keys leaves alone. *)
Definition same_globals (s s' : Matrix_state) : Prop :=
  Matrix_divCounter s' = Matrix_divCounter s
  ∧ Matrix_repeatThreshold s' = Matrix_repeatThreshold s
  ∧ matrixDebugMode s' = matrixDebugMode s
  ∧ matrixDebugStateCounter s' = matrixDebugStateCounter s
  ∧ matrixMaxScans s' = matrixMaxScans s
  ∧ matrixCurScans s' = matrixCurScans s
  ∧ matrixPrevScans s' = matrixPrevScans s.

(** The entry at position [key] and the states reported for it, after
    [n] scans of that entry with the level [detected] in an invocation
    with [scanNum]: untouched for 0, one step of [scan_entry] and
    [scan_notify] for 1. *)
Definition entry_rel (scanNum : Z) (detected : bool) (key : Z) (n : nat)
    (s s' : Matrix_state) : Prop :=
  same_globals s s'
  ∧ match n with
    | 0%nat =>
        Matrix_scanArray s' !! Z.to_nat key = Matrix_scanArray s !! Z.to_nat key
        ∧ key_events key (trace s') = key_events key (trace s)
    | 1%nat =>
        Matrix_scanArray s' !! Z.to_nat key
        = scan_entry DebounceDivThreshold_define scanNum detected
            (Matrix_divCounter s) (Matrix_repeatThreshold s)
          <$> Matrix_scanArray s !! Z.to_nat key
        ∧ ∀ st, Matrix_scanArray s !! Z.to_nat key = Some st →
            key_events key (trace s')
            = key_events key (trace s)
              ++ scan_notify DebounceDivThreshold_define scanNum detected
                   (Matrix_divCounter s) (Matrix_repeatThreshold s) st
    | _ => True
    end.

(** The pairs of previous and current state the state machine allows:
    the current state is the previous one (nothing new was decided) or a
    successor of it. *)
Definition legal_pair (state : KeyState) : Prop :=
  match prevState state, curState state with
  | KeyState_Off, (KeyState_Off | KeyState_Press) => True
  | KeyState_Press, (KeyState_Press | KeyState_Hold | KeyState_Release) => True
  | KeyState_Hold, (KeyState_Hold | KeyState_Release) => True
  | KeyState_Release, (KeyState_Release | KeyState_Press | KeyState_Off) => True
  | _, _ => False
  end.

(** On globals whose debounce array is [a0] the action returns and
    changes nothing but the trace, which it extends by events other than
    calls of [Macro_keyState]. *)
Definition emits_with (a0 : list KeyState) (a : action) : Prop :=
  ∀ s, Matrix_scanArray s = a0 →
    ∃ evs, a s = Some (set_trace (trace s ++ evs) s) ∧ Forall quiet evs.

(** The state [b] may be reported after the state [a]: the successors
    the switch of matrix_scan.c:359-387 gives. *)
Definition follows (a b : KeyPosition) : Prop :=
  match a, b with
  | (KeyState_Press | KeyState_Hold), (KeyState_Hold | KeyState_Release) => True
  | (KeyState_Release | KeyState_Off), (KeyState_Press | KeyState_Off) => True
  | _, _ => False
  end.

(** Every state of the list may be reported after the one before it. *)
Fixpoint protocol (l : list KeyPosition) : Prop :=
  match l with
  | a :: l' =>
      match l' with
      | b :: _ => follows a b ∧ protocol l'
      | [] => True
      end
  | [] => True
  end.

(** The entry is as it was at start-up, as far as reporting goes: Off,
    with no change recorded. *)
Definition untouched (state : KeyState) : Prop :=
  prevState state = KeyState_Off
  ∧ curState state = KeyState_Off
  ∧ lastChangeCounter state = 0.


(** What [Matrix_setup] passes to the outside, in program order
    (matrix_scan.c:186-209). *)
Definition setup_output : list event :=
  [CLI_registerDictionary; info_msg "Columns:  "; printHex Matrix_colsNum]
  ++ ((λ pin, Matrix_pin_strobe pin Type_StrobeSetup) <$> seqZ 0 Matrix_colsNum)
  ++ [print NL; info_msg "Rows:     "; printHex Matrix_rowsNum]
  ++ ((λ pin, Matrix_pin_sense pin Type_SenseSetup) <$> seqZ 0 Matrix_rowsNum)
  ++ [print NL; info_msg "Max Keys: "; printHex Matrix_maxKeys].

(** The entry after the key has been scanned once in each of the
    invocations [steps], in order, the sense pin showing the level
    [detected] every time; a step gives the [scanNum], the tick counter
    and the repeat threshold of the invocation. *)
Definition scan_steady (T : Z) (detected : bool) (steps : list (Z * Z * Z))
    (state : KeyState) : KeyState :=
  foldl (λ st p, scan_entry T p.1.1 detected p.1.2 p.2 st) state steps.

(** ** What one key scan prints *)

(** The string [Matrix_keyPositionDebug] prints for a state
    (matrix_scan.c:235-257). *)
Definition position_glyph (pos : KeyPosition) : string :=
  match pos with
  | KeyState_Off => ESC +:+ "[1mO" +:+ ESC +:+ "[0m"
  | KeyState_Press => ESC +:+ "[1;33mP" +:+ ESC +:+ "[0m"
  | KeyState_Hold => ESC +:+ "[1;32mH" +:+ ESC +:+ "[0m"
  | KeyState_Release => ESC +:+ "[1;35mR" +:+ ESC +:+ "[0m"
  | KeyState_Invalid => ESC +:+ "[1;31mI" +:+ ESC +:+ "[0m"
  end.

(** What "Matrix Debug, only if there is a state change"
    (matrix_scan.c:398-414) prints for the resolved entry [state] of
    [key] in the debug mode [mode]. *)
Definition debug_output (mode key : Z) (state : KeyState) : list event :=
  if negb (mode =? 0) && negb (bool_decide (curState state = prevState state))
  then
    if (mode =? 1) && bool_decide (curState state = KeyState_Press)
    then [printHex key; print " "]
    else if mode =? 2
    then [printHex key; print (position_glyph (curState state)); print " "]
    else []
  else [].

(** Everything the scan of one key passes to the outside
    (matrix_scan.c:340-415): nothing unless the entry is resolved in
    this scan; then the diagnostic if the previous state is not valid,
    the report to [Macro_keyState] and the debug output. *)
Definition scan_events (T scanNum : Z) (detected : bool)
    (key tick threshold mode : Z) (state : KeyState) : list event :=
  let st := debounce T detected (reset_state scanNum state) in
  let st' := scan_entry T scanNum detected tick threshold state in
  if bool_decide (curState st = KeyState_Invalid)
     && negb (wrap32 (tick - lastChangeCounter st) <? threshold)
  then
    (if bool_decide (prevState st = KeyState_Invalid)
     then [erro_print "Matrix scan bug!! Report me!"] else [])
    ++ Macro_keyState key (curState st') :: debug_output mode key st'
  else [].


(** The calls of the print routines among the events. *)
Definition is_print (e : event) : bool :=
  match e with
  | erro_print _ | info_msg _ | print _ | printHex _ | printHex_op _ _ => true
  | _ => false
  end.

(** The number of calls [Macro_keyState( _, state )] among the events,
    for any key. *)
Fixpoint reports_of (state : KeyPosition) (evs : list event) : Z :=
  match evs with
  | [] => 0
  | Macro_keyState _ st :: evs' =>
      (if bool_decide (st = state) then 1 else 0) + reports_of state evs'
  | _ :: evs' => reports_of state evs'
  end.

(** The sum of the buckets of a histogram. *)
Definition total (hist : list Z) : Z := foldr Z.add 0 hist.

(** The keys whose scan code the events print with [printHex], and the
    keys the events report as pressed, in order. *)
Fixpoint printed_keys (evs : list event) : list Z :=
  match evs with
  | [] => []
  | printHex key :: evs' => key :: printed_keys evs'
  | _ :: evs' => printed_keys evs'
  end.

Fixpoint pressed_keys (evs : list event) : list Z :=
  match evs with
  | [] => []
  | Macro_keyState key KeyState_Press :: evs' => key :: pressed_keys evs'
  | _ :: evs' => pressed_keys evs'
  end.

(** The histograms count the reports: from [s] to [s'] the trace grows
    and the total of the press (release) histogram grows, modulo
    [2^32], by the number of Press (Release) reports added. *)
Definition tally_rel (s s' : Matrix_state) : Prop :=
  ∃ evs, trace s' = trace s ++ evs
    ∧ wrap32 (total (Matrix_timesPress s'))
      = wrap32 (total (Matrix_timesPress s) + reports_of KeyState_Press evs)
    ∧ wrap32 (total (Matrix_timesRelease s'))
      = wrap32 (total (Matrix_timesRelease s) + reports_of KeyState_Release evs).

(** From [s] to [s'] the trace grows by events that satisfy [P]. *)
Definition grows_by (P : list event → Prop) (s s' : Matrix_state) : Prop :=
  ∃ evs, trace s' = trace s ++ evs ∧ P evs.

(** ** The state table (matrix_scan.c:422-464) *)

(** What the table prints for the entry [state] of [key]
    (matrix_scan.c:446-460). *)
Definition table_row (key : Z) (state : KeyState) : list event :=
  (if key `mod` 4 =? 0 then [print NL] else [])
  ++ [print (ESC +:+ "[1m0x"); printHex_op key 2; print (ESC +:+ "[0m");
      print ":";
      print (position_glyph (prevState state));
      print (position_glyph (curState state));
      print " 0x"; printHex_op (activeCount state) 4;
      print " 0x"; printHex_op (inactiveCount state) 4;
      print " "].

(** The rows of the entries [entries], the first of which has the
    position [key]. *)
Fixpoint table_rows (key : Z) (entries : list KeyState) : list event :=
  match entries with
  | [] => []
  | state :: entries' => table_row key state ++ table_rows (key + 1) entries'
  end.

(** Everything one dump of the table prints (matrix_scan.c:429-463). *)
Definition table_output (scanNum : Z) (s : Matrix_state) : list event :=
  [print NL; info_msg "Max scans:      "; printHex (matrixMaxScans s);
   print NL; info_msg "Previous scans: "; printHex (matrixPrevScans s);
   print NL; info_msg "Scan Number:    "; printHex scanNum;
   print NL;
   print "<key>:<previous state><current state> <active count> <inactive count>"]
  ++ table_rows 0 (Matrix_scanArray s)
  ++ [print NL].

(** The number of table dumps among the events, counted by their
    first message. *)
Fixpoint tables (evs : list event) : Z :=
  match evs with
  | [] => 0
  | info_msg msg :: evs' =>
      (if bool_decide (msg = "Max scans:      ") then 1 else 0) + tables evs'
  | _ :: evs' => tables evs'
  end.

(** ** The CLI commands (matrix_scan.c:468-532) *)

Definition set_debugMode (v : Z) (s : Matrix_state) : Matrix_state :=
  mkState (Matrix_divCounter s) (Matrix_repeatThreshold s) (Matrix_timesRelease s)
    (Matrix_timesPress s) (Matrix_scanArray s) v
    (matrixDebugStateCounter s) (matrixMaxScans s) (matrixCurScans s)
    (matrixPrevScans s) (trace s).

(** The calls of the print routines a command makes: those [event]
    has, and the two decimal routines. *)
Inductive output : Type :=
| out (e : event)
| printInt8 (v : Z)
| printInt32 (v : Z).

(** A command maps the globals to the next globals and what it prints;
    the [trace] of the scan is not touched. *)
Definition command : Type := Matrix_state → option (Matrix_state * list output).

(** [arg1Ptr[0]]: the first character of the argument, the terminating
    NUL when the argument is empty. *)
Definition first_char (arg : string) : Ascii.ascii :=
  match arg with
  | String c _ => c
  | EmptyString => Ascii.zero
  end.

Section CLI.

(** The commands use two functions of [cli.c], which is not part of
    this file: [CLI_argumentIsolation] splits the argument string of
    the command into the first argument and the rest, and [numToInt]
    reads a number. *)
Variable CLI_argumentIsolation : string → string * string.
Variable numToInt : string → Z.

(** The characters ['T'] and ['t'] of the [switch] of
    [cliFunc_matrixDebug]. *)
Definition char_T : Ascii.ascii := Ascii.ascii_of_nat 84.
Definition char_t : Ascii.ascii := Ascii.ascii_of_nat 116.

(** [cliFunc_matrixDebug] (matrix_scan.c:470-502) *)
Definition cliFunc_matrixDebug (args : string) : command :=
  λ s,
    let arg1Ptr := (CLI_argumentIsolation args).1 in
    let report s :=
      Some (s, [out (print NL); out (info_msg "Matrix Debug Mode: ");
                printInt8 (matrixDebugMode s)]) in
    if Ascii.eqb (first_char arg1Ptr) char_T
       || Ascii.eqb (first_char arg1Ptr) char_t
    then report (set_debugMode (if negb (matrixDebugMode s =? 2) then 2 else 0) s)
    else if Ascii.eqb (first_char arg1Ptr) Ascii.zero
    then report (set_debugMode (if negb (matrixDebugMode s =? 1) then 1 else 0) s)
    else Some (s, []).

(** [cliFunc_matrixState] (matrix_scan.c:504-519) *)
Definition cliFunc_matrixState (args : string) : command :=
  λ s,
    let arg1Ptr := (CLI_argumentIsolation args).1 in
    let s := set_debugStateCounter 1 s in
    if negb (Ascii.eqb (first_char arg1Ptr) Ascii.zero)
    then Some (set_debugStateCounter (wrap16 (numToInt arg1Ptr)) s, [])
    else Some (s, []).

(** One turn of the loop of [cliFunc_matrixHist] (matrix_scan.c:525-530). *)
Definition hist_row (s : Matrix_state) (i : Z) : option (list output) :=
  r ← Matrix_timesRelease s !! Z.to_nat i;
  p ← Matrix_timesPress s !! Z.to_nat i;
  Some [printInt8 i; out (print " "); printInt32 r; out (print " ");
        printInt32 p; out (print NL)].

(** [cliFunc_matrixHist] (matrix_scan.c:521-532); the message ends in
    a carriage return and a line feed. *)
Definition cliFunc_matrixHist (args : string) : command :=
  λ s,
    rows ← mapM (hist_row s) (seqZ 0 32);
    Some (s, out (print ("Histogram" +:+ CRLF)) :: concat rows).

End CLI.

(** ** The pin actions (matrix_scan.c:103-180) *)

(** A pin ([GPIO_Pin] of matrix_scan.h): the port, as its number (port
    A is 0), and the number of the pin in the port. *)
Record GPIO_Pin : Set := mkPin {
  port : Z;
  pin : Z
}.

(** The matrix types the code distinguishes ([Matrix_type] of matrix.h). *)
Inductive Config : Set :=
| Config_Pullup
| Config_Pulldown
| Config_Opendrain.

(** What the function takes from headers that are not part of this
    file: the addresses of the registers of port A and the bits of the
    pin control register (Lib/mk20dx.h), and the matrix type
    (matrix.h). *)
Record Target : Type := mkTarget {
  GPIOA_PDDR : Z;
  GPIOA_PSOR : Z;
  GPIOA_PCOR : Z;
  GPIOA_PDIR : Z;
  PORTA_PCR0 : Z;
  PORT_PCR_SRE : Z;
  PORT_PCR_DSE : Z;
  PORT_PCR_ODE : Z;
  PORT_PCR_PFE : Z;
  PORT_PCR_PE : Z;
  PORT_PCR_PS : Z;
  PORT_PCR_MUX : Z → Z;
  Matrix_type : Config
}.

(** An access to a register.  The registers are [volatile]: every read
    and every write of the code is an access, in program order. *)
Inductive access : Set :=
| reg_read (addr : Z)
| reg_write (addr value : Z).

(** The five registers of a pin.  Pointers and [unsigned int] are 32
    bits wide on the target, so the size of a pointer is 4 and the
    pointer sums advance by 4 bytes for each unit of the offset
    (matrix_scan.c:109-118). *)
Definition gpio_offset (gpio : GPIO_Pin) : Z :=
  wrap32 (port gpio * 64) `div` 4.
Definition port_offset (gpio : GPIO_Pin) : Z :=
  wrap32 (wrap32 (port gpio * 4096) `div` 4 + pin gpio).
Definition GPIO_PDDR (hw : Target) (gpio : GPIO_Pin) : Z :=
  GPIOA_PDDR hw + 4 * gpio_offset gpio.
Definition GPIO_PSOR (hw : Target) (gpio : GPIO_Pin) : Z :=
  GPIOA_PSOR hw + 4 * gpio_offset gpio.
Definition GPIO_PCOR (hw : Target) (gpio : GPIO_Pin) : Z :=
  GPIOA_PCOR hw + 4 * gpio_offset gpio.
Definition GPIO_PDIR (hw : Target) (gpio : GPIO_Pin) : Z :=
  GPIOA_PDIR hw + 4 * gpio_offset gpio.
Definition PORT_PCR (hw : Target) (gpio : GPIO_Pin) : Z :=
  PORTA_PCR0 hw + 4 * port_offset gpio.

(** [1 << gpio.pin] and [~(1 << gpio.pin)], as [unsigned int]. *)
Definition pin_bit (gpio : GPIO_Pin) : Z := wrap32 (Z.shiftl 1 (pin gpio)).
Definition pin_mask (gpio : GPIO_Pin) : Z :=
  wrap32 (Z.lnot (Z.shiftl 1 (pin gpio))).

(** [Matrix_pin] (matrix_scan.c:106-180): the accesses it makes and the
    value it returns; [rd n] is the value its [n]-th read returns. *)
Definition Matrix_pin (hw : Target) (gpio : GPIO_Pin) (type : PinType)
    (rd : nat → Z) : list access * Z :=
  match type with
  | Type_StrobeOn =>
      ([reg_read (GPIO_PSOR hw gpio);
        reg_write (GPIO_PSOR hw gpio) (Z.lor (rd 0%nat) (pin_bit gpio))], 0)
  | Type_StrobeOff =>
      ([reg_read (GPIO_PCOR hw gpio);
        reg_write (GPIO_PCOR hw gpio) (Z.lor (rd 0%nat) (pin_bit gpio))], 0)
  | Type_StrobeSetup =>
      ([reg_read (GPIO_PDDR hw gpio);
        reg_write (GPIO_PDDR hw gpio) (Z.lor (rd 0%nat) (pin_bit gpio));
        reg_write (PORT_PCR hw gpio)
          (Z.lor (Z.lor (PORT_PCR_SRE hw) (PORT_PCR_DSE hw)) (PORT_PCR_MUX hw 1))]
       ++ match Matrix_type hw with
          | Config_Opendrain =>
              [reg_read (PORT_PCR hw gpio);
               reg_write (PORT_PCR hw gpio) (Z.lor (rd 1%nat) (PORT_PCR_ODE hw))]
          | _ => []
          end, 0)
  | Type_Sense =>
      ([reg_read (GPIO_PDIR hw gpio)],
       if Z.land (rd 0%nat) (pin_bit gpio) =? 0 then 0 else 1)
  | Type_SenseSetup =>
      ([reg_read (GPIO_PDDR hw gpio);
        reg_write (GPIO_PDDR hw gpio) (Z.land (rd 0%nat) (pin_mask gpio));
        reg_write (PORT_PCR hw gpio)
          (Z.lor (PORT_PCR_PFE hw) (PORT_PCR_MUX hw 1))]
       ++ match Matrix_type hw with
          | Config_Pullup =>
              [reg_read (PORT_PCR hw gpio);
               reg_write (PORT_PCR hw gpio)
                 (Z.lor (rd 1%nat) (Z.lor (PORT_PCR_PE hw) (PORT_PCR_PS hw)))]
          | Config_Pulldown =>
              [reg_read (PORT_PCR hw gpio);
               reg_write (PORT_PCR hw gpio) (Z.lor (rd 1%nat) (PORT_PCR_PE hw))]
          | Config_Opendrain => []
          end, 0)
  end.

(** The address of an access, and whether it is a write. *)
Definition access_addr (a : access) : Z :=
  match a with reg_read addr | reg_write addr _ => addr end.
Definition is_write (a : access) : bool :=
  match a with reg_write _ _ => true | reg_read _ => false end.

(** The register map of the MK20 (Lib/mk20dx.h), for a matrix with
    pull-down resistors. *)
Definition mk20dx : Target :=
  {| GPIOA_PDDR := 1074786324; GPIOA_PSOR := 1074786308;
     GPIOA_PCOR := 1074786312; GPIOA_PDIR := 1074786320;
     PORTA_PCR0 := 1074040832;
     PORT_PCR_SRE := 4; PORT_PCR_DSE := 64; PORT_PCR_ODE := 32;
     PORT_PCR_PFE := 16; PORT_PCR_PE := 2; PORT_PCR_PS := 1;
     PORT_PCR_MUX := λ n, Z.shiftl (Z.land n 7) 8;
     Matrix_type := Config_Pulldown |}.

(** Globals of a 2 x 2 matrix at tick 40 whose key 3 was pressed at
    tick 20 and is held. *)
Definition ex_pressed : Matrix_state :=
  mkState 40 16 (replicate 32 0) (replicate 32 0)
    [ex_idle; ex_idle; ex_idle; mkKeyState KeyState_Press KeyState_Hold 5 0 20]
    0 0 0 0 0 [].

(** Globals of a 2 x 2 matrix at tick 25 whose key 3 was pressed at
    tick 20. *)
Definition ex_recent : Matrix_state :=
  mkState 25 16 (replicate 32 0) (replicate 32 0)
    [ex_idle; ex_idle; ex_idle; mkKeyState KeyState_Off KeyState_Press 5 0 20]
    0 0 0 0 0 [].


(** Stand-ins for the two functions of [cli.c], for argument strings
    that hold one argument: the first argument is the whole string, and
    every number reads as 3. *)
Definition ex_isolation (args : string) : string * string := (args, "").
Definition ex_numToInt (arg : string) : Z := 3.

(** The entry after the key has been held long enough for the counts
    to be steady: active count at the threshold, inactive count 0. *)
Definition KeyState_held (threshold : Z) : KeyState :=
  mkKeyState KeyState_Hold KeyState_Hold threshold 0 0.

(** Pin 16 of port B, and a port whose registers read [0x10000]. *)
Definition ex_pin : GPIO_Pin := mkPin 1 16.
Definition ex_reads : nat → Z := λ _, 65536.
(** ** Leading zeros and the bucket *)

Lemma testbit_top_false (m x : Z) :
  0 ≤ m → 0 ≤ x < 2 ^ (m + 1) → Z.testbit x m = false → x < 2 ^ m.
Proof.
  intros Hm Hx Hb.
  apply Z.testbit_false in Hb; [|done].
  assert (Hp : 0 < 2 ^ m) by (apply Z.pow_pos_nonneg; lia).
  assert (Hq : x / 2 ^ m < 2).
  { apply Z.div_lt_upper_bound; [done|]. rewrite Z.pow_add_r in Hx; lia. }
  assert (Hq0 : 0 ≤ x / 2 ^ m) by (apply Z.div_pos; lia).
  assert (Hz : x / 2 ^ m = 0).
  { destruct (Z.eq_dec (x / 2 ^ m) 0) as [|Hne]; [done|].
    assert (x / 2 ^ m = 1) as Heq by lia. rewrite Heq in Hb. done. }
  apply Z.div_small_iff in Hz; lia.
Qed.

Lemma testbit_top_true (m x : Z) :
  0 ≤ m → 0 ≤ x → Z.testbit x m = true → 2 ^ m ≤ x.
Proof.
  intros Hm Hx Hb.
  destruct (Z.lt_ge_cases x (2 ^ m)) as [Hlt|]; [|done].
  rewrite Z.testbit_true in Hb by done.
  rewrite Z.div_small in Hb by lia. done.
Qed.

Lemma clz_from_log2 (n : nat) (x : Z) :
  0 < x < 2 ^ Z.of_nat n → clz_from n x = Z.of_nat n - 1 - Z.log2 x.
Proof.
  induction n as [|m IH]; intros Hx; [simpl in Hx; lia|].
  cbn [clz_from].
  destruct (Z.testbit x (Z.of_nat m)) eqn:Hb.
  - apply testbit_top_true in Hb; [|lia..].
    assert (Z.log2 x = Z.of_nat m); [|lia].
    apply Z.log2_unique; [lia|].
    replace (Z.of_nat m + 1) with (Z.of_nat (S m)) by lia. lia.
  - apply testbit_top_false in Hb; [|lia|].
    + rewrite IH by lia. lia.
    + replace (Z.of_nat m + 1) with (Z.of_nat (S m)) by lia. lia.
Qed.

Lemma log2_below_32 (d : Z) : 0 < d < 2 ^ 32 → 0 ≤ Z.log2 d < 32.
Proof.
  intros Hd. split; [apply Z.log2_nonneg|].
  apply Z.log2_lt_pow2; lia.
Qed.

Lemma bucket_of_log2 (d : Z) : 0 < d < 2 ^ 32 → bucket_of d = Z.log2 d.
Proof.
  intros Hd. unfold bucket_of, builtin_clzl.
  rewrite (clz_from_log2 32) by (change (Z.of_nat 32) with 32; lia).
  pose proof (log2_below_32 d Hd).
  unfold wrap8. change (Z.of_nat 32) with 32.
  rewrite Z.mod_small; lia.
Qed.

Lemma wrap32_range (x : Z) : 0 ≤ wrap32 x < 2 ^ 32.
Proof. unfold wrap32. apply Z.mod_pos_bound. lia. Qed.

Lemma bucket_of_wrap32 (x : Z) :
  0 < wrap32 x →
  bucket_of (wrap32 x) = Z.log2 (wrap32 x) ∧ 0 ≤ Z.log2 (wrap32 x) < 32.
Proof.
  intros Hx. pose proof (wrap32_range x).
  split; [apply bucket_of_log2|apply log2_below_32]; lia.
Qed.

(** ** Actions and loops *)

Lemma and_then_Some (a b : action) (s s' : Matrix_state) :
  (a >>> b) s = Some s' ↔ ∃ s1, a s = Some s1 ∧ b s1 = Some s'.
Proof. unfold and_then. apply bind_Some. Qed.

Lemma and_then_intro (a b : action) (s s1 s' : Matrix_state) :
  a s = Some s1 → b s1 = Some s' → (a >>> b) s = Some s'.
Proof. intros. apply and_then_Some. eauto. Qed.

(** A loop whose body always returns, keeps [I] and relates the states
    by [R] up to a weight: the loop returns, keeps [I] and relates the
    states up to the sum of the weights. *)
Lemma for_each_rel {A : Type} (I : Matrix_state → Prop)
    (R : nat → Matrix_state → Matrix_state → Prop)
    (w : A → nat) (body : A → action) (l : list A) :
  (∀ s, R 0%nat s s) →
  (∀ n m s1 s2 s3, R n s1 s2 → R m s2 s3 → R (n + m)%nat s1 s3) →
  (∀ x s, x ∈ l → I s → ∃ s', body x s = Some s' ∧ I s' ∧ R (w x) s s') →
  ∀ s, I s →
    ∃ s', for_each l body s = Some s' ∧ I s' ∧ R (sum_list (w <$> l)) s s'.
Proof.
  intros Hrefl Htrans. induction l as [|x l IH]; intros Hbody s HI.
  - exists s. simpl. auto.
  - destruct (Hbody x s) as (s1 & Hx & HI1 & HR1); [left|done|].
    destruct (IH (λ y t Hy, Hbody y t (list_elem_of_further _ _ _ Hy)) s1 HI1)
      as (s2 & Hl & HI2 & HR2).
    exists s2. split_and!; [|done|].
    + cbn [for_each]. by eapply and_then_intro.
    + rewrite fmap_cons. cbn [sum_list sum_list_with]. by eapply Htrans.
Qed.

Lemma for_uint8_rel (I : Matrix_state → Prop)
    (R : nat → Matrix_state → Matrix_state → Prop)
    (w : Z → nat) (body : Z → action) (bound : Z) :
  bound ≤ 255 →
  (∀ s, R 0%nat s s) →
  (∀ n m s1 s2 s3, R n s1 s2 → R m s2 s3 → R (n + m)%nat s1 s3) →
  (∀ x s, 0 ≤ x < bound → I s → ∃ s', body x s = Some s' ∧ I s' ∧ R (w x) s s') →
  ∀ s, I s →
    ∃ s', for_uint8 bound body s = Some s' ∧ I s'
          ∧ R (sum_list (w <$> seqZ 0 bound)) s s'.
Proof.
  intros Hb Hrefl Htrans Hbody s HI. unfold for_uint8.
  rewrite bool_decide_eq_true_2 by done.
  apply (for_each_rel I R); [done..| |done].
  intros x t Hx. apply Hbody. apply elem_of_seqZ in Hx. lia.
Qed.

(** ** The relations compose *)

Lemma keyState_calls_app (key : Z) (evs1 evs2 : list event) :
  keyState_calls key (evs1 ++ evs2)
  = (keyState_calls key evs1 + keyState_calls key evs2)%nat.
Proof.
  induction evs1 as [|e evs1 IH]; [done|].
  destruct e; simpl; rewrite IH; lia.
Qed.

Lemma hist_frame_refl (s : Matrix_state) : hist_frame s s.
Proof. by intros i _. Qed.

Lemma hist_frame_trans (s1 s2 s3 : Matrix_state) :
  Matrix_repeatThreshold s2 = Matrix_repeatThreshold s1 →
  hist_frame s1 s2 → hist_frame s2 s3 → hist_frame s1 s3.
Proof.
  intros Ht H12 H23 i Hi.
  destruct (H12 i Hi) as [E1 E2].
  destruct (H23 i) as [E3 E4]; [by rewrite Ht|].
  split; congruence.
Qed.

Lemma scan_rel_refl (key : Z) (s : Matrix_state) : scan_rel key 0 s s.
Proof.
  unfold scan_rel. split_and!; try done.
  exists []. rewrite app_nil_r. split; [done|]. intros _. simpl. by split.
Qed.

Lemma scan_rel_trans (key : Z) (n m : nat) (s1 s2 s3 : Matrix_state) :
  scan_rel key n s1 s2 → scan_rel key m s2 s3 → scan_rel key (n + m) s1 s3.
Proof.
  intros (Ht1 & Hd1 & Ha1 & Hr1 & Hp1 & Hh1 & Hres1 & Hc1 & evs1 & Htr1 & He1)
         (Ht2 & Hd2 & Ha2 & Hr2 & Hp2 & Hh2 & Hres2 & Hc2 & evs2 & Htr2 & He2).
  unfold scan_rel. split_and!; try congruence; [by eapply hist_frame_trans|auto..|].
  exists (evs1 ++ evs2). split; [by rewrite Htr2, Htr1, app_assoc|].
  intros Hres. destruct (He1 Hres) as [Hn1 Hok1].
  destruct (He2 (Hres1 Hres)) as [Hn2 Hok2].
  rewrite keyState_calls_app. split; [lia|]. by apply Forall_app.
Qed.

Lemma scan_rel_mono (key : Z) (n m : nat) (s s' : Matrix_state) :
  (n ≤ m)%nat → scan_rel key n s s' → scan_rel key m s s'.
Proof.
  intros Hnm (?&?&?&?&?&?&?&?& evs & ? & He).
  unfold scan_rel. split_and!; try done.
  exists evs. split; [done|]. intros Hres. destruct (He Hres). split; [lia|done].
Qed.

Lemma scan_rel_wf (key : Z) (n : nat) (s s' : Matrix_state) :
  scan_rel key n s s' → wf s → wf s'.
Proof.
  intros (Ht & _ & Ha & Hr & Hp & _) (?&?&?&?).
  unfold wf. rewrite Ht, Ha, Hr, Hp. done.
Qed.

Lemma loop_rel_refl (key : Z) (s : Matrix_state) : loop_rel key 0 s s.
Proof. unfold loop_rel. split_and!; try done. apply scan_rel_refl. Qed.

Lemma loop_rel_trans (key : Z) (n m : nat) (s1 s2 s3 : Matrix_state) :
  loop_rel key n s1 s2 → loop_rel key m s2 s3 → loop_rel key (n + m) s1 s3.
Proof.
  intros (Hs1 &?&?&?&?) (Hs2 &?&?&?&?).
  unfold loop_rel. split_and!; try congruence. by eapply scan_rel_trans.
Qed.

Lemma loop_rel_mono (key : Z) (n m : nat) (s s' : Matrix_state) :
  (n ≤ m)%nat → loop_rel key n s s' → loop_rel key m s s'.
Proof.
  intros Hnm (Hs &?&?&?&?). unfold loop_rel. split_and!; try done.
  by eapply scan_rel_mono.
Qed.

Lemma quiet_calls (key : Z) (evs : list event) :
  Forall quiet evs → keyState_calls key evs = 0%nat ∧ Forall notify_ok evs.
Proof.
  induction 1 as [|e evs He _ [IH1 IH2]]; [by split|].
  destruct e; simpl in *; try done; split; try done; by constructor.
Qed.

Lemma emit_loop_rel (key : Z) (e : event) (s : Matrix_state) :
  quiet e → ∃ s', emit e s = Some s' ∧ loop_rel key 0 s s'.
Proof.
  intros He. eexists. split; [reflexivity|].
  unfold loop_rel, scan_rel. simpl. split_and!; try done.
  exists [e]. split; [done|]. intros _.
  destruct (quiet_calls key [e]) as [-> ?]; [by apply Forall_singleton|done].
Qed.

(** ** One entry of the debounce array *)

Lemma reset_state_counts (scanNum : Z) (st : KeyState) :
  activeCount (reset_state scanNum st) = activeCount st
  ∧ inactiveCount (reset_state scanNum st) = inactiveCount st
  ∧ lastChangeCounter (reset_state scanNum st) = lastChangeCounter st.
Proof. unfold reset_state. by destruct (scanNum =? 0). Qed.

Lemma reset_state_resolved (scanNum : Z) (st : KeyState) :
  resolved st →
  (scanNum = 0 ∧ curState (reset_state scanNum st) = KeyState_Invalid
   ∧ prevState (reset_state scanNum st) ≠ KeyState_Invalid)
  ∨ (scanNum ≠ 0 ∧ reset_state scanNum st = st).
Proof.
  intros Hres. unfold reset_state.
  destruct (Z.eqb_spec scanNum 0); [left|right]; done.
Qed.

Lemma debounce_states (T : Z) (d : bool) (st : KeyState) :
  prevState (debounce T d st) = prevState st
  ∧ curState (debounce T d st) = curState st
  ∧ lastChangeCounter (debounce T d st) = lastChangeCounter st.
Proof.
  unfold debounce.
  destruct d, (activeCount st <? T), (inactiveCount st <? T); done.
Qed.

Lemma shiftr1_bounds (a b : Z) : 0 ≤ a ≤ b → 0 ≤ Z.shiftr a 1 ≤ b.
Proof.
  intros Ha. rewrite Z.shiftr_div_pow2 by lia. change (2 ^ 1) with 2.
  split; [apply Z.div_pos; lia|].
  transitivity a; [|lia]. apply Z.div_le_upper_bound; lia.
Qed.

Lemma debounce_counts_ok (d : bool) (st : KeyState) :
  counts_ok st → counts_ok (debounce DebounceDivThreshold_define d st).
Proof.
  intros [Ha Hi]. unfold counts_ok, debounce.
  pose proof (shiftr1_bounds _ _ Ha). pose proof (shiftr1_bounds _ _ Hi).
  destruct d.
  - destruct (Z.ltb_spec (activeCount st) DebounceDivThreshold_define);
      simpl; lia.
  - destruct (Z.ltb_spec (inactiveCount st) DebounceDivThreshold_define);
      simpl; lia.
Qed.

Lemma incr32_Some (a : list Z) (i : Z) :
  (Z.to_nat i < length a)%nat →
  ∃ v, a !! Z.to_nat i = Some v
       ∧ incr32 a i = Some (<[Z.to_nat i := wrap32 (v + 1)]> a).
Proof.
  intros Hi. destruct (lookup_lt_is_Some_2 a _ Hi) as [v Hv].
  exists v. split; [done|]. unfold incr32. by rewrite Hv.
Qed.

Lemma put_key_Some (key : Z) (st : KeyState) (s : Matrix_state) :
  (Z.to_nat key < length (Matrix_scanArray s))%nat →
  put_key key st s
  = Some (set_scanArray (<[Z.to_nat key := st]> (Matrix_scanArray s)) s).
Proof.
  intros Hk. destruct (lookup_lt_is_Some_2 _ _ Hk) as [v Hv].
  unfold put_key, store. by rewrite Hv.
Qed.

Lemma low_bucket_below (threshold diff : Z) (i : nat) :
  0 < diff → threshold ≤ diff → low_bucket threshold i →
  i ≠ Z.to_nat (Z.log2 diff).
Proof.
  unfold low_bucket. intros Hd Ht Hi ->.
  pose proof (Z.log2_nonneg diff).
  rewrite Z2Nat.id in Hi by done.
  pose proof (Z.log2_spec diff Hd) as [_ Hlt].
  replace (Z.succ (Z.log2 diff)) with (Z.log2 diff + 1) in Hlt by lia. lia.
Qed.

(** The switch returns when the bucket is inside the histograms; it
    changes no counter of the entry, at most the one bucket, and calls
    nothing but [erro_print]. *)
Lemma resolve_spec (bucket : Z) (st : KeyState) (s : Matrix_state) :
  (Z.to_nat bucket < length (Matrix_timesRelease s))%nat →
  (Z.to_nat bucket < length (Matrix_timesPress s))%nat →
  ∃ st' s' evs,
    resolve bucket st s = Some (st', s')
    ∧ prevState st' = prevState st
    ∧ activeCount st' = activeCount st
    ∧ inactiveCount st' = inactiveCount st
    ∧ (prevState st ≠ KeyState_Invalid → resolved st')
    ∧ Matrix_scanArray s' = Matrix_scanArray s
    ∧ Matrix_divCounter s' = Matrix_divCounter s
    ∧ Matrix_repeatThreshold s' = Matrix_repeatThreshold s
    ∧ matrixDebugMode s' = matrixDebugMode s
    ∧ matrixDebugStateCounter s' = matrixDebugStateCounter s
    ∧ matrixMaxScans s' = matrixMaxScans s
    ∧ matrixCurScans s' = matrixCurScans s
    ∧ matrixPrevScans s' = matrixPrevScans s
    ∧ length (Matrix_timesRelease s') = length (Matrix_timesRelease s)
    ∧ length (Matrix_timesPress s') = length (Matrix_timesPress s)
    ∧ (∀ i : nat, i ≠ Z.to_nat bucket →
         Matrix_timesRelease s' !! i = Matrix_timesRelease s !! i
         ∧ Matrix_timesPress s' !! i = Matrix_timesPress s !! i)
    ∧ trace s' = trace s ++ evs
    ∧ Forall quiet evs.
Proof.
  intros Hr Hp.
  destruct (incr32_Some _ _ Hr) as (vr & _ & Her).
  destruct (incr32_Some _ _ Hp) as (vp & _ & Hep).
  unfold resolve.
  destruct (prevState st) eqn:Hprev;
    destruct (inactiveCount st <? activeCount st) eqn:Hcmp;
    rewrite ?Her, ?Hep; simpl;
    eexists _, _, _; (split; [reflexivity|]); simpl;
    rewrite ?length_insert;
    split_and!; try done;
    try (by intros i Hi; rewrite ?list_lookup_insert_ne by done);
    try (by rewrite app_nil_r);
    try by constructor.
Qed.

Lemma loop_rel_wf (key : Z) (n : nat) (s s' : Matrix_state) :
  loop_rel key n s s' → wf s → wf s'.
Proof. intros [Hs _]. by eapply scan_rel_wf. Qed.

Lemma does_emit (key : Z) (e : event) : quiet e → does key 0 (emit e).
Proof. intros He s _. by apply emit_loop_rel. Qed.

Lemma does_skip (key : Z) : does key 0 skip.
Proof. intros s _. exists s. split; [done|apply loop_rel_refl]. Qed.

Lemma does_seq (key : Z) (n m : nat) (a b : action) :
  does key n a → does key m b → does key (n + m) (a >>> b).
Proof.
  intros Ha Hb s Hwf. destruct (Ha s Hwf) as (s1 & H1 & R1).
  destruct (Hb s1) as (s2 & H2 & R2); [by eapply loop_rel_wf|].
  exists s2. split; [by eapply and_then_intro|by eapply loop_rel_trans].
Qed.

Lemma does_mono (key : Z) (n m : nat) (a : action) :
  (n ≤ m)%nat → does key n a → does key m a.
Proof.
  intros Hnm Ha s Hwf. destruct (Ha s Hwf) as (s' & H1 & R1).
  exists s'. split; [done|by eapply loop_rel_mono].
Qed.

Lemma does_when (key : Z) (b : bool) (a : action) :
  does key 0 a → does key 0 (when b a).
Proof. destruct b; [done|]. intros _. apply does_skip. Qed.

Lemma does_keyPositionDebug (key : Z) (pos : KeyPosition) :
  does key 0 (Matrix_keyPositionDebug pos).
Proof. destruct pos; by apply does_emit. Qed.

Lemma does_for_uint8 (key : Z) (w : Z → nat) (body : Z → action) (bound : Z) :
  bound ≤ 255 →
  (∀ x, 0 ≤ x < bound → does key (w x) (body x)) →
  does key (sum_list (w <$> seqZ 0 bound)) (for_uint8 bound body).
Proof.
  intros Hb Hbody s Hwf.
  destruct (for_uint8_rel wf (loop_rel key) w body bound Hb
              (loop_rel_refl key) (loop_rel_trans key)) with s
    as (s' & Hs' & _ & Rs'); [|done|by exists s'].
  intros x t Hx Ht. destruct (Hbody x Hx t Ht) as (t' & Ht' & Rt').
  exists t'. split_and!; [done| |done]. by eapply loop_rel_wf.
Qed.

Lemma sum_list_zero {A : Type} (l : list A) :
  sum_list ((λ _, 0%nat) <$> l) = 0%nat.
Proof. induction l as [|x l IH]; [done|]. by rewrite fmap_cons. Qed.

Local Ltac does_quiet :=
  repeat first
    [ apply does_skip
    | apply does_keyPositionDebug
    | apply does_emit; exact I
    | apply does_when
    | apply (does_seq _ 0 0) ].

Lemma does_debug_key (k key : Z) (st : KeyState) :
  does k 0 (debug_key key st).
Proof.
  intros s. unfold debug_key.
  destruct (negb (matrixDebugMode s =? 0)
            && negb (bool_decide (curState st = prevState st)));
    [|apply does_skip].
  cbn [when].
  destruct ((matrixDebugMode s =? 1)
            && bool_decide (curState st = KeyState_Press));
    [|destruct (matrixDebugMode s =? 2)]; revert s; does_quiet.
Qed.

Lemma key_of_in_range (strobe sense : Z) :
  0 ≤ strobe < Matrix_colsNum → 0 ≤ sense < Matrix_rowsNum →
  0 ≤ key_of strobe sense < Matrix_maxKeys.
Proof.
  intros Hs He. unfold key_of, wrap8, Matrix_maxKeys.
  assert (0 ≤ Matrix_colsNum * sense + strobe) by nia.
  assert (Matrix_colsNum * sense + strobe < Matrix_colsNum * Matrix_rowsNum) by nia.
  split; [apply Z.mod_pos_bound; lia|].
  eapply Z.le_lt_trans; [apply Z.mod_le; lia|done].
Qed.

(** The scan of one key returns, and reports the key at most once, only
    in an invocation with [scanNum == 0] when the entry was resolved. *)
Lemma does_scan_key (k scanNum : Z) (d : bool) (key : Z) :
  0 ≤ key < Matrix_maxKeys →
  does k (if bool_decide (scanNum = 0 ∧ key = k) then 1 else 0)
    (scan_key DebounceDivThreshold_define scanNum d key).
Proof.
  intros Hkey s Hwf. pose proof Hwf as (Hlen & Hlr & Hlp & Hthr).
  assert (Hk : (Z.to_nat key < length (Matrix_scanArray s))%nat) by lia.
  destruct (lookup_lt_is_Some_2 _ _ Hk) as [st0 Hst0].
  unfold scan_key. rewrite Hst0. cbn [mbind option_bind].
  set (st := debounce DebounceDivThreshold_define d (reset_state scanNum st0)).
  destruct (debounce_states DebounceDivThreshold_define d (reset_state scanNum st0))
    as (Hprev & Hcur & Hlast). fold st in Hprev, Hcur, Hlast.
  assert (Hcounts : counts_ok st0 → counts_ok st).
  { intros [Ha Hi]. apply debounce_counts_ok.
    destruct (reset_state_counts scanNum st0) as (Ea & Ei & _).
    unfold counts_ok. by rewrite Ea, Ei. }
  assert (Hinv : resolved st0 → curState st = KeyState_Invalid →
                 scanNum = 0 ∧ prevState st ≠ KeyState_Invalid).
  { intros Hres Hc. rewrite Hcur in Hc. rewrite Hprev.
    destruct (reset_state_resolved scanNum st0 Hres) as [(?&?&?)|[? E]]; [done|].
    rewrite E in Hc. done. }
  case_bool_decide as Hinvalid.
  - set (diff := wrap32 (Matrix_divCounter s - lastChangeCounter st)).
    destruct (Z.ltb_spec diff (Matrix_repeatThreshold s)) as [Hlt|Hge].
    + (* too soon after the last change *)
      rewrite put_key_Some by done. eexists. split; [reflexivity|].
      apply (loop_rel_mono _ 0); [lia|].
      unfold loop_rel, scan_rel. simpl. rewrite length_insert.
      split_and!; try done.
      * intros Hall. apply Forall_insert; [done|].
        pose proof (Forall_lookup_1 _ _ _ _ Hall Hst0) as Hres.
        by destruct (Hinv Hres Hinvalid).
      * intros Hall. apply Forall_insert; [done|].
        apply (Hcounts (Forall_lookup_1 _ _ _ _ Hall Hst0)).
      * exists []. rewrite app_nil_r. by split.
    + (* the state is resolved and reported *)
      assert (Hdiff : 0 < diff) by lia.
      destruct (bucket_of_wrap32 _ Hdiff) as [Hb Hb32]. fold diff in Hb, Hb32.
      destruct (resolve_spec (bucket_of diff) st s) as
        (st' & s1 & evs & Hres1 & Hp1 & Ha1 & Hi1 & Hr1 & Harr & Hdiv & Ht & Hm
         & _ & Hmax & Hcs & Hps & Hlr1 & Hlp1 & Hh & Htr & Hq);
        [rewrite Hb; lia..|].
      rewrite Hres1. cbn [mbind option_bind].
      destruct (does_debug_key k key st' 
                  (set_trace (trace s1 ++ [Macro_keyState key (curState st')])
                     (set_scanArray (<[Z.to_nat key := st']> (Matrix_scanArray s1)) s1)))
        as (s2 & Hdbg & Rdbg).
      { unfold wf. simpl. by rewrite length_insert, Harr, Hlr1, Hlp1, Ht. }
      exists s2. split.
      { eapply and_then_intro; [apply put_key_Some; by rewrite Harr|].
        eapply and_then_intro; [reflexivity|]. exact Hdbg. }
      rewrite <- (Nat.add_0_r (if bool_decide (scanNum = 0 ∧ key = k) then _ else _)).
      eapply loop_rel_trans; [|exact Rdbg].
      unfold loop_rel, scan_rel. simpl. rewrite Harr, length_insert.
      split_and!; try done.
      * intros i Hi. apply Hh. rewrite Hb.
        by eapply low_bucket_below.
      * intros Hall. apply Forall_insert; [done|]. apply Hr1.
        pose proof (Forall_lookup_1 _ _ _ _ Hall Hst0) as Hres.
        by destruct (Hinv Hres Hinvalid).
      * intros Hall. apply Forall_insert; [done|].
        pose proof (Hcounts (Forall_lookup_1 _ _ _ _ Hall Hst0)) as Hc.
        unfold counts_ok in *. by rewrite Ha1, Hi1.
      * exists (evs ++ [Macro_keyState key (curState st')]).
        split; [by rewrite Htr, app_assoc|].
        intros Hall.
        pose proof (Forall_lookup_1 _ _ _ _ Hall Hst0) as Hres.
        destruct (Hinv Hres Hinvalid) as [Hz Hpv].
        destruct (quiet_calls k evs Hq) as [Hc0 Hok].
        rewrite keyState_calls_app, Hc0. simpl. split.
        -- repeat case_bool_decide; first [lia | naive_solver].
        -- apply Forall_app. split; [done|].
           apply Forall_singleton. simpl. by apply Hr1.
  - (* already resolved in this pass *)
    rewrite put_key_Some by done. eexists. split; [reflexivity|].
    apply (loop_rel_mono _ 0); [lia|].
    unfold loop_rel, scan_rel. simpl. rewrite length_insert.
    split_and!; try done.
    + intros Hall. by apply Forall_insert.
    + intros Hall. apply Forall_insert; [done|].
      apply (Hcounts (Forall_lookup_1 _ _ _ _ Hall Hst0)).
    + exists []. rewrite app_nil_r. by split.
Qed.

(** ** The loops of [Matrix_scan] *)

Lemma does_scan_strobe (k scanNum : Z) (sense_in : Z → Z → bool) (strobe : Z) :
  Matrix_rowsNum ≤ 255 → 0 ≤ strobe < Matrix_colsNum →
  does k (visits_strobe scanNum k strobe) (scan_strobe scanNum sense_in strobe).
Proof.
  intros Hrows Hstrobe. unfold scan_strobe.
  apply (does_mono k (0 + (visits_strobe scanNum k strobe + 0))); [lia|].
  apply does_seq; [by apply does_emit|].
  apply does_seq; [|by apply does_emit].
  apply does_for_uint8; [done|].
  intros sense Hsense. apply does_scan_key. by apply key_of_in_range.
Qed.

Lemma does_scan_loops (k scanNum : Z) (sense_in : Z → Z → bool) :
  Matrix_colsNum ≤ 255 → Matrix_rowsNum ≤ 255 →
  does k (visits scanNum k)
    (for_uint8 Matrix_colsNum (scan_strobe scanNum sense_in)).
Proof.
  intros Hcols Hrows. apply does_for_uint8; [done|].
  intros strobe Hstrobe. by apply does_scan_strobe.
Qed.

Lemma does_modify_debugStateCounter (k c : Z) :
  does k 0 (modify (set_debugStateCounter c)).
Proof.
  intros s _. eexists. split; [reflexivity|].
  unfold loop_rel, scan_rel. simpl. split_and!; try done.
  exists []. rewrite app_nil_r. by split.
Qed.

Lemma does_debug_state_table (k scanNum : Z) :
  Matrix_maxKeys ≤ 255 → does k 0 (debug_state_table scanNum).
Proof.
  intros Hkeys s Hwf. unfold debug_state_table.
  destruct (0 <? matrixDebugStateCounter s);
    [|exists s; split; [done|apply loop_rel_refl]].
  match goal with
  | |- ∃ s', ?a s = Some s' ∧ _ => assert (Hd : does k 0 a); [|by apply Hd]
  end.
  apply (does_seq _ 0 0); [apply does_modify_debugStateCounter|].
  does_quiet.
  rewrite <- (sum_list_zero (seqZ 0 Matrix_maxKeys)).
  apply does_for_uint8; [done|].
  intros key Hkey u Hu. pose proof Hu as (Hlen & _).
  destruct (lookup_lt_is_Some_2 (Matrix_scanArray u) (Z.to_nat key))
    as [st Hst]; [lia|].
  rewrite Hst. cbn [mbind option_bind].
  revert u Hu Hlen Hst. 
  match goal with
  | |- ∀ u, wf u → _ → _ → ∃ s', ?a u = Some s' ∧ _ =>
      assert (Hd : does k 0 a) by does_quiet
  end.
  intros u Hu _ _. by apply Hd.
Qed.

Lemma visits_not_first (scanNum key : Z) : scanNum ≠ 0 → visits scanNum key = 0%nat.
Proof.
  intros Hn. unfold visits.
  rewrite <- (sum_list_zero (seqZ 0 Matrix_colsNum)). f_equal.
  apply list_fmap_ext. intros _ strobe _. unfold visits_strobe.
  rewrite <- (sum_list_zero (seqZ 0 Matrix_rowsNum)). f_equal.
  apply list_fmap_ext. intros _ sense _. unfold visit.
  rewrite bool_decide_eq_false_2; [done|]. by intros [? _].
Qed.

(** ** Every key is visited once in an invocation *)

Lemma sum_list_all_zero {A : Type} (w : A → nat) (l : list A) :
  (∀ x, x ∈ l → w x = 0%nat) → sum_list (w <$> l) = 0%nat.
Proof.
  induction l as [|x l IH]; intros Hw; [done|].
  rewrite fmap_cons. cbn [sum_list sum_list_with].
  rewrite (Hw x) by left. rewrite IH; [done|].
  intros y Hy. apply Hw. by right.
Qed.

Lemma sum_list_indicator {A : Type} `{EqDecision A}
    (w : A → nat) (a : A) (l : list A) :
  NoDup l →
  (∀ x, x ∈ l → x ≠ a → w x = 0%nat) →
  (a ∈ l → (w a ≤ 1)%nat) →
  (sum_list (w <$> l) ≤ 1)%nat.
Proof.
  induction 1 as [|x l Hx Hnd IH]; intros Hne Ha; [simpl; lia|].
  rewrite fmap_cons. cbn [sum_list sum_list_with].
  destruct (decide (x = a)) as [->|Hxa].
  - rewrite sum_list_all_zero.
    + assert (w a ≤ 1)%nat by (apply Ha; left). unfold id. lia.
    + intros y Hy. apply Hne; [by right|]. by intros ->.
  - rewrite (Hne x) by (done || left). simpl. apply IH.
    + intros y Hy. apply Hne. by right.
    + intros Hin. apply Ha. by right.
Qed.

Lemma key_of_unique (key strobe sense : Z) :
  Matrix_maxKeys ≤ 256 →
  0 ≤ strobe < Matrix_colsNum → 0 ≤ sense < Matrix_rowsNum →
  key_of strobe sense = key →
  strobe = key `mod` Matrix_colsNum ∧ sense = key `div` Matrix_colsNum.
Proof.
  unfold key_of, wrap8, Matrix_maxKeys. intros Hmax Hs He Hk.
  rewrite Z.mod_small in Hk by nia. subst key.
  rewrite (Z.mul_comm Matrix_colsNum sense).
  rewrite Z.add_comm, Z.mod_add, Z.div_add by lia.
  rewrite Z.mod_small, Z.div_small by lia. lia.
Qed.

Lemma visits_strobe_le (scanNum key strobe : Z) :
  Matrix_maxKeys ≤ 256 → 0 ≤ strobe < Matrix_colsNum →
  (strobe ≠ key `mod` Matrix_colsNum → visits_strobe scanNum key strobe = 0%nat)
  ∧ (visits_strobe scanNum key strobe ≤ 1)%nat.
Proof.
  intros Hmax Hs. unfold visits_strobe. split.
  - intros Hne. apply sum_list_all_zero. intros sense Hsense.
    apply elem_of_seqZ in Hsense. unfold visit.
    rewrite bool_decide_eq_false_2; [done|]. intros [_ Hk].
    apply key_of_unique in Hk; [|done|done|lia]. by destruct Hk.
  - apply (sum_list_indicator _ (key `div` Matrix_colsNum)).
    + apply NoDup_seqZ.
    + intros sense Hsense Hne. apply elem_of_seqZ in Hsense. unfold visit.
      rewrite bool_decide_eq_false_2; [done|]. intros [_ Hk].
      apply key_of_unique in Hk; [|done|done|lia]. by destruct Hk.
    + intros _. unfold visit. case_bool_decide; lia.
Qed.

Lemma visits_le_1 (scanNum key : Z) :
  Matrix_maxKeys ≤ 256 → (visits scanNum key ≤ 1)%nat.
Proof.
  intros Hmax. unfold visits.
  apply (sum_list_indicator _ (key `mod` Matrix_colsNum)).
  - apply NoDup_seqZ.
  - intros strobe Hstrobe Hne. apply elem_of_seqZ in Hstrobe.
    apply visits_strobe_le; [done|lia|done].
  - intros Hin. apply elem_of_seqZ in Hin.
    apply visits_strobe_le; [done|lia].
Qed.

(** ** [Matrix_scan] and [Matrix_setup] as a whole *)

(** One invocation on well-formed globals returns; it increments the
    tick counter, returns at once when throttled, and otherwise updates
    the statistics and scans every key. *)
Lemma Matrix_scan_spec (k scanNum : Z) (sense_in : Z → Z → bool) (s : Matrix_state) :
  config_ok → wf s →
  ∃ s', Matrix_scan scanNum sense_in s = Some s'
    ∧ scan_rel k (visits scanNum k) s s'
    ∧ Matrix_divCounter s' = wrap32 (Matrix_divCounter s + 1)
    ∧ (throttled (set_divCounter (wrap32 (Matrix_divCounter s + 1)) s) = true →
       s' = set_divCounter (wrap32 (Matrix_divCounter s + 1)) s)
    ∧ (throttled (set_divCounter (wrap32 (Matrix_divCounter s + 1)) s) = false →
       matrixMaxScans s'
       = (if matrixMaxScans s <? scanNum then scanNum else matrixMaxScans s)
       ∧ matrixCurScans s'
         = (if scanNum =? 0 then 0 else wrap16 (matrixCurScans s + 1))
       ∧ matrixPrevScans s'
         = (if scanNum =? 0 then matrixCurScans s else matrixPrevScans s)).
Proof.
  intros (Hcols & Hrows & Hkeys) Hwf.
  set (s1 := set_divCounter (wrap32 (Matrix_divCounter s + 1)) s).
  assert (R1 : scan_rel k 0 s s1).
  { unfold scan_rel. simpl. split_and!; try done.
    exists []. rewrite app_nil_r. by split. }
  unfold Matrix_scan, and_then at 1, modify at 1. cbn [mbind option_bind].
  fold s1. destruct (throttled s1) eqn:Hthr.
  - exists s1. split_and!; try done.
    apply (scan_rel_mono k 0); [lia|done].
  - set (s2 := (λ s, if scanNum =? 0
                     then set_curScans 0 (set_prevScans (matrixCurScans s) s)
                     else set_curScans (wrap16 (matrixCurScans s + 1)) s)
                 ((λ s, if matrixMaxScans s <? scanNum
                        then set_maxScans scanNum s else s) s1)).
    assert (H2 : scan_stats scanNum s1 = Some s2) by reflexivity.
    assert (R2 : scan_rel k 0 s1 s2
                 ∧ Matrix_divCounter s2 = Matrix_divCounter s1
                 ∧ matrixMaxScans s2
                   = (if matrixMaxScans s <? scanNum then scanNum else matrixMaxScans s)
                 ∧ matrixCurScans s2
                   = (if scanNum =? 0 then 0 else wrap16 (matrixCurScans s + 1))
                 ∧ matrixPrevScans s2
                   = (if scanNum =? 0 then matrixCurScans s else matrixPrevScans s)).
    { unfold scan_rel, s2.
      destruct (scanNum =? 0), (matrixMaxScans s <? scanNum) eqn:Hmax;
        simpl; rewrite ?Hmax; simpl; split_and!; try done;
        exists []; rewrite app_nil_r; by split. }
    destruct R2 as (R2 & Hdiv2 & Hmax2 & Hcur2 & Hprev2).
    assert (Hwf2 : wf s2).
    { eapply scan_rel_wf; [exact R2|]. eapply scan_rel_wf; [exact R1|done]. }
    destruct (does_seq k _ _ _ _ (does_scan_loops k scanNum sense_in Hcols Hrows)
                (does_debug_state_table k scanNum Hkeys) s2 Hwf2)
      as (s3 & H3 & R3 & Hdiv3 & Hmax3 & Hcur3 & Hprev3).
    exists s3. split_and!; try congruence.
    + unfold and_then at 1. rewrite H2. exact H3.
    + apply (scan_rel_mono k (0 + (0 + (visits scanNum k + 0)))); [lia|].
      eapply scan_rel_trans; [exact R1|].
      eapply scan_rel_trans; [exact R2|exact R3].
    + rewrite Hdiv3, Hdiv2. done.
    + intros _. rewrite Hmax3, Hcur3, Hprev3. done.
Qed.

Lemma put_keys_replicate (v : KeyState) (n : nat) :
  ∀ (m : Z) (rest : list KeyState) (s : Matrix_state),
    0 ≤ m →
    Matrix_scanArray s = replicate (Z.to_nat m) v ++ rest →
    length rest = n →
    for_each (seqZ m (Z.of_nat n)) (λ item, put_key item v) s
    = Some (set_scanArray (replicate (Z.to_nat m + n) v) s).
Proof.
  induction n as [|n IH]; intros m rest s Hm Harr Hlen.
  - destruct rest; [|done]. rewrite app_nil_r in Harr.
    rewrite Nat.add_0_r, <- Harr. by destruct s.
  - destruct rest as [|r rest]; [done|]. simpl in Hlen.
    rewrite seqZ_cons by lia. cbn [for_each].
    replace (Z.pred (Z.of_nat (S n))) with (Z.of_nat n) by lia.
    assert (Hput : put_key m v s
                   = Some (set_scanArray
                             (replicate (Z.to_nat (Z.succ m)) v ++ rest) s)).
    { rewrite put_key_Some.
      - f_equal. f_equal. rewrite Harr.
        rewrite insert_app_r_alt by (rewrite length_replicate; lia).
        rewrite length_replicate, Nat.sub_diag. simpl.
        replace (Z.to_nat (Z.succ m)) with (Z.to_nat m + 1)%nat by lia.
        rewrite replicate_add, <- app_assoc. done.
      - rewrite Harr, length_app, length_replicate. simpl. lia. }
    eapply and_then_intro; [exact Hput|].
    rewrite (IH (Z.succ m) rest); [|lia|done|lia].
    replace (Z.to_nat m + S n)%nat with (Z.to_nat (Z.succ m) + n)%nat by lia.
    reflexivity.
Qed.

Lemma clear_histograms (s : Matrix_state) :
  length (Matrix_timesRelease s) = 32%nat →
  length (Matrix_timesPress s) = 32%nat →
  for_each (seqZ 0 32)
    (λ i s,
       r ← store (Matrix_timesRelease s) i 0;
       p ← store (Matrix_timesPress s) i 0;
       Some (set_timesPress p (set_timesRelease r s))) s
  = Some (set_timesPress (replicate 32 0) (set_timesRelease (replicate 32 0) s)).
Proof.
  destruct s as [dc rt tr tp arr dm dsc mx cu pv trc]. simpl.
  intros Hr Hp.
  do 33 (destruct tr as [|? tr]; try discriminate Hr).
  do 33 (destruct tp as [|? tp]; try discriminate Hp).
  reflexivity.
Qed.

Lemma for_uint8_emit (f : Z → event) (bound : Z) (s : Matrix_state) :
  bound ≤ 255 →
  for_uint8 bound (λ x, emit (f x)) s
  = Some (set_trace (trace s ++ (f <$> seqZ 0 bound)) s).
Proof.
  intros Hb. unfold for_uint8. rewrite bool_decide_eq_true_2 by done.
  generalize (seqZ 0 bound). intros l. revert s.
  induction l as [|x l IH]; intros s.
  - simpl. rewrite app_nil_r. by destruct s.
  - cbn [for_each]. eapply and_then_intro; [reflexivity|].
    rewrite IH. simpl. by rewrite <- app_assoc.
Qed.

Lemma cleared_resolved : resolved (KeyState_cleared DebounceDivThreshold_define).
Proof. done. Qed.

Lemma cleared_counts_ok :
  0 ≤ DebounceDivThreshold_define →
  counts_ok (KeyState_cleared DebounceDivThreshold_define).
Proof. intros HT. unfold counts_ok. simpl. lia. Qed.

(** [Matrix_setup] on the start-up values returns well-formed globals
    with every entry cleared, both histograms zero, the threshold 16 and
    no key reported. *)
Lemma Matrix_setup_boot :
  config_ok →
  ∃ s0, Matrix_setup boot = Some s0
    ∧ wf s0
    ∧ Matrix_scanArray s0
      = replicate (Z.to_nat Matrix_maxKeys) (KeyState_cleared DebounceDivThreshold_define)
    ∧ Matrix_timesRelease s0 = replicate 32 0
    ∧ Matrix_timesPress s0 = replicate 32 0
    ∧ Matrix_repeatThreshold s0 = 16
    ∧ Forall quiet (trace s0).
Proof.
  intros (Hcols & Hrows & Hkeys). unfold Matrix_setup.
  eexists. split.
  { do 3 (eapply and_then_intro; [reflexivity|]).
    eapply and_then_intro; [by apply for_uint8_emit|].
    do 3 (eapply and_then_intro; [reflexivity|]).
    eapply and_then_intro; [by apply for_uint8_emit|].
    do 3 (eapply and_then_intro; [reflexivity|]).
    eapply and_then_intro.
    { unfold for_uint8. rewrite bool_decide_eq_true_2 by done.
      replace (seqZ 0 Matrix_maxKeys)
        with (seqZ 0 (Z.of_nat (Z.to_nat Matrix_maxKeys)))
        by (unfold seqZ; by rewrite Nat2Z.id).
      eapply (put_keys_replicate _ _ 0); [done|reflexivity|].
      apply length_replicate. }
    do 2 (eapply and_then_intro; [reflexivity|]).
    apply clear_histograms; apply length_replicate. }
  unfold wf. simpl. rewrite !length_replicate.
  split_and!; try done.
  repeat (apply Forall_cons; split; [done|]).
  repeat (apply Forall_app; split); try (by apply Forall_singleton);
    by apply Forall_fmap, Forall_true.
Qed.

(** A run on well-formed globals returns. *)
Lemma run_spec (k : Z) (calls : list (Z * (Z → Z → bool))) (s : Matrix_state) :
  config_ok → wf s →
  ∃ s', run calls s = Some s' ∧ wf s'
    ∧ scan_rel k (sum_list ((λ c, visits c.1 k) <$> calls)) s s'.
Proof.
  intros Hcfg Hwf. unfold run.
  apply (for_each_rel wf (scan_rel k));
    [apply scan_rel_refl|apply scan_rel_trans| |done].
  intros c t _ Ht.
  destruct (Matrix_scan_spec k c.1 c.2 t Hcfg Ht) as (t' & Ht' & Rt' & _).
  exists t'. split_and!; [done| |done]. by eapply scan_rel_wf.
Qed.

Lemma pass_visits (key : Z) (calls : list (Z * (Z → Z → bool))) :
  Matrix_maxKeys ≤ 256 → is_pass calls →
  (sum_list ((λ c, visits c.1 key) <$> calls) ≤ 1)%nat.
Proof.
  intros Hmax. destruct calls as [|c rest]; [done|]. intros [Hc Hrest].
  rewrite fmap_cons. cbn [sum_list sum_list_with].
  rewrite sum_list_all_zero.
  - pose proof (visits_le_1 c.1 key Hmax). unfold id. lia.
  - intros c' Hc'. apply visits_not_first.
    rewrite Forall_forall in Hrest. by apply Hrest.
Qed.

Lemma set_trace_nil (s : Matrix_state) : set_trace (trace s ++ []) s = s.
Proof. rewrite app_nil_r. by destruct s. Qed.

Lemma only_emits_skip : only_emits skip.
Proof. intros s. exists []. by rewrite set_trace_nil. Qed.

Lemma only_emits_emit (e : event) : quiet e → only_emits (emit e).
Proof. intros He s. exists [e]. split; [done|by apply Forall_singleton]. Qed.

Lemma only_emits_seq (a b : action) :
  only_emits a → only_emits b → only_emits (a >>> b).
Proof.
  intros Ha Hb s. destruct (Ha s) as (evs1 & H1 & Hq1).
  destruct (Hb (set_trace (trace s ++ evs1) s)) as (evs2 & H2 & Hq2).
  exists (evs1 ++ evs2). split; [|by apply Forall_app].
  eapply and_then_intro; [exact H1|].
  rewrite H2. simpl. by rewrite app_assoc.
Qed.

Lemma only_emits_keyPositionDebug (pos : KeyPosition) :
  only_emits (Matrix_keyPositionDebug pos).
Proof. destruct pos; by apply only_emits_emit. Qed.

Lemma debug_key_trace (key : Z) (st : KeyState) (s : Matrix_state) :
  ∃ evs, debug_key key st s = Some (set_trace (trace s ++ evs) s)
         ∧ Forall quiet evs
         ∧ (curState st = prevState st → evs = []).
Proof.
  unfold debug_key.
  destruct (decide (curState st = prevState st)) as [Heq|Hne].
  - exists []. rewrite set_trace_nil. split_and!; [|done..].
    rewrite (bool_decide_eq_true_2 _ Heq), andb_false_r. done.
  - assert (Hd : only_emits
      (if (matrixDebugMode s =? 1) && bool_decide (curState st = KeyState_Press)
       then emit (printHex key) >>> emit (print " ")
       else if matrixDebugMode s =? 2
       then emit (printHex key) >>> Matrix_keyPositionDebug (curState st)
            >>> emit (print " ")
       else skip)).
    { destruct ((matrixDebugMode s =? 1)
                && bool_decide (curState st = KeyState_Press));
        [|destruct (matrixDebugMode s =? 2)];
        repeat first [ apply only_emits_skip | apply only_emits_emit; exact I
                     | apply only_emits_keyPositionDebug | apply only_emits_seq ]. }
    destruct (negb (matrixDebugMode s =? 0)
              && negb (bool_decide (curState st = prevState st))).
    + destruct (Hd s) as (evs & Hevs & Hq). exists evs. by split_and!.
    + exists []. rewrite set_trace_nil. by split_and!.
Qed.

(** The scan of one key whose entry is still [KeyState_Invalid] when the
    time since the last change has reached the threshold: the switch,
    the write-back, the call of [Macro_keyState], the debug output. *)
Lemma scan_key_resolving (T scanNum : Z) (d : bool) (key : Z)
    (s s1 : Matrix_state) (st0 st' : KeyState) :
  Matrix_scanArray s !! Z.to_nat key = Some st0 →
  curState (debounce T d (reset_state scanNum st0)) = KeyState_Invalid →
  Matrix_repeatThreshold s
  ≤ wrap32 (Matrix_divCounter s
            - lastChangeCounter (debounce T d (reset_state scanNum st0))) →
  resolve
    (bucket_of (wrap32 (Matrix_divCounter s
                        - lastChangeCounter (debounce T d (reset_state scanNum st0)))))
    (debounce T d (reset_state scanNum st0)) s = Some (st', s1) →
  Matrix_scanArray s1 = Matrix_scanArray s →
  ∃ evs,
    scan_key T scanNum d key s
    = Some (set_trace (trace s1 ++ Macro_keyState key (curState st') :: evs)
              (set_scanArray (<[Z.to_nat key := st']> (Matrix_scanArray s)) s1))
    ∧ Forall quiet evs
    ∧ (curState st' = prevState st' → evs = []).
Proof.
  intros Hst0 Hinvalid Hge Hres Harr.
  unfold scan_key. rewrite Hst0. cbn [mbind option_bind].
  rewrite (bool_decide_eq_true_2 _ Hinvalid).
  destruct (Z.ltb_spec
              (wrap32 (Matrix_divCounter s
                       - lastChangeCounter (debounce T d (reset_state scanNum st0))))
              (Matrix_repeatThreshold s)) as [Hlt|_]; [lia|].
  rewrite Hres. cbn [mbind option_bind].
  destruct (debug_key_trace key st'
              (set_trace (trace s1 ++ [Macro_keyState key (curState st')])
                 (set_scanArray (<[Z.to_nat key := st']> (Matrix_scanArray s)) s1)))
    as (evs & Hdbg & Hq & Hevs).
  exists evs. split_and!; [|done..].
  eapply and_then_intro.
  { apply put_key_Some. rewrite Harr. by eapply lookup_lt_Some. }
  eapply and_then_intro; [reflexivity|].
  rewrite Harr. simpl. simpl in Hdbg. rewrite Hdbg. simpl.
  by rewrite <- app_assoc.
Qed.

Lemma even_wrap32_succ (x : Z) : Z.even (wrap32 (x + 1)) = negb (Z.even x).
Proof.
  unfold wrap32. rewrite !Zeven_mod.
  rewrite Z.mod_mod_divide by (by exists (2 ^ 31)).
  rewrite <- !Zeven_mod. replace (x + 1) with (Z.succ x) by lia.
  by rewrite Z.even_succ, Z.negb_even.
Qed.

Lemma land_1_even (x : Z) : (Z.land x 1 =? 0) = Z.even x.
Proof.
  change 1 with (Z.ones 1). rewrite Z.land_ones by lia.
  change (2 ^ 1) with 2. by rewrite Zeven_mod.
Qed.

Lemma run_reachable (calls : list (Z * (Z → Z → bool))) (s0 s : Matrix_state) :
  reachable s0 → run calls s0 = Some s → reachable s.
Proof.
  unfold run. revert s0. induction calls as [|c calls IH]; intros s0 H0 Hrun.
  - simpl in Hrun. unfold skip in Hrun. by simplify_eq.
  - cbn [for_each] in Hrun. apply and_then_Some in Hrun as (s1 & H1 & Hrest).
    eapply IH; [|exact Hrest]. by eapply reach_scan.
Qed.

(** What the switch leaves alone, whenever it returns. *)
Lemma resolve_inv (bucket : Z) (st st' : KeyState) (s s1 : Matrix_state) :
  resolve bucket st s = Some (st', s1) →
  Matrix_scanArray s1 = Matrix_scanArray s
  ∧ (prevState st ≠ KeyState_Invalid → resolved st')
  ∧ ∃ evs, trace s1 = trace s ++ evs ∧ Forall quiet evs.
Proof.
  unfold resolve. intros Hres.
  destruct (prevState st) eqn:Hprev;
    destruct (inactiveCount st <? activeCount st);
    try (destruct (incr32 (Matrix_timesRelease s) bucket); [|done]);
    try (destruct (incr32 (Matrix_timesPress s) bucket); [|done]);
    simpl in Hres; simplify_eq; simpl; (split_and!; [done|done|]);
    first [ by exists []; rewrite app_nil_r
          | eexists [_]; by split; [|apply Forall_singleton] ].
Qed.

(** A call of [Macro_keyState] made by the scan of a key is for that key,
    is made when the entry was still [KeyState_Invalid] after the reset,
    and passes the state the entry holds afterwards. *)
Lemma scan_key_notifies (T scanNum : Z) (d : bool) (key : Z)
    (s sk : Matrix_state) (st0 : KeyState) (k : Z) (state : KeyPosition) :
  Matrix_scanArray s !! Z.to_nat key = Some st0 →
  scan_key T scanNum d key s = Some sk →
  Macro_keyState k state ∈ drop (length (trace s)) (trace sk) →
  k = key
  ∧ curState (debounce T d (reset_state scanNum st0)) = KeyState_Invalid
  ∧ (prevState (debounce T d (reset_state scanNum st0)) ≠ KeyState_Invalid →
     state ≠ KeyState_Invalid)
  ∧ ∃ st', Matrix_scanArray sk !! Z.to_nat key = Some st' ∧ curState st' = state.
Proof.
  intros Hst0 Hsk Hin.
  assert (Hk : (Z.to_nat key < length (Matrix_scanArray s))%nat)
    by by eapply lookup_lt_Some.
  set (st := debounce T d (reset_state scanNum st0)) in *.
  destruct (decide (curState st = KeyState_Invalid)) as [Hinvalid|Hvalid].
  - destruct (Z.lt_ge_cases
                (wrap32 (Matrix_divCounter s - lastChangeCounter st))
                (Matrix_repeatThreshold s)) as [Hlt|Hge].
    + exfalso. unfold scan_key in Hsk. rewrite Hst0 in Hsk.
      cbn [mbind option_bind] in Hsk. fold st in Hsk.
      rewrite (bool_decide_eq_true_2 _ Hinvalid) in Hsk.
      destruct (Z.ltb_spec (wrap32 (Matrix_divCounter s - lastChangeCounter st))
                  (Matrix_repeatThreshold s)); [|lia].
      rewrite put_key_Some in Hsk by done. simplify_eq.
      simpl in Hin. rewrite drop_all in Hin. by apply elem_of_nil in Hin.
    + destruct (resolve
                  (bucket_of (wrap32 (Matrix_divCounter s - lastChangeCounter st)))
                  st s) as [[st' s1]|] eqn:Hres.
      * destruct (resolve_inv _ _ _ _ _ Hres) as (Harr & Hr & evs1 & Htr1 & Hq1).
        destruct (scan_key_resolving T scanNum d key s s1 st0 st'
                    Hst0 Hinvalid Hge Hres Harr) as (evs & Hscan & Hq & _).
        rewrite Hscan in Hsk. simplify_eq. simpl in Hin.
        rewrite Htr1, <- app_assoc, drop_app_length in Hin.
        apply elem_of_app in Hin as [Hin|Hin].
        { rewrite Forall_forall in Hq1. by destruct (Hq1 _ Hin). }
        apply elem_of_cons in Hin as [Heq|Hin].
        2: { rewrite Forall_forall in Hq. by destruct (Hq _ Hin). }
        simplify_eq. split_and!; [done|done| |].
        -- intros Hp. by apply Hr.
        -- exists st'. split; [|done]. simpl. by apply list_lookup_insert_eq.
      * exfalso. unfold scan_key in Hsk. rewrite Hst0 in Hsk.
        cbn [mbind option_bind] in Hsk. fold st in Hsk.
        rewrite (bool_decide_eq_true_2 _ Hinvalid) in Hsk.
        destruct (Z.ltb_spec (wrap32 (Matrix_divCounter s - lastChangeCounter st))
                    (Matrix_repeatThreshold s)); [lia|].
        by rewrite Hres in Hsk.
  - exfalso. unfold scan_key in Hsk. rewrite Hst0 in Hsk.
    cbn [mbind option_bind] in Hsk. fold st in Hsk.
    rewrite (bool_decide_eq_false_2 _ Hvalid) in Hsk.
    rewrite put_key_Some in Hsk by done. simplify_eq.
    simpl in Hin. rewrite drop_all in Hin. by apply elem_of_nil in Hin.
Qed.

Lemma resolving_prev_valid (T scanNum : Z) (d : bool) (st0 : KeyState) :
  resolved st0 →
  curState (debounce T d (reset_state scanNum st0)) = KeyState_Invalid →
  scanNum = 0
  ∧ prevState (debounce T d (reset_state scanNum st0)) ≠ KeyState_Invalid.
Proof.
  intros Hres Hc.
  destruct (debounce_states T d (reset_state scanNum st0)) as (Hprev & Hcur & _).
  rewrite Hcur in Hc. rewrite Hprev.
  destruct (reset_state_resolved scanNum st0 Hres) as [(?&?&?)|[? E]]; [done|].
  rewrite E in Hc. done.
Qed.

(** ** The scan of one key, case by case *)

Lemma resolve_cases (bucket : Z) (st st' : KeyState) (s s1 : Matrix_state) :
  resolve bucket st s = Some (st', s1) →
  ((prevState st = KeyState_Press ∨ prevState st = KeyState_Hold)
   ∧ inactiveCount st < activeCount st
   ∧ st' = set_curState KeyState_Hold st ∧ s1 = s)
  ∨ ((prevState st = KeyState_Press ∨ prevState st = KeyState_Hold)
     ∧ activeCount st ≤ inactiveCount st
     ∧ st' = set_lastChangeCounter (Matrix_divCounter s)
               (set_curState KeyState_Release st)
     ∧ ∃ h, incr32 (Matrix_timesRelease s) bucket = Some h
            ∧ s1 = set_timesRelease h s)
  ∨ ((prevState st = KeyState_Release ∨ prevState st = KeyState_Off)
     ∧ inactiveCount st < activeCount st
     ∧ st' = set_lastChangeCounter (Matrix_divCounter s)
               (set_curState KeyState_Press st)
     ∧ ∃ h, incr32 (Matrix_timesPress s) bucket = Some h
            ∧ s1 = set_timesPress h s)
  ∨ ((prevState st = KeyState_Release ∨ prevState st = KeyState_Off)
     ∧ activeCount st ≤ inactiveCount st
     ∧ st' = set_curState KeyState_Off st ∧ s1 = s)
  ∨ (prevState st = KeyState_Invalid
     ∧ st' = st
     ∧ s1 = set_trace (trace s ++ [erro_print "Matrix scan bug!! Report me!"]) s).
Proof.
  unfold resolve. intros Hres.
  destruct (prevState st) eqn:Hprev;
    destruct (Z.ltb_spec (inactiveCount st) (activeCount st));
    try (destruct (incr32 (Matrix_timesRelease s) bucket) eqn:Hr; [|done]);
    try (destruct (incr32 (Matrix_timesPress s) bucket) eqn:Hp; [|done]);
    simpl in Hres; simplify_eq; naive_solver.
Qed.

Lemma scan_key_cases (T scanNum : Z) (d : bool) (key : Z)
    (s s' : Matrix_state) :
  scan_key T scanNum d key s = Some s' →
  ∃ st0, Matrix_scanArray s !! Z.to_nat key = Some st0
    ∧ ((curState (debounce T d (reset_state scanNum st0)) ≠ KeyState_Invalid
        ∧ s' = set_scanArray
                 (<[Z.to_nat key := debounce T d (reset_state scanNum st0)]>
                    (Matrix_scanArray s)) s)
       ∨ (curState (debounce T d (reset_state scanNum st0)) = KeyState_Invalid
          ∧ wrap32 (Matrix_divCounter s
                    - lastChangeCounter (debounce T d (reset_state scanNum st0)))
            < Matrix_repeatThreshold s
          ∧ s' = set_scanArray
                   (<[Z.to_nat key :=
                        set_curState
                          (prevState (debounce T d (reset_state scanNum st0)))
                          (debounce T d (reset_state scanNum st0))]>
                      (Matrix_scanArray s)) s)
       ∨ (curState (debounce T d (reset_state scanNum st0)) = KeyState_Invalid
          ∧ Matrix_repeatThreshold s
            ≤ wrap32 (Matrix_divCounter s
                      - lastChangeCounter (debounce T d (reset_state scanNum st0)))
          ∧ ∃ st' s1 evs,
              resolve
                (bucket_of
                   (wrap32 (Matrix_divCounter s
                            - lastChangeCounter
                                (debounce T d (reset_state scanNum st0)))))
                (debounce T d (reset_state scanNum st0)) s = Some (st', s1)
              ∧ Forall quiet evs
              ∧ s' = set_trace
                       (trace s1 ++ Macro_keyState key (curState st') :: evs)
                       (set_scanArray
                          (<[Z.to_nat key := st']> (Matrix_scanArray s)) s1))).
Proof.
  intros Hsk.
  destruct (Matrix_scanArray s !! Z.to_nat key) as [st0|] eqn:Hst0.
  2: { unfold scan_key in Hsk. by rewrite Hst0 in Hsk. }
  exists st0. split; [done|].
  assert (Hk : (Z.to_nat key < length (Matrix_scanArray s))%nat)
    by by eapply lookup_lt_Some.
  set (st := debounce T d (reset_state scanNum st0)) in *.
  destruct (decide (curState st = KeyState_Invalid)) as [Hinvalid|Hvalid].
  - right.
    destruct (Z.lt_ge_cases
                (wrap32 (Matrix_divCounter s - lastChangeCounter st))
                (Matrix_repeatThreshold s)) as [Hlt|Hge].
    + left. split_and!; [done..|].
      unfold scan_key in Hsk. rewrite Hst0 in Hsk.
      cbn [mbind option_bind] in Hsk. fold st in Hsk.
      rewrite (bool_decide_eq_true_2 _ Hinvalid) in Hsk.
      destruct (Z.ltb_spec (wrap32 (Matrix_divCounter s - lastChangeCounter st))
                  (Matrix_repeatThreshold s)); [|lia].
      rewrite put_key_Some in Hsk by done. congruence.
    + right. split_and!; [done..|].
      destruct (resolve
                  (bucket_of (wrap32 (Matrix_divCounter s - lastChangeCounter st)))
                  st s) as [[st' s1]|] eqn:Hres.
      * destruct (resolve_inv _ _ _ _ _ Hres) as (Harr & _).
        destruct (scan_key_resolving T scanNum d key s s1 st0 st'
                    Hst0 Hinvalid Hge Hres Harr) as (evs & Hscan & Hq & _).
        exists st', s1, evs. split_and!; [done..|]. congruence.
      * exfalso. unfold scan_key in Hsk. rewrite Hst0 in Hsk.
        cbn [mbind option_bind] in Hsk. fold st in Hsk.
        rewrite (bool_decide_eq_true_2 _ Hinvalid) in Hsk.
        destruct (Z.ltb_spec (wrap32 (Matrix_divCounter s - lastChangeCounter st))
                    (Matrix_repeatThreshold s)); [lia|].
        by rewrite Hres in Hsk.
  - left. split; [done|].
    unfold scan_key in Hsk. rewrite Hst0 in Hsk.
    cbn [mbind option_bind] in Hsk. fold st in Hsk.
    rewrite (bool_decide_eq_false_2 _ Hvalid) in Hsk.
    rewrite put_key_Some in Hsk by done. congruence.
Qed.

(** ** Loops, when they return *)

Lemma for_each_rel_cond {A : Type} (I : Matrix_state → Prop)
    (R : nat → Matrix_state → Matrix_state → Prop)
    (w : A → nat) (body : A → action) (l : list A) :
  (∀ s, R 0%nat s s) →
  (∀ n m s1 s2 s3, R n s1 s2 → R m s2 s3 → R (n + m)%nat s1 s3) →
  (∀ x s s', x ∈ l → I s → body x s = Some s' → I s' ∧ R (w x) s s') →
  ∀ s s', I s → for_each l body s = Some s' →
    I s' ∧ R (sum_list (w <$> l)) s s'.
Proof.
  intros Hrefl Htrans. induction l as [|x l IH]; intros Hbody s s' HI Hrun.
  - simpl in Hrun. unfold skip in Hrun. simplify_eq. by split.
  - cbn [for_each] in Hrun. apply and_then_Some in Hrun as (s1 & H1 & Hrest).
    destruct (Hbody x s s1) as [HI1 HR1]; [left|done|done|].
    destruct (IH (λ y t t' Hy, Hbody y t t' (list_elem_of_further _ _ _ Hy))
                s1 s' HI1 Hrest) as [HI' HR'].
    split; [done|]. rewrite fmap_cons. cbn [sum_list sum_list_with].
    by eapply Htrans.
Qed.

Lemma for_uint8_rel_cond (I : Matrix_state → Prop)
    (R : nat → Matrix_state → Matrix_state → Prop)
    (w : Z → nat) (body : Z → action) (bound : Z) :
  (∀ s, R 0%nat s s) →
  (∀ n m s1 s2 s3, R n s1 s2 → R m s2 s3 → R (n + m)%nat s1 s3) →
  (∀ x s s', 0 ≤ x < bound → I s → body x s = Some s' → I s' ∧ R (w x) s s') →
  ∀ s s', I s → for_uint8 bound body s = Some s' →
    bound ≤ 255 ∧ I s' ∧ R (sum_list (w <$> seqZ 0 bound)) s s'.
Proof.
  intros Hrefl Htrans Hbody s s' HI Hrun. unfold for_uint8 in Hrun.
  case_bool_decide as Hb; [|done]. split; [done|].
  apply (for_each_rel_cond I R w body (seqZ 0 bound)); try done.
  intros x t t' Hx. apply Hbody. apply elem_of_seqZ in Hx. lia.
Qed.

Lemma Matrix_scan_steps (scanNum : Z) (sense_in : Z → Z → bool)
    (s s' : Matrix_state) :
  Matrix_scan scanNum sense_in s = Some s' →
  (throttled (set_divCounter (wrap32 (Matrix_divCounter s + 1)) s) = true
   ∧ s' = set_divCounter (wrap32 (Matrix_divCounter s + 1)) s)
  ∨ (throttled (set_divCounter (wrap32 (Matrix_divCounter s + 1)) s) = false
     ∧ ∃ s2 s3,
         scan_stats scanNum (set_divCounter (wrap32 (Matrix_divCounter s + 1)) s)
         = Some s2
         ∧ for_uint8 Matrix_colsNum (scan_strobe scanNum sense_in) s2 = Some s3
         ∧ debug_state_table scanNum s3 = Some s').
Proof.
  unfold Matrix_scan, and_then at 1, modify at 1. cbn [mbind option_bind].
  destruct (throttled (set_divCounter (wrap32 (Matrix_divCounter s + 1)) s)).
  - intros Hs. left. split; [done|]. congruence.
  - intros Hs. right. split; [done|].
    apply and_then_Some in Hs as (s2 & H2 & Hs).
    apply and_then_Some in Hs as (s3 & H3 & Hs). by exists s2, s3.
Qed.

(** ** Events of one key *)

Lemma key_events_app (key : Z) (evs1 evs2 : list event) :
  key_events key (evs1 ++ evs2) = key_events key evs1 ++ key_events key evs2.
Proof.
  induction evs1 as [|e evs1 IH]; [done|].
  destruct e; simpl; try done. case_bool_decide; simpl; by rewrite IH.
Qed.

Lemma key_events_quiet (key : Z) (evs : list event) :
  Forall quiet evs → key_events key evs = [].
Proof.
  induction 1 as [|e evs He _ IH]; [done|]. by destruct e.
Qed.

Lemma key_events_length (key : Z) (evs : list event) :
  length (key_events key evs) = keyState_calls key evs.
Proof.
  induction evs as [|e evs IH]; [done|].
  destruct e; simpl; try done. case_bool_decide; simpl; by rewrite IH.
Qed.

(** ** The table dump *)

Lemma for_each_emits {A : Type} (l : list A) (body : A → action)
    (a0 : list KeyState) :
  (∀ x s, x ∈ l → Matrix_scanArray s = a0 →
     ∃ evs, body x s = Some (set_trace (trace s ++ evs) s) ∧ Forall quiet evs) →
  ∀ s, Matrix_scanArray s = a0 →
    ∃ evs, for_each l body s = Some (set_trace (trace s ++ evs) s)
           ∧ Forall quiet evs.
Proof.
  induction l as [|x l IH]; intros Hbody s Hs.
  - exists []. by rewrite set_trace_nil.
  - destruct (Hbody x s) as (evs1 & H1 & Hq1); [left|done|].
    destruct (IH (λ y t Hy, Hbody y t (list_elem_of_further _ _ _ Hy))
                (set_trace (trace s ++ evs1) s)) as (evs2 & H2 & Hq2); [done|].
    exists (evs1 ++ evs2). split; [|by apply Forall_app].
    cbn [for_each]. eapply and_then_intro; [exact H1|].
    rewrite H2. simpl. by rewrite app_assoc.
Qed.

Lemma only_emits_when (b : bool) (a : action) :
  only_emits a → only_emits (when b a).
Proof. destruct b; [done|]. intros _. apply only_emits_skip. Qed.

Local Ltac emits :=
  repeat first [ apply only_emits_skip | apply only_emits_emit; exact I
               | apply only_emits_keyPositionDebug | apply only_emits_seq
               | apply only_emits_when ].

Lemma emits_with_only (a0 : list KeyState) (a : action) :
  only_emits a → emits_with a0 a.
Proof. intros Ha s _. apply Ha. Qed.

Lemma emits_with_seq (a0 : list KeyState) (a b : action) :
  emits_with a0 a → emits_with a0 b → emits_with a0 (a >>> b).
Proof.
  intros Ha Hb s Hs. destruct (Ha s Hs) as (evs1 & H1 & Hq1).
  destruct (Hb (set_trace (trace s ++ evs1) s)) as (evs2 & H2 & Hq2); [done|].
  exists (evs1 ++ evs2). split; [|by apply Forall_app].
  eapply and_then_intro; [exact H1|].
  rewrite H2. simpl. by rewrite app_assoc.
Qed.

Lemma emits_with_nonempty (a0 : list KeyState) (e : event) (b : action) :
  quiet e → emits_with a0 b →
  ∀ s, Matrix_scanArray s = a0 →
    ∃ evs, (emit e >>> b) s = Some (set_trace (trace s ++ evs) s)
           ∧ Forall quiet evs ∧ evs ≠ [].
Proof.
  intros He Hb s Hs.
  destruct (Hb (set_trace (trace s ++ [e]) s)) as (evs & H & Hq); [done|].
  exists (e :: evs). split_and!; [|by apply Forall_cons|done].
  eapply and_then_intro; [reflexivity|]. rewrite H. simpl.
  by rewrite <- app_assoc.
Qed.

(** The dump returns on well-formed globals; it changes the dump counter
    and appends prints, nothing else. *)
Lemma debug_state_table_effect (scanNum : Z) (s : Matrix_state) :
  Matrix_maxKeys ≤ 255 →
  length (Matrix_scanArray s) = Z.to_nat Matrix_maxKeys →
  ∃ evs,
    Forall quiet evs
    ∧ (0 < matrixDebugStateCounter s → evs ≠ [])
    ∧ (matrixDebugStateCounter s ≤ 0 → evs = [])
    ∧ debug_state_table scanNum s
      = Some (set_trace (trace s ++ evs)
                (if 0 <? matrixDebugStateCounter s
                 then set_debugStateCounter (matrixDebugStateCounter s - 1) s
                 else s)).
Proof.
  intros Hkeys Hlen. unfold debug_state_table.
  destruct (Z.ltb_spec 0 (matrixDebugStateCounter s)) as [Hpos|Hnpos].
  2: { exists []. rewrite set_trace_nil. split_and!; [done|lia|done|done]. }
  set (s1 := set_debugStateCounter (matrixDebugStateCounter s - 1) s).
  match goal with
  | |- ∃ evs, _ ∧ _ ∧ _ ∧ (modify ?f >>> emit ?e >>> ?rest) s = _ =>
      assert (Hrest : emits_with (Matrix_scanArray s) rest)
  end.
  { repeat (apply emits_with_seq; [apply emits_with_only; solve [emits]|]).
    apply emits_with_seq; [|apply emits_with_only; solve [emits]].
    intros t Ht. unfold for_uint8. rewrite bool_decide_eq_true_2 by done.
    apply (for_each_emits _ _ (Matrix_scanArray s)); [|done].
    intros key u Hkey Hu. apply elem_of_seqZ in Hkey.
    destruct (lookup_lt_is_Some_2 (Matrix_scanArray u) (Z.to_nat key))
      as [st Hst]; [rewrite Hu; lia|].
    rewrite Hst. cbn [mbind option_bind].
    match goal with
    | |- ∃ evs, ?a u = _ ∧ _ => assert (Hd : only_emits a) by emits
    end.
    apply Hd. }
  destruct (emits_with_nonempty _ (print NL) _ I Hrest s1 eq_refl)
    as (evs & Hevs & Hq & Hne).
  exists evs. split_and!; [done|done|lia|].
  eapply and_then_intro; [reflexivity|]. exact Hevs.
Qed.

(** ** [scan_key] and [scan_entry] agree *)

Lemma scan_entry_valid (T scanNum : Z) (d : bool) (tick threshold : Z)
    (st0 : KeyState) :
  curState (debounce T d (reset_state scanNum st0)) ≠ KeyState_Invalid →
  scan_entry T scanNum d tick threshold st0 = debounce T d (reset_state scanNum st0)
  ∧ scan_notify T scanNum d tick threshold st0 = [].
Proof.
  intros Hvalid. unfold scan_notify, scan_entry.
  by rewrite (bool_decide_eq_false_2 _ Hvalid).
Qed.

Lemma scan_entry_suppressed (T scanNum : Z) (d : bool) (tick threshold : Z)
    (st0 : KeyState) :
  curState (debounce T d (reset_state scanNum st0)) = KeyState_Invalid →
  wrap32 (tick - lastChangeCounter (debounce T d (reset_state scanNum st0)))
  < threshold →
  scan_entry T scanNum d tick threshold st0
  = set_curState (prevState (debounce T d (reset_state scanNum st0)))
      (debounce T d (reset_state scanNum st0))
  ∧ scan_notify T scanNum d tick threshold st0 = [].
Proof.
  intros Hinvalid Hlt. unfold scan_notify, scan_entry.
  rewrite (bool_decide_eq_true_2 _ Hinvalid).
  destruct (Z.ltb_spec
              (wrap32 (tick - lastChangeCounter
                                (debounce T d (reset_state scanNum st0))))
              threshold); [done|lia].
Qed.

Lemma scan_entry_resolved (T scanNum : Z) (d : bool) (bucket : Z)
    (s s1 : Matrix_state) (st0 st' : KeyState) :
  curState (debounce T d (reset_state scanNum st0)) = KeyState_Invalid →
  Matrix_repeatThreshold s
  ≤ wrap32 (Matrix_divCounter s
            - lastChangeCounter (debounce T d (reset_state scanNum st0))) →
  resolve bucket (debounce T d (reset_state scanNum st0)) s = Some (st', s1) →
  scan_entry T scanNum d (Matrix_divCounter s) (Matrix_repeatThreshold s) st0 = st'
  ∧ scan_notify T scanNum d (Matrix_divCounter s) (Matrix_repeatThreshold s) st0
    = [curState st'].
Proof.
  intros Hinvalid Hge Hres.
  assert (He : scan_entry T scanNum d (Matrix_divCounter s)
                 (Matrix_repeatThreshold s) st0 = st').
  { unfold scan_entry. rewrite (bool_decide_eq_true_2 _ Hinvalid).
    destruct (Z.ltb_spec
                (wrap32 (Matrix_divCounter s
                         - lastChangeCounter
                             (debounce T d (reset_state scanNum st0))))
                (Matrix_repeatThreshold s)); [lia|].
    destruct (resolve_cases _ _ _ _ _ Hres)
      as [(Hp & Hc & -> & _)|[(Hp & Hc & -> & _)|[(Hp & Hc & -> & _)
         |[(Hp & Hc & -> & _)|(Hp & -> & _)]]]];
      try (destruct Hp as [Hp|Hp]); rewrite Hp;
      try (destruct (Z.ltb_spec
                       (inactiveCount (debounce T d (reset_state scanNum st0)))
                       (activeCount (debounce T d (reset_state scanNum st0))));
           [|try lia]); try lia; done. }
  split; [done|]. unfold scan_notify. rewrite He.
  rewrite (bool_decide_eq_true_2 _ Hinvalid).
  destruct (Z.ltb_spec
              (wrap32 (Matrix_divCounter s
                       - lastChangeCounter
                           (debounce T d (reset_state scanNum st0))))
              (Matrix_repeatThreshold s)); [lia|done].
Qed.

Lemma resolve_globals (bucket : Z) (st st' : KeyState) (s s1 : Matrix_state) :
  resolve bucket st s = Some (st', s1) →
  same_globals s s1
  ∧ Matrix_scanArray s1 = Matrix_scanArray s
  ∧ ∃ evs, trace s1 = trace s ++ evs ∧ Forall quiet evs.
Proof.
  intros Hres.
  destruct (resolve_cases _ _ _ _ _ Hres)
    as [(_ & _ & _ & ->)|[(_ & _ & _ & h & _ & ->)|[(_ & _ & _ & h & _ & ->)
       |[(_ & _ & _ & ->)|(_ & _ & ->)]]]];
    (split_and!; [done|done|]);
    first [ by exists []; rewrite app_nil_r
          | eexists [_]; by split; [|apply Forall_singleton] ].
Qed.

(** ** The entry relation *)

Lemma entry_rel_refl (scanNum : Z) (d : bool) (key : Z) (s : Matrix_state) :
  entry_rel scanNum d key 0 s s.
Proof. by repeat split. Qed.

Lemma entry_rel_trans (scanNum : Z) (d : bool) (key : Z) (n m : nat)
    (s1 s2 s3 : Matrix_state) :
  entry_rel scanNum d key n s1 s2 → entry_rel scanNum d key m s2 s3 →
  entry_rel scanNum d key (n + m) s1 s3.
Proof.
  intros [G1 E1] [G2 E2]. split.
  { destruct G1 as (?&?&?&?&?&?&?), G2 as (?&?&?&?&?&?&?).
    unfold same_globals. split_and!; congruence. }
  destruct G1 as (Hd & Ht & _).
  destruct n as [|[|n]], m as [|[|m]]; simpl; try done.
  - destruct E1 as [A1 T1], E2 as [A2 T2]. split; congruence.
  - destruct E1 as [A1 T1], E2 as [A2 T2]. rewrite Hd, Ht in A2, T2.
    split; [congruence|]. intros st Hst. rewrite <- T1. apply T2. congruence.
  - destruct E1 as [A1 T1], E2 as [A2 T2].
    split; [congruence|]. intros st Hst. rewrite T2. by apply T1.
Qed.

Lemma entry_rel_quiet (scanNum : Z) (d : bool) (key : Z) (evs : list event)
    (s : Matrix_state) :
  Forall quiet evs →
  entry_rel scanNum d key 0 s (set_trace (trace s ++ evs) s).
Proof.
  intros Hq. split; [done|]. simpl. split; [done|].
  by rewrite key_events_app, (key_events_quiet _ _ Hq), app_nil_r.
Qed.

(** The scan of the key [key] is one step of [scan_entry] for the entry
    at [key] and leaves the other entries and their reports alone. *)
Lemma scan_key_entry_rel (scanNum : Z) (d : bool) (key : Z)
    (s s' : Matrix_state) :
  0 ≤ key →
  scan_key DebounceDivThreshold_define scanNum d key s = Some s' →
  entry_rel scanNum d key 1 s s'
  ∧ ∀ (d' : bool) (k : Z), 0 ≤ k → k ≠ key → entry_rel scanNum d' k 0 s s'.
Proof.
  intros Hkey Hsk.
  destruct (scan_key_cases _ _ _ _ _ _ Hsk) as (st0 & Hst0 & Hcases).
  assert (Hk : (Z.to_nat key < length (Matrix_scanArray s))%nat)
    by by eapply lookup_lt_Some.
  assert (Hother : ∀ k st, 0 ≤ k → k ≠ key →
            <[Z.to_nat key := st]> (Matrix_scanArray s) !! Z.to_nat k
            = Matrix_scanArray s !! Z.to_nat k).
  { intros k st Hk0 Hne. apply list_lookup_insert_ne. lia. }
  destruct Hcases as [(Hvalid & ->)|[(Hinvalid & Hlt & ->)
                     |(Hinvalid & Hge & st' & s1 & evs & Hres & Hq & ->)]].
  - destruct (scan_entry_valid DebounceDivThreshold_define scanNum d
                (Matrix_divCounter s) (Matrix_repeatThreshold s) st0 Hvalid)
      as [He Hn].
    split.
    + split; [done|]. simpl. rewrite Hst0. simpl. rewrite He.
      split; [by apply list_lookup_insert_eq|].
      intros st Hst. simplify_eq. by rewrite Hn, app_nil_r.
    + intros d' k Hk0 Hne. split; [done|]. simpl. by rewrite Hother.
  - destruct (scan_entry_suppressed DebounceDivThreshold_define scanNum d
                (Matrix_divCounter s) (Matrix_repeatThreshold s) st0 Hinvalid Hlt)
      as [He Hn].
    split.
    + split; [done|]. simpl. rewrite Hst0. simpl. rewrite He.
      split; [by apply list_lookup_insert_eq|].
      intros st Hst. simplify_eq. by rewrite Hn, app_nil_r.
    + intros d' k Hk0 Hne. split; [done|]. simpl. by rewrite Hother.
  - destruct (scan_entry_resolved DebounceDivThreshold_define scanNum d _ s s1
                st0 st' Hinvalid Hge Hres) as [He Hn].
    destruct (resolve_globals _ _ _ _ _ Hres) as (HG & Harr & evs1 & Htr & Hq1).
    split.
    + split; [done|]. simpl. rewrite Hst0. simpl. rewrite He.
      split; [by apply list_lookup_insert_eq|].
      intros st Hst. simplify_eq. rewrite Hn, Htr.
      rewrite !key_events_app, (key_events_quiet _ _ Hq1). simpl.
      rewrite bool_decide_eq_true_2 by done.
      by rewrite (key_events_quiet _ _ Hq), app_nil_r.
    + intros d' k Hk0 Hne. split; [done|]. simpl. rewrite Hother by done.
      split; [done|]. rewrite Htr.
      rewrite !key_events_app, (key_events_quiet _ _ Hq1). simpl.
      rewrite bool_decide_eq_false_2 by done.
      by rewrite (key_events_quiet _ _ Hq), !app_nil_r.
Qed.

(** ** Every entry is scanned once *)

Lemma sum_list_elem_le {A : Type} (w : A → nat) (x : A) (l : list A) :
  x ∈ l → (w x ≤ sum_list (w <$> l))%nat.
Proof.
  induction 1 as [x l|x y l _ IH]; rewrite fmap_cons.
  - change (sum_list (w x :: (w <$> l))) with (w x + sum_list (w <$> l))%nat.
    lia.
  - change (sum_list (w y :: (w <$> l))) with (w y + sum_list (w <$> l))%nat.
    lia.
Qed.

Lemma hits_strobe_le (key strobe : Z) :
  Matrix_maxKeys ≤ 256 → 0 ≤ strobe < Matrix_colsNum →
  (strobe ≠ key `mod` Matrix_colsNum → hits_strobe key strobe = 0%nat)
  ∧ (hits_strobe key strobe ≤ 1)%nat.
Proof.
  intros Hmax Hs. unfold hits_strobe. split.
  - intros Hne. apply sum_list_all_zero. intros sense Hsense.
    apply elem_of_seqZ in Hsense. unfold hit.
    rewrite bool_decide_eq_false_2; [done|]. intros Hk.
    apply key_of_unique in Hk; [|done|done|lia]. by destruct Hk.
  - apply (sum_list_indicator _ (key `div` Matrix_colsNum)).
    + apply NoDup_seqZ.
    + intros sense Hsense Hne. apply elem_of_seqZ in Hsense. unfold hit.
      rewrite bool_decide_eq_false_2; [done|]. intros Hk.
      apply key_of_unique in Hk; [|done|done|lia]. by destruct Hk.
    + intros _. unfold hit. case_bool_decide; lia.
Qed.

Lemma hits_le_1 (key : Z) : Matrix_maxKeys ≤ 256 → (hits key ≤ 1)%nat.
Proof.
  intros Hmax. unfold hits.
  apply (sum_list_indicator _ (key `mod` Matrix_colsNum)).
  - apply NoDup_seqZ.
  - intros strobe Hstrobe Hne. apply elem_of_seqZ in Hstrobe.
    apply hits_strobe_le; [done|lia|done].
  - intros Hin. apply elem_of_seqZ in Hin.
    apply hits_strobe_le; [done|lia].
Qed.

Lemma hits_key_of (strobe sense : Z) :
  Matrix_maxKeys ≤ 256 →
  0 ≤ strobe < Matrix_colsNum → 0 ≤ sense < Matrix_rowsNum →
  hits (key_of strobe sense) = 1%nat.
Proof.
  intros Hmax Hstrobe Hsense.
  pose proof (hits_le_1 (key_of strobe sense) Hmax) as Hle.
  assert (1 ≤ hits (key_of strobe sense))%nat; [|lia].
  transitivity (hits_strobe (key_of strobe sense) strobe).
  - transitivity (hit (key_of strobe sense) strobe sense).
    + unfold hit. by rewrite bool_decide_eq_true_2.
    + unfold hits_strobe.
      apply (sum_list_elem_le (hit (key_of strobe sense) strobe)).
      apply elem_of_seqZ. lia.
  - unfold hits. apply (sum_list_elem_le (hits_strobe (key_of strobe sense))).
    apply elem_of_seqZ. lia.
Qed.

Lemma key_of_nonneg (strobe sense : Z) : 0 ≤ key_of strobe sense.
Proof. unfold key_of, wrap8. apply Z.mod_pos_bound. lia. Qed.

Lemma emit_Some (e : event) (s s' : Matrix_state) :
  emit e s = Some s' → s' = set_trace (trace s ++ [e]) s.
Proof. unfold emit, modify. congruence. Qed.

Lemma scan_strobe_entry_rel (scanNum : Z) (sense_in : Z → Z → bool)
    (key strobe : Z) (s s' : Matrix_state) :
  Matrix_maxKeys ≤ 256 → 0 ≤ key → 0 ≤ strobe < Matrix_colsNum →
  scan_strobe scanNum sense_in strobe s = Some s' →
  entry_rel scanNum
    (sense_in (key `mod` Matrix_colsNum) (key `div` Matrix_colsNum))
    key (hits_strobe key strobe) s s'.
Proof.
  intros Hmax Hkey Hstrobe Hrun. unfold scan_strobe in Hrun.
  apply and_then_Some in Hrun as (s1 & H1 & Hrun).
  apply and_then_Some in Hrun as (s2 & H2 & H3).
  apply emit_Some in H1, H3. subst s'.
  assert (Hbody : ∀ sense t t', 0 ≤ sense < Matrix_rowsNum → True →
            scan_key DebounceDivThreshold_define scanNum (sense_in strobe sense)
              (key_of strobe sense) t = Some t' →
            True ∧ entry_rel scanNum
                     (sense_in (key `mod` Matrix_colsNum) (key `div` Matrix_colsNum))
                     key (hit key strobe sense) t t').
  { intros sense t t' Hsense _ Ht. split; [done|].
    destruct (scan_key_entry_rel scanNum (sense_in strobe sense)
                (key_of strobe sense) t t' (key_of_nonneg _ _) Ht) as [Rk Ro].
    unfold hit. case_bool_decide as Heq.
    - destruct (key_of_unique key strobe sense Hmax Hstrobe Hsense Heq)
        as [<- <-]. by rewrite <- Heq.
    - apply Ro; [done|]. by intros ->. }
  destruct (for_uint8_rel_cond (λ _, True) _ _ _ _
              (entry_rel_refl _ _ _) (entry_rel_trans _ _ _) Hbody s1 s2 I H2)
    as (_ & _ & R2).
  rewrite <- (Nat.add_0_r (hits_strobe key strobe)).
  rewrite <- (Nat.add_0_l (hits_strobe key strobe + 0)).
  subst s1.
  eapply entry_rel_trans; [|eapply entry_rel_trans; [exact R2|]].
  - apply (entry_rel_quiet _ _ _ [Matrix_pin_strobe strobe Type_StrobeOn]).
    by apply Forall_singleton.
  - apply (entry_rel_quiet _ _ _ [Matrix_pin_strobe strobe Type_StrobeOff]).
    by apply Forall_singleton.
Qed.

Lemma scan_loops_entry_rel (scanNum : Z) (sense_in : Z → Z → bool)
    (key : Z) (s s' : Matrix_state) :
  Matrix_maxKeys ≤ 256 → 0 ≤ key →
  for_uint8 Matrix_colsNum (scan_strobe scanNum sense_in) s = Some s' →
  entry_rel scanNum
    (sense_in (key `mod` Matrix_colsNum) (key `div` Matrix_colsNum))
    key (hits key) s s'.
Proof.
  intros Hmax Hkey Hrun.
  assert (Hbody : ∀ strobe t t', 0 ≤ strobe < Matrix_colsNum → True →
            scan_strobe scanNum sense_in strobe t = Some t' →
            True ∧ entry_rel scanNum
                     (sense_in (key `mod` Matrix_colsNum) (key `div` Matrix_colsNum))
                     key (hits_strobe key strobe) t t').
  { intros strobe t t' Hstrobe _ Ht. split; [done|].
    by apply scan_strobe_entry_rel. }
  by destruct (for_uint8_rel_cond (λ _, True) _ _ _ _
                 (entry_rel_refl _ _ _) (entry_rel_trans _ _ _) Hbody s s' I Hrun)
    as (_ & _ & R).
Qed.

(** ** One invocation, entry by entry *)

Lemma scan_stats_effect (scanNum : Z) (s s2 : Matrix_state) :
  scan_stats scanNum s = Some s2 →
  Matrix_scanArray s2 = Matrix_scanArray s
  ∧ trace s2 = trace s
  ∧ Matrix_divCounter s2 = Matrix_divCounter s
  ∧ Matrix_repeatThreshold s2 = Matrix_repeatThreshold s
  ∧ Matrix_timesRelease s2 = Matrix_timesRelease s
  ∧ Matrix_timesPress s2 = Matrix_timesPress s
  ∧ matrixDebugMode s2 = matrixDebugMode s
  ∧ matrixDebugStateCounter s2 = matrixDebugStateCounter s
  ∧ matrixMaxScans s2 = Z.max (matrixMaxScans s) scanNum
  ∧ matrixCurScans s2
    = (if scanNum =? 0 then 0 else wrap16 (matrixCurScans s + 1))
  ∧ matrixPrevScans s2
    = (if scanNum =? 0 then matrixCurScans s else matrixPrevScans s).
Proof.
  unfold scan_stats, and_then, modify. simpl. intros Hs. simplify_eq.
  destruct (scanNum =? 0), (Z.ltb_spec (matrixMaxScans s) scanNum);
    simpl; split_and!; try done; lia.
Qed.

Lemma wf_scan_stats (scanNum : Z) (s s2 : Matrix_state) :
  scan_stats scanNum s = Some s2 → wf s → wf s2.
Proof.
  intros H2 (Hl & Hr & Hp & Ht).
  destruct (scan_stats_effect _ _ _ H2) as (Ea & _ & _ & Et & Er & Ep & _).
  unfold wf. by rewrite Ea, Et, Er, Ep.
Qed.

Lemma wf_tick (s : Matrix_state) (v : Z) : wf s → wf (set_divCounter v s).
Proof. done. Qed.

Lemma scan_loops_wf (scanNum : Z) (sense_in : Z → Z → bool)
    (s s' : Matrix_state) :
  config_ok → wf s →
  for_uint8 Matrix_colsNum (scan_strobe scanNum sense_in) s = Some s' →
  wf s'.
Proof.
  intros (Hcols & Hrows & _) Hwf Hrun.
  destruct (does_scan_loops 0 scanNum sense_in Hcols Hrows s Hwf)
    as (t & Ht & Rt).
  assert (t = s') by congruence. subst t. by eapply loop_rel_wf.
Qed.

(** What an invocation that is not throttled does to the entry at
    position [key] and to the reports for it: nothing when no key sits
    there, else one step of [scan_entry] and [scan_notify] with the level
    of that key's sense pin and the incremented tick counter. *)
Lemma Matrix_scan_entry (scanNum : Z) (sense_in : Z → Z → bool) (key : Z)
    (s s' : Matrix_state) :
  config_ok → wf s → 0 ≤ key →
  Matrix_scan scanNum sense_in s = Some s' →
  throttled (set_divCounter (wrap32 (Matrix_divCounter s + 1)) s) = false →
  (hits key = 0%nat
   ∧ Matrix_scanArray s' !! Z.to_nat key = Matrix_scanArray s !! Z.to_nat key
   ∧ key_events key (trace s') = key_events key (trace s))
  ∨ (hits key = 1%nat
     ∧ Matrix_scanArray s' !! Z.to_nat key
       = scan_entry DebounceDivThreshold_define scanNum
           (sense_in (key `mod` Matrix_colsNum) (key `div` Matrix_colsNum))
           (wrap32 (Matrix_divCounter s + 1)) (Matrix_repeatThreshold s)
         <$> Matrix_scanArray s !! Z.to_nat key
     ∧ ∀ st, Matrix_scanArray s !! Z.to_nat key = Some st →
         key_events key (trace s')
         = key_events key (trace s)
           ++ scan_notify DebounceDivThreshold_define scanNum
                (sense_in (key `mod` Matrix_colsNum) (key `div` Matrix_colsNum))
                (wrap32 (Matrix_divCounter s + 1)) (Matrix_repeatThreshold s) st).
Proof.
  intros Hcfg Hwf Hkey Hscan Hthr.
  pose proof Hcfg as (Hcols & Hrows & Hkeys).
  destruct (Matrix_scan_steps _ _ _ _ Hscan)
    as [[Ht _]|(_ & s2 & s3 & H2 & H3 & H4)]; [congruence|].
  destruct (scan_stats_effect _ _ _ H2) as (Ea & Etr & Ed & Et & _).
  simpl in Ea, Etr, Ed, Et.
  assert (Hwf2 : wf s2) by (eapply wf_scan_stats; [exact H2|by apply wf_tick]).
  assert (Hwf3 : wf s3) by by eapply scan_loops_wf.
  destruct (debug_state_table_effect scanNum s3 Hkeys (proj1 Hwf3))
    as (evs & Hq & _ & _ & Htab).
  rewrite Htab in H4. simplify_eq.
  assert (Earr : Matrix_scanArray
                   (set_trace (trace s3 ++ evs)
                      (if 0 <? matrixDebugStateCounter s3
                       then set_debugStateCounter (matrixDebugStateCounter s3 - 1) s3
                       else s3)) = Matrix_scanArray s3)
    by by destruct (0 <? matrixDebugStateCounter s3).
  assert (Eev : key_events key
                  (trace (set_trace (trace s3 ++ evs)
                            (if 0 <? matrixDebugStateCounter s3
                             then set_debugStateCounter
                                    (matrixDebugStateCounter s3 - 1) s3
                             else s3))) = key_events key (trace s3)).
  { simpl. by rewrite key_events_app, (key_events_quiet _ _ Hq), app_nil_r. }
  rewrite Earr, Eev.
  pose proof (scan_loops_entry_rel scanNum sense_in key s2 s3
                ltac:(lia) Hkey H3) as [_ HR].
  pose proof (hits_le_1 key ltac:(lia)) as Hle.
  rewrite Ea, Etr, Ed, Et in HR.
  destruct (hits key) as [|[|n]]; [left|right|lia]; by split.
Qed.

Lemma Matrix_scan_throttled (scanNum : Z) (sense_in : Z → Z → bool)
    (s s' : Matrix_state) :
  Matrix_scan scanNum sense_in s = Some s' →
  throttled (set_divCounter (wrap32 (Matrix_divCounter s + 1)) s) = true →
  s' = set_divCounter (wrap32 (Matrix_divCounter s + 1)) s.
Proof.
  intros Hscan Hthr.
  destruct (Matrix_scan_steps _ _ _ _ Hscan) as [[_ ->]|[Hf _]];
    [done|congruence].
Qed.

Lemma Matrix_scan_wf (scanNum : Z) (sense_in : Z → Z → bool)
    (s s' : Matrix_state) :
  config_ok → wf s → Matrix_scan scanNum sense_in s = Some s' → wf s'.
Proof.
  intros Hcfg Hwf Hscan.
  destruct (Matrix_scan_spec 0 scanNum sense_in s Hcfg Hwf) as (t & Ht & Rt & _).
  assert (t = s') by congruence. subst t. by eapply scan_rel_wf.
Qed.

(** A property of the globals that every invocation keeps holds after
    every run. *)
Lemma run_invariant (J : Matrix_state → Prop)
    (calls : list (Z * (Z → Z → bool))) (s s' : Matrix_state) :
  (∀ scanNum sense_in t t',
     wf t → J t → Matrix_scan scanNum sense_in t = Some t' → J t') →
  config_ok → wf s → J s → run calls s = Some s' → wf s' ∧ J s'.
Proof.
  intros Hstep Hcfg. unfold run. revert s.
  induction calls as [|c calls IH]; intros s Hwf HJ Hrun.
  - simpl in Hrun. unfold skip in Hrun. by simplify_eq.
  - cbn [for_each] in Hrun. apply and_then_Some in Hrun as (s1 & H1 & Hrest).
    apply (IH s1); [by eapply Matrix_scan_wf|by eapply Hstep|done].
Qed.

Lemma Matrix_scan_Forall (P : KeyState → Prop) (scanNum : Z)
    (sense_in : Z → Z → bool) (s s' : Matrix_state) :
  (∀ scanNum d tick threshold st,
     P st → P (scan_entry DebounceDivThreshold_define scanNum d tick threshold st)) →
  config_ok → wf s →
  Matrix_scan scanNum sense_in s = Some s' →
  Forall P (Matrix_scanArray s) → Forall P (Matrix_scanArray s').
Proof.
  intros HP Hcfg Hwf Hscan Hall.
  destruct (throttled (set_divCounter (wrap32 (Matrix_divCounter s + 1)) s))
    eqn:Hthr.
  - by rewrite (Matrix_scan_throttled _ _ _ _ Hscan Hthr).
  - apply Forall_lookup. intros i st' Hi.
    destruct (Matrix_scan_entry scanNum sense_in (Z.of_nat i) s s' Hcfg Hwf
                ltac:(lia) Hscan Hthr) as [(_ & Ha & _)|(_ & Ha & _)];
      rewrite Nat2Z.id in Ha; rewrite Ha in Hi.
    + by apply (Forall_lookup_1 _ _ _ _ Hall Hi).
    + destruct (Matrix_scanArray s !! i) as [st|] eqn:Hst; [|done].
      simpl in Hi. simplify_eq. apply HP.
      by apply (Forall_lookup_1 _ _ _ _ Hall Hst).
Qed.

(** ** Properties of [scan_entry] *)

Lemma reset_debounce_fields (T scanNum : Z) (d : bool) (st : KeyState) :
  lastChangeCounter (debounce T d (reset_state scanNum st)) = lastChangeCounter st
  ∧ activeCount (debounce T d (reset_state scanNum st))
    = activeCount (debounce T d st)
  ∧ inactiveCount (debounce T d (reset_state scanNum st))
    = inactiveCount (debounce T d st)
  ∧ ((scanNum = 0
      ∧ prevState (debounce T d (reset_state scanNum st)) = curState st
      ∧ curState (debounce T d (reset_state scanNum st)) = KeyState_Invalid)
     ∨ (scanNum ≠ 0
        ∧ prevState (debounce T d (reset_state scanNum st)) = prevState st
        ∧ curState (debounce T d (reset_state scanNum st)) = curState st)).
Proof.
  destruct (debounce_states T d (reset_state scanNum st)) as (Hp & Hc & Hl).
  rewrite Hp, Hc, Hl.
  destruct (reset_state_counts scanNum st) as (Ha & Hi & Hlast).
  split; [done|]. split; [|split].
  - unfold debounce, reset_state. destruct (scanNum =? 0); simpl;
      by destruct d, (activeCount st <? T), (inactiveCount st <? T).
  - unfold debounce, reset_state. destruct (scanNum =? 0); simpl;
      by destruct d, (activeCount st <? T), (inactiveCount st <? T).
  - unfold reset_state. destruct (Z.eqb_spec scanNum 0); [left|right]; done.
Qed.

(** Within the repeat threshold, and in every invocation with
    [scanNum != 0], a resolved entry keeps its current state and its last
    change tick, and nothing is reported. *)
Lemma scan_entry_keeps (T scanNum : Z) (d : bool) (tick threshold : Z)
    (st : KeyState) :
  resolved st →
  scanNum ≠ 0 ∨ wrap32 (tick - lastChangeCounter st) < threshold →
  curState (scan_entry T scanNum d tick threshold st) = curState st
  ∧ lastChangeCounter (scan_entry T scanNum d tick threshold st)
    = lastChangeCounter st
  ∧ (scanNum ≠ 0 →
     prevState (scan_entry T scanNum d tick threshold st) = prevState st)
  ∧ (scanNum = 0 →
     prevState (scan_entry T scanNum d tick threshold st) = curState st)
  ∧ scan_notify T scanNum d tick threshold st = [].
Proof.
  intros Hres Hcase.
  destruct (reset_debounce_fields T scanNum d st)
    as (Hl & _ & _ & [(Hz & Hp & Hc)|(Hnz & Hp & Hc)]).
  - destruct Hcase as [?|Hlt]; [done|]. rewrite <- Hl in Hlt.
    destruct (scan_entry_suppressed T scanNum d tick threshold st Hc Hlt)
      as [-> ->].
    simpl. rewrite Hp, Hl. by split_and!.
  - destruct (scan_entry_valid T scanNum d tick threshold st) as [-> ->];
      [by rewrite Hc|].
    rewrite Hp, Hc, Hl. by split_and!.
Qed.

(** A resolved entry stays resolved, its pair of states stays legal, and
    what is reported follows the current state it had. *)
Lemma scan_entry_follows (T scanNum : Z) (d : bool) (tick threshold : Z)
    (st : KeyState) :
  resolved st →
  resolved (scan_entry T scanNum d tick threshold st)
  ∧ (legal_pair st → legal_pair (scan_entry T scanNum d tick threshold st))
  ∧ ((scan_notify T scanNum d tick threshold st = []
      ∧ curState (scan_entry T scanNum d tick threshold st) = curState st)
     ∨ (scan_notify T scanNum d tick threshold st
        = [curState (scan_entry T scanNum d tick threshold st)]
        ∧ follows (curState st)
            (curState (scan_entry T scanNum d tick threshold st)))).
Proof.
  intros Hres. unfold resolved in Hres.
  destruct (reset_debounce_fields T scanNum d st)
    as (Hl & _ & _ & [(Hz & Hp & Hc)|(Hnz & Hp & Hc)]).
  - unfold scan_notify, scan_entry, resolved, legal_pair.
    rewrite (bool_decide_eq_true_2 _ Hc).
    destruct (wrap32 (tick - lastChangeCounter
                               (debounce T d (reset_state scanNum st)))
              <? threshold); simpl.
    + rewrite Hp. split_and!; [done| |by left].
      intros _. by destruct (curState st).
    + rewrite Hp.
      destruct (curState st) eqn:Hcur; try done;
        destruct (inactiveCount (debounce T d (reset_state scanNum st))
                  <? activeCount (debounce T d (reset_state scanNum st)));
        simpl; rewrite ?Hp, ?Hcur; simpl; split_and!; try done; by right.
  - destruct (scan_entry_valid T scanNum d tick threshold st) as [-> ->];
      [by rewrite Hc|].
    unfold resolved, legal_pair. rewrite Hp, Hc. split_and!; [done..|by left].
Qed.

Lemma sum_list_pos {A : Type} (w : A → nat) (l : list A) :
  (0 < sum_list (w <$> l))%nat → ∃ x, x ∈ l ∧ (0 < w x)%nat.
Proof.
  induction l as [|x l IH]; [simpl; lia|]. rewrite fmap_cons.
  change (sum_list (w x :: (w <$> l))) with (w x + sum_list (w <$> l))%nat.
  intros Hpos. destruct (w x) as [|n] eqn:Hx.
  - destruct IH as (y & Hy & Hwy); [lia|]. exists y. split; [by right|done].
  - exists x. split; [left|lia].
Qed.

Lemma hits_in_range (key : Z) :
  (0 < hits key)%nat → 0 ≤ key < Matrix_maxKeys.
Proof.
  intros Hpos. apply sum_list_pos in Hpos as (strobe & Hstrobe & Hpos).
  apply sum_list_pos in Hpos as (sense & Hsense & Hpos).
  apply elem_of_seqZ in Hstrobe, Hsense. unfold hit in Hpos.
  case_bool_decide as Heq; [|lia]. subst key.
  apply key_of_in_range; lia.
Qed.

Lemma protocol_snoc (l : list KeyPosition) (a b : KeyPosition) :
  protocol l → last l = Some a → follows a b → protocol (l ++ [b]).
Proof.
  induction l as [|x l IH]; [done|]. intros Hp Hl Hf.
  destruct l as [|y l].
  - simpl in Hl. simplify_eq. by split.
  - destruct Hp as [Hxy Hp]. split; [done|]. by apply IH.
Qed.

(** What a run keeps for the entry at a key position: it is resolved,
    the states reported for the key follow the protocol from Off on, and
    the current state is the last state reported. *)
Lemma Matrix_scan_protocol (scanNum : Z) (sense_in : Z → Z → bool) (key : Z)
    (s s' : Matrix_state) :
  config_ok → wf s → 0 ≤ key →
  (∃ st, Matrix_scanArray s !! Z.to_nat key = Some st ∧ resolved st
         ∧ protocol (KeyState_Off :: key_events key (trace s))
         ∧ last (KeyState_Off :: key_events key (trace s)) = Some (curState st)) →
  Matrix_scan scanNum sense_in s = Some s' →
  ∃ st, Matrix_scanArray s' !! Z.to_nat key = Some st ∧ resolved st
        ∧ protocol (KeyState_Off :: key_events key (trace s'))
        ∧ last (KeyState_Off :: key_events key (trace s')) = Some (curState st).
Proof.
  intros Hcfg Hwf Hkey (st & Hst & Hres & Hproto & Hlast) Hscan.
  destruct (throttled (set_divCounter (wrap32 (Matrix_divCounter s + 1)) s))
    eqn:Hthr.
  { rewrite (Matrix_scan_throttled _ _ _ _ Hscan Hthr). by exists st. }
  destruct (Matrix_scan_entry scanNum sense_in key s s' Hcfg Hwf Hkey Hscan Hthr)
    as [(_ & Ha & He)|(_ & Ha & He)].
  { exists st. by rewrite Ha, He. }
  rewrite Hst in Ha. simpl in Ha. rewrite (He st Hst).
  destruct (scan_entry_follows DebounceDivThreshold_define scanNum
              (sense_in (key `mod` Matrix_colsNum) (key `div` Matrix_colsNum))
              (wrap32 (Matrix_divCounter s + 1)) (Matrix_repeatThreshold s) st Hres)
    as (Hres' & _ & [[-> Hcur]|[-> Hfol]]).
  - eexists. split; [exact Ha|]. rewrite app_nil_r, Hcur. by split_and!.
  - eexists. split; [exact Ha|]. split; [done|].
    rewrite app_comm_cons. split.
    + by eapply protocol_snoc.
    + by rewrite last_snoc.
Qed.

(** [Matrix_setup] on any globals whose arrays have their declared
    lengths: what it prints, what it resets and what it keeps. *)
Lemma Matrix_setup_effect (s : Matrix_state) :
  config_ok →
  length (Matrix_scanArray s) = Z.to_nat Matrix_maxKeys →
  length (Matrix_timesRelease s) = 32%nat →
  length (Matrix_timesPress s) = 32%nat →
  Matrix_setup s
  = Some {| Matrix_divCounter := Matrix_divCounter s;
            Matrix_repeatThreshold := Matrix_repeatThreshold s;
            Matrix_timesRelease := replicate 32 0;
            Matrix_timesPress := replicate 32 0;
            Matrix_scanArray :=
              replicate (Z.to_nat Matrix_maxKeys)
                (KeyState_cleared DebounceDivThreshold_define);
            matrixDebugMode := matrixDebugMode s;
            matrixDebugStateCounter := matrixDebugStateCounter s;
            matrixMaxScans := 0;
            matrixCurScans := matrixCurScans s;
            matrixPrevScans := 0;
            trace := trace s ++ setup_output |}.
Proof.
  intros (Hcols & Hrows & Hkeys) Harr Hrel Hpress. unfold Matrix_setup.
  do 3 (eapply and_then_intro; [reflexivity|]).
  eapply and_then_intro; [by apply for_uint8_emit|].
  do 3 (eapply and_then_intro; [reflexivity|]).
  eapply and_then_intro; [by apply for_uint8_emit|].
  do 3 (eapply and_then_intro; [reflexivity|]).
  eapply and_then_intro.
  { unfold for_uint8. rewrite bool_decide_eq_true_2 by done.
    replace (seqZ 0 Matrix_maxKeys)
      with (seqZ 0 (Z.of_nat (Z.to_nat Matrix_maxKeys)))
      by (unfold seqZ; by rewrite Nat2Z.id).
    eapply (put_keys_replicate _ _ 0 (Matrix_scanArray s)); [done|reflexivity|].
    exact Harr. }
  do 2 (eapply and_then_intro; [reflexivity|]).
  rewrite clear_histograms by done.
  unfold setup_output. simpl. rewrite <- ?app_assoc. simpl.
  rewrite <- ?app_assoc. reflexivity.
Qed.

Lemma setup_output_quiet : Forall quiet setup_output.
Proof.
  unfold setup_output.
  repeat (apply Forall_app; split);
    try (by apply Forall_fmap, Forall_true);
    by repeat (apply Forall_cons; split; [done|]).
Qed.

Lemma cleared_untouched (T : Z) : untouched (KeyState_cleared T).
Proof. done. Qed.

Lemma untouched_resolved (st : KeyState) : untouched st → resolved st.
Proof. intros (_ & Hc & _). unfold resolved. by rewrite Hc. Qed.

(** While the tick counter has not reached the repeat threshold, an
    entry that has never changed stays so and nothing is reported. *)
Lemma scan_entry_untouched (T scanNum : Z) (d : bool) (tick threshold : Z)
    (st : KeyState) :
  untouched st → 0 ≤ tick < 2 ^ 32 → tick < threshold →
  untouched (scan_entry T scanNum d tick threshold st)
  ∧ scan_notify T scanNum d tick threshold st = [].
Proof.
  intros Hun Htick Hlt. pose proof Hun as (Hp & Hc & Hl).
  assert (Hsupp : wrap32 (tick - lastChangeCounter st) < threshold).
  { rewrite Hl, Z.sub_0_r. unfold wrap32. rewrite Z.mod_small; lia. }
  destruct (scan_entry_keeps T scanNum d tick threshold st
              (untouched_resolved st Hun) (or_intror Hsupp))
    as (Hc' & Hl' & Hp1 & Hp2 & Hn).
  split; [|done]. unfold untouched. rewrite Hc', Hl'. split_and!; [|done|done].
  destruct (decide (scanNum = 0)) as [Hz|Hnz].
  - rewrite (Hp2 Hz). done.
  - rewrite (Hp1 Hnz). done.
Qed.

Lemma run_cons (c : Z * (Z → Z → bool)) (calls : list (Z * (Z → Z → bool)))
    (s s' : Matrix_state) :
  run (c :: calls) s = Some s' ↔
  ∃ s1, Matrix_scan c.1 c.2 s = Some s1 ∧ run calls s1 = Some s'.
Proof.
  unfold run. cbn [for_each]. split.
  - intros H. by apply and_then_Some in H.
  - intros (s1 & H1 & H2). by eapply and_then_intro.
Qed.

Lemma run_nil (s : Matrix_state) : run [] s = Some s.
Proof. done. Qed.

(** What one invocation does to the entries and the reports of the
    keys, when none of the entries can be decided yet. *)
Lemma Matrix_scan_untouched (scanNum : Z) (sense_in : Z → Z → bool)
    (s s' : Matrix_state) :
  config_ok → wf s →
  0 ≤ Matrix_divCounter s → Matrix_divCounter s + 1 < Matrix_repeatThreshold s →
  Matrix_repeatThreshold s ≤ 2 ^ 32 →
  Forall untouched (Matrix_scanArray s) →
  Matrix_scan scanNum sense_in s = Some s' →
  Forall untouched (Matrix_scanArray s')
  ∧ ∀ key, 0 ≤ key → key_events key (trace s') = key_events key (trace s).
Proof.
  intros Hcfg Hwf Hc0 Hc1 Hth Hall Hscan.
  assert (Htick : wrap32 (Matrix_divCounter s + 1) = Matrix_divCounter s + 1).
  { unfold wrap32. rewrite Z.mod_small; lia. }
  destruct (throttled (set_divCounter (wrap32 (Matrix_divCounter s + 1)) s))
    eqn:Hthr.
  { by rewrite (Matrix_scan_throttled _ _ _ _ Hscan Hthr). }
  split.
  - apply Forall_lookup. intros i st' Hi.
    destruct (Matrix_scan_entry scanNum sense_in (Z.of_nat i) s s' Hcfg Hwf
                ltac:(lia) Hscan Hthr) as [(_ & Ha & _)|(_ & Ha & _)];
      rewrite Nat2Z.id in Ha; rewrite Ha in Hi.
    + by apply (Forall_lookup_1 _ _ _ _ Hall Hi).
    + destruct (Matrix_scanArray s !! i) as [st|] eqn:Hst; [|done].
      simpl in Hi. simplify_eq. rewrite Htick.
      apply scan_entry_untouched; [|lia|lia].
      by apply (Forall_lookup_1 _ _ _ _ Hall Hst).
  - intros key Hkey.
    destruct (Matrix_scan_entry scanNum sense_in key s s' Hcfg Hwf Hkey Hscan Hthr)
      as [(_ & _ & He)|(H1 & _ & He)]; [done|].
    pose proof (hits_in_range key ltac:(lia)) as Hrange.
    destruct (lookup_lt_is_Some_2 (Matrix_scanArray s) (Z.to_nat key))
      as [st Hst]; [destruct Hwf as [-> _]; lia|].
    rewrite (He st Hst), Htick.
    destruct (scan_entry_untouched DebounceDivThreshold_define scanNum
                (sense_in (key `mod` Matrix_colsNum) (key `div` Matrix_colsNum))
                (Matrix_divCounter s + 1) (Matrix_repeatThreshold s) st)
      as [_ ->]; [by apply (Forall_lookup_1 _ _ _ _ Hall Hst)|lia|lia|].
    by rewrite app_nil_r.
Qed.

Lemma Matrix_scan_globals (scanNum : Z) (sense_in : Z → Z → bool)
    (s s' : Matrix_state) :
  config_ok → wf s → Matrix_scan scanNum sense_in s = Some s' →
  Matrix_divCounter s' = wrap32 (Matrix_divCounter s + 1)
  ∧ Matrix_repeatThreshold s' = Matrix_repeatThreshold s
  ∧ matrixDebugMode s' = matrixDebugMode s.
Proof.
  intros Hcfg Hwf Hscan.
  destruct (Matrix_scan_spec 0 scanNum sense_in s Hcfg Hwf)
    as (t & Ht & (Hth & Hmode & _) & Hdiv & _).
  assert (t = s') by congruence. by subst t.
Qed.

Lemma run_untouched (calls : list (Z * (Z → Z → bool))) (s s' : Matrix_state) :
  config_ok → wf s →
  0 ≤ Matrix_divCounter s →
  Matrix_divCounter s + Z.of_nat (length calls) < Matrix_repeatThreshold s →
  Matrix_repeatThreshold s ≤ 2 ^ 32 →
  Forall untouched (Matrix_scanArray s) →
  run calls s = Some s' →
  Forall untouched (Matrix_scanArray s')
  ∧ ∀ key, 0 ≤ key → key_events key (trace s') = key_events key (trace s).
Proof.
  intros Hcfg. revert s.
  induction calls as [|c calls IH]; intros s Hwf Hc0 Hc1 Hth Hall Hrun.
  - rewrite run_nil in Hrun. by simplify_eq.
  - apply run_cons in Hrun as (s1 & H1 & Hrun). rewrite length_cons in Hc1.
    destruct (Matrix_scan_untouched c.1 c.2 s s1) as [Hall1 He1];
      [done|done|done|lia|done|done|done|].
    destruct (Matrix_scan_globals _ _ _ _ Hcfg Hwf H1) as (Hd & Ht & _).
    assert (Hd1 : Matrix_divCounter s1 = Matrix_divCounter s + 1).
    { rewrite Hd. unfold wrap32. rewrite Z.mod_small; lia. }
    destruct (IH s1) as [Hall' He'];
      [by eapply Matrix_scan_wf|lia|rewrite Ht; lia|by rewrite Ht|done|done|].
    split; [done|]. intros key Hkey. by rewrite He', He1.
Qed.

(** ** Loops over a [uint8_t] counter *)



(** ** The throttle *)

Lemma land_pow2 (t k : Z) :
  0 ≤ k → Z.land t (2 ^ k) = if Z.testbit t k then 2 ^ k else 0.
Proof.
  intros Hk. apply Z.bits_inj'. intros i Hi.
  rewrite Z.land_spec, Z.pow2_bits_eqb by done.
  destruct (Z.eqb_spec k i) as [->|Hne].
  - rewrite andb_true_r. destruct (Z.testbit t i) eqn:Hb.
    + by rewrite Z.pow2_bits_true.
    + by rewrite Z.bits_0.
  - rewrite andb_false_r. destruct (Z.testbit t k).
    + by rewrite Z.pow2_bits_false.
    + by rewrite Z.bits_0.
Qed.

(** With a divider [d >= 1] the throttle looks at bit [d-1] of the tick
    counter: the invocation is skipped in the lower half of every block
    of [2^d] ticks. *)
Lemma throttled_block (s : Matrix_state) :
  1 ≤ DebounceThrottleDiv_define →
  throttled s
  = bool_decide (Matrix_divCounter s `mod` 2 ^ DebounceThrottleDiv_define
                 < 2 ^ (DebounceThrottleDiv_define - 1)).
Proof.
  intros Hd. unfold throttled.
  set (d := DebounceThrottleDiv_define) in *. set (t := Matrix_divCounter s).
  replace (0 <? d) with true by (symmetry; apply Z.ltb_lt; lia).
  rewrite andb_true_l, Z.shiftl_1_l, land_pow2 by lia.
  assert (Hpos : 0 < 2 ^ (d - 1)) by (apply Z.pow_pos_nonneg; lia).
  assert (Hpow : 2 ^ d = 2 ^ (d - 1) * 2).
  { pose proof (Z.pow_succ_r 2 (d - 1) ltac:(lia)) as Hs.
    replace (Z.succ (d - 1)) with d in Hs by lia. lia. }
  rewrite Hpow.
  rewrite Z.rem_mul_r by lia.
  pose proof (Z.testbit_spec' t (d - 1) ltac:(lia)) as Hbit.
  pose proof (Z.mod_pos_bound t (2 ^ (d - 1)) Hpos) as Hlow.
  destruct (Z.testbit t (d - 1)); simpl in Hbit; rewrite <- Hbit.
  - rewrite bool_decide_eq_false_2 by lia. apply Z.eqb_neq. lia.
  - rewrite bool_decide_eq_true_2 by lia. done.
Qed.

Lemma throttled_off (s : Matrix_state) :
  DebounceThrottleDiv_define ≤ 0 → throttled s = false.
Proof.
  intros Hd. unfold throttled.
  replace (0 <? DebounceThrottleDiv_define) with false; [done|].
  symmetry. apply Z.ltb_ge. lia.
Qed.

(** ** The statistics over a run *)

Lemma run_app (calls1 calls2 : list (Z * (Z → Z → bool))) (s s' : Matrix_state) :
  run (calls1 ++ calls2) s = Some s' ↔
  ∃ s1, run calls1 s = Some s1 ∧ run calls2 s1 = Some s'.
Proof.
  revert s. induction calls1 as [|c calls1 IH]; intros s.
  - simpl. rewrite run_nil. split.
    + intros H. by exists s.
    + intros (s1 & H1 & H2). by simplify_eq.
  - rewrite <- app_comm_cons, run_cons. split.
    + intros (s1 & H1 & H2). apply IH in H2 as (s2 & H2 & H3).
      exists s2. split; [|done]. apply run_cons. by exists s1.
    + intros (s2 & H2 & H3). apply run_cons in H2 as (s1 & H1 & H2).
      exists s1. split; [done|]. apply IH. by exists s2.
Qed.

Lemma Matrix_scan_stats (scanNum : Z) (sense_in : Z → Z → bool)
    (s s' : Matrix_state) :
  config_ok → wf s →
  throttled (set_divCounter (wrap32 (Matrix_divCounter s + 1)) s) = false →
  Matrix_scan scanNum sense_in s = Some s' →
  matrixMaxScans s' = Z.max (matrixMaxScans s) scanNum
  ∧ matrixCurScans s'
    = (if scanNum =? 0 then 0 else wrap16 (matrixCurScans s + 1))
  ∧ matrixPrevScans s'
    = (if scanNum =? 0 then matrixCurScans s else matrixPrevScans s).
Proof.
  intros Hcfg Hwf Hthr Hscan.
  destruct (Matrix_scan_spec 0 scanNum sense_in s Hcfg Hwf)
    as (t & Ht & _ & _ & _ & Hstats).
  assert (t = s') by congruence. subst t.
  destruct (Hstats Hthr) as (Hmax & Hcur & Hprev). split_and!; [|done|done].
  rewrite Hmax. destruct (Z.ltb_spec (matrixMaxScans s) scanNum); lia.
Qed.

Lemma run_subscans (subs : list (Z * (Z → Z → bool))) (s s' : Matrix_state) :
  config_ok → wf s → DebounceThrottleDiv_define ≤ 0 →
  Forall (λ c, c.1 ≠ 0) subs →
  run subs s = Some s' →
  matrixCurScans s' = wrap16 (matrixCurScans s + Z.of_nat (length subs))
                      ∨ (subs = [] ∧ matrixCurScans s' = matrixCurScans s).
Proof.
  intros Hcfg Hwf Hd Hall. revert s Hwf.
  induction Hall as [|c subs Hc Hall IH]; intros s Hwf Hrun.
  - rewrite run_nil in Hrun. simplify_eq. by right.
  - apply run_cons in Hrun as (s1 & H1 & Hrun). left.
    destruct (Matrix_scan_stats _ _ _ _ Hcfg Hwf (throttled_off _ Hd) H1)
      as (_ & Hcur & _).
    rewrite (proj2 (Z.eqb_neq _ _) Hc) in Hcur.
    destruct (IH s1 (Matrix_scan_wf _ _ _ _ Hcfg Hwf H1) Hrun) as [->|[-> ->]].
    + rewrite Hcur, length_cons. unfold wrap16.
      rewrite Zplus_mod_idemp_l. f_equal. lia.
    + rewrite Hcur. simpl. done.
Qed.

Lemma run_maxScans (calls : list (Z * (Z → Z → bool))) (s s' : Matrix_state) :
  config_ok → wf s → DebounceThrottleDiv_define ≤ 0 →
  run calls s = Some s' →
  matrixMaxScans s' = foldl Z.max (matrixMaxScans s) (calls.*1).
Proof.
  intros Hcfg Hwf Hd. revert s Hwf.
  induction calls as [|c calls IH]; intros s Hwf Hrun.
  - rewrite run_nil in Hrun. by simplify_eq.
  - apply run_cons in Hrun as (s1 & H1 & Hrun).
    destruct (Matrix_scan_stats _ _ _ _ Hcfg Hwf (throttled_off _ Hd) H1)
      as (Hmax & _).
    rewrite (IH s1 (Matrix_scan_wf _ _ _ _ Hcfg Hwf H1) Hrun), Hmax. done.
Qed.

(** ** The counters under a steady level *)

Lemma scan_entry_counts (T scanNum : Z) (d : bool) (tick threshold : Z)
    (st : KeyState) :
  activeCount (scan_entry T scanNum d tick threshold st)
  = activeCount (debounce T d st)
  ∧ inactiveCount (scan_entry T scanNum d tick threshold st)
    = inactiveCount (debounce T d st).
Proof.
  destruct (reset_debounce_fields T scanNum d st) as (_ & Ha & Hi & _).
  rewrite <- Ha, <- Hi. unfold scan_entry.
  set (st1 := debounce T d (reset_state scanNum st)).
  case_bool_decide; [|done].
  destruct (wrap32 (tick - lastChangeCounter st1) <? threshold); [done|].
  by destruct (prevState st1), (inactiveCount st1 <? activeCount st1).
Qed.

Lemma scan_steady_snoc (T : Z) (d : bool) (steps : list (Z * Z * Z))
    (p : Z * Z * Z) (st : KeyState) :
  scan_steady T d (steps ++ [p]) st
  = scan_entry T p.1.1 d p.1.2 p.2 (scan_steady T d steps st).
Proof. unfold scan_steady. by rewrite foldl_app. Qed.

Lemma scan_steady_closed (T : Z) (steps : list (Z * Z * Z)) :
  0 ≤ T →
  activeCount (scan_steady T true steps (KeyState_cleared T))
  = Z.min (Z.of_nat (length steps)) T
  ∧ inactiveCount (scan_steady T true steps (KeyState_cleared T))
    = Z.shiftr T (Z.of_nat (length steps)).
Proof.
  intros HT. induction steps as [|p steps [IHa IHi]] using rev_ind.
  - simpl. split; [lia|]. by rewrite Z.shiftr_0_r.
  - rewrite scan_steady_snoc, length_app. simpl.
    destruct (scan_entry_counts T p.1.1 true p.1.2 p.2
                (scan_steady T true steps (KeyState_cleared T))) as [-> ->].
    unfold debounce.
    destruct (Z.ltb_spec
                (activeCount (scan_steady T true steps (KeyState_cleared T))) T)
      as [Hlt|Hge]; simpl; rewrite ?IHa, ?IHi in *.
    + split; [lia|]. rewrite Z.shiftr_shiftr by lia. f_equal. lia.
    + split; [lia|]. rewrite Z.shiftr_shiftr by lia. f_equal. lia.
Qed.

(** ** The scan of one key, exactly *)

Lemma keyPositionDebug_glyph (pos : KeyPosition) :
  Matrix_keyPositionDebug pos = emit (print (position_glyph pos)).
Proof. by destruct pos. Qed.

Lemma debug_key_exact (key : Z) (st : KeyState) (s : Matrix_state) :
  debug_key key st s
  = Some (set_trace (trace s ++ debug_output (matrixDebugMode s) key st) s).
Proof.
  unfold debug_key, debug_output.
  destruct (negb (matrixDebugMode s =? 0)
            && negb (bool_decide (curState st = prevState st))); simpl.
  2: { unfold skip. by rewrite set_trace_nil. }
  destruct ((matrixDebugMode s =? 1)
            && bool_decide (curState st = KeyState_Press)).
  { unfold and_then, emit, modify. simpl. by rewrite <- app_assoc. }
  destruct (matrixDebugMode s =? 2).
  { rewrite keyPositionDebug_glyph. unfold and_then, emit, modify. simpl.
    by rewrite <- !app_assoc. }
  unfold skip. by rewrite set_trace_nil.
Qed.

(** The scan of one key, field by field: the entry becomes
    [scan_entry] of the entry, the trace grows by [scan_events], a
    report of Release or Press increments the bucket of the elapsed
    ticks in the release or the press histogram, and nothing else
    changes. *)
Lemma scan_key_exact (T scanNum : Z) (d : bool) (key : Z) (s s' : Matrix_state) :
  scan_key T scanNum d key s = Some s' →
  ∃ st0,
    Matrix_scanArray s !! Z.to_nat key = Some st0
    ∧ same_globals s s'
    ∧ Matrix_scanArray s'
      = <[Z.to_nat key := scan_entry T scanNum d (Matrix_divCounter s)
                            (Matrix_repeatThreshold s) st0]> (Matrix_scanArray s)
    ∧ trace s'
      = trace s ++ scan_events T scanNum d key (Matrix_divCounter s)
                     (Matrix_repeatThreshold s) (matrixDebugMode s) st0
    ∧ match scan_notify T scanNum d (Matrix_divCounter s)
              (Matrix_repeatThreshold s) st0 with
      | [KeyState_Release] =>
          incr32 (Matrix_timesRelease s)
            (bucket_of (wrap32 (Matrix_divCounter s - lastChangeCounter st0)))
          = Some (Matrix_timesRelease s')
          ∧ Matrix_timesPress s' = Matrix_timesPress s
      | [KeyState_Press] =>
          incr32 (Matrix_timesPress s)
            (bucket_of (wrap32 (Matrix_divCounter s - lastChangeCounter st0)))
          = Some (Matrix_timesPress s')
          ∧ Matrix_timesRelease s' = Matrix_timesRelease s
      | _ =>
          Matrix_timesRelease s' = Matrix_timesRelease s
          ∧ Matrix_timesPress s' = Matrix_timesPress s
      end.
Proof.
  intros Hsk.
  destruct (scan_key_cases _ _ _ _ _ _ Hsk) as (st0 & Hst0 & _).
  exists st0. split; [done|].
  assert (Hk : (Z.to_nat key < length (Matrix_scanArray s))%nat)
    by by eapply lookup_lt_Some.
  destruct (reset_debounce_fields T scanNum d st0) as (Hlast & _).
  unfold scan_key in Hsk. rewrite Hst0 in Hsk. simpl in Hsk.
  unfold scan_events, scan_notify, scan_entry.
  rewrite <- Hlast.
  set (st := debounce T d (reset_state scanNum st0)) in *.
  destruct (bool_decide (curState st = KeyState_Invalid)) eqn:Hinv.
  2: { rewrite put_key_Some in Hsk by done. simplify_eq. simpl.
       rewrite app_nil_r. by split_and!. }
  destruct (wrap32 (Matrix_divCounter s - lastChangeCounter st)
            <? Matrix_repeatThreshold s) eqn:Hlt.
  { rewrite put_key_Some in Hsk by done. simplify_eq. simpl.
    rewrite app_nil_r. by split_and!. }
  simpl. pose proof (bool_decide_eq_true_1 _ Hinv) as Hcur.
  destruct (resolve _ st s) as [[st' s1]|] eqn:Hres; [|done]. simpl in Hsk.
  unfold and_then in Hsk.
  destruct (resolve_cases _ _ _ _ _ Hres)
    as [(Hp & Hc & -> & ->)|[(Hp & Hc & -> & h & Hh & ->)
       |[(Hp & Hc & -> & h & Hh & ->)|[(Hp & Hc & -> & ->)|(Hp & -> & ->)]]]];
    rewrite put_key_Some in Hsk by done; simpl in Hsk;
    unfold emit, modify in Hsk; simpl in Hsk;
    rewrite debug_key_exact in Hsk; simplify_eq; simpl;
    try (destruct Hp as [Hp|Hp]); rewrite Hp; simpl;
    try (destruct (Z.ltb_spec (inactiveCount st) (activeCount st)); [|try lia]);
    try lia; simpl; rewrite <- ?app_assoc, ?Hcur; by split_and!.
Qed.

(** ** Lifting a relation through the scan loops *)

Lemma scan_loops_lift (I : Matrix_state → Prop)
    (R : Matrix_state → Matrix_state → Prop)
    (scanNum : Z) (sense_in : Z → Z → bool) :
  (∀ s, R s s) →
  (∀ s1 s2 s3, R s1 s2 → R s2 s3 → R s1 s3) →
  (∀ strobe type s, I s →
     I (set_trace (trace s ++ [Matrix_pin_strobe strobe type]) s)
     ∧ R s (set_trace (trace s ++ [Matrix_pin_strobe strobe type]) s)) →
  (∀ d key s s', 0 ≤ key → I s →
     scan_key DebounceDivThreshold_define scanNum d key s = Some s' →
     I s' ∧ R s s') →
  ∀ s s', I s →
    for_uint8 Matrix_colsNum (scan_strobe scanNum sense_in) s = Some s' →
    I s' ∧ R s s'.
Proof.
  intros Hrefl Htrans Hpin Hkey s s' HI Hrun.
  assert (Htrans' : ∀ (n m : nat) s1 s2 s3, R s1 s2 → R s2 s3 → R s1 s3).
  { intros _ _ s1 s2 s3. apply Htrans. }
  assert (Hinner : ∀ strobe sense u u', 0 ≤ sense < Matrix_rowsNum → I u →
            scan_key DebounceDivThreshold_define scanNum (sense_in strobe sense)
              (key_of strobe sense) u = Some u' → I u' ∧ R u u').
  { intros strobe sense u u' _ Hu Hsk.
    by apply (Hkey _ _ _ _ (key_of_nonneg _ _) Hu Hsk). }
  assert (Houter : ∀ strobe t t', 0 ≤ strobe < Matrix_colsNum → I t →
            scan_strobe scanNum sense_in strobe t = Some t' → I t' ∧ R t t').
  { intros strobe t t' Hstrobe Ht Hbody. unfold scan_strobe in Hbody.
    apply and_then_Some in Hbody as (t1 & H1 & Hbody).
    apply and_then_Some in Hbody as (t2 & H2 & H3).
    apply emit_Some in H1, H3. subst t1 t'.
    destruct (Hpin strobe Type_StrobeOn t Ht) as [I1 R1].
    destruct (for_uint8_rel_cond I (λ _, R) (λ _, 0%nat) _ _
                Hrefl Htrans' (Hinner strobe) _ _ I1 H2) as (_ & I2 & R2).
    destruct (Hpin strobe Type_StrobeOff t2 I2) as [I3 R3].
    split; [done|]. eauto. }
  by destruct (for_uint8_rel_cond I (λ _, R) (λ _, 0%nat) _ _
                 Hrefl Htrans' Houter _ _ HI Hrun) as (_ & HI' & HR).
Qed.

Lemma grows_by_refl (P : list event → Prop) (s : Matrix_state) :
  P [] → grows_by P s s.
Proof. intros HP. exists []. by rewrite app_nil_r. Qed.

Lemma grows_by_trans (P : list event → Prop) (s1 s2 s3 : Matrix_state) :
  (∀ evs1 evs2, P evs1 → P evs2 → P (evs1 ++ evs2)) →
  grows_by P s1 s2 → grows_by P s2 s3 → grows_by P s1 s3.
Proof.
  intros HP (evs1 & H1 & P1) (evs2 & H2 & P2). exists (evs1 ++ evs2).
  split; [|by apply HP]. by rewrite H2, H1, app_assoc.
Qed.

(** ** The histograms count the reports *)

Lemma reports_of_app (state : KeyPosition) (evs1 evs2 : list event) :
  reports_of state (evs1 ++ evs2) = reports_of state evs1 + reports_of state evs2.
Proof.
  induction evs1 as [|e evs1 IH]; [done|].
  destruct e; simpl; rewrite IH; lia.
Qed.

Lemma reports_of_quiet (state : KeyPosition) (evs : list event) :
  Forall quiet evs → reports_of state evs = 0.
Proof.
  induction 1 as [|e evs He _ IH]; [done|]. by destruct e.
Qed.

Lemma debug_output_quiet (mode key : Z) (st : KeyState) :
  Forall quiet (debug_output mode key st).
Proof.
  unfold debug_output.
  destruct (negb (mode =? 0) && negb (bool_decide (curState st = prevState st)));
    [|done].
  destruct ((mode =? 1) && bool_decide (curState st = KeyState_Press));
    [by repeat constructor|].
  destruct (mode =? 2); by repeat constructor.
Qed.

Lemma scan_events_reports (T scanNum : Z) (d : bool) (key tick threshold mode : Z)
    (st0 : KeyState) (state : KeyPosition) :
  reports_of state (scan_events T scanNum d key tick threshold mode st0)
  = if bool_decide (scan_notify T scanNum d tick threshold st0 = [state])
    then 1 else 0.
Proof.
  unfold scan_events, scan_notify.
  destruct (bool_decide _ && negb _).
  2: { by rewrite bool_decide_eq_false_2. }
  rewrite reports_of_app. simpl.
  rewrite (reports_of_quiet _ _ (debug_output_quiet _ _ _)), Z.add_0_r.
  assert (Hpre : ∀ b : bool,
            reports_of state
              (if b then [erro_print "Matrix scan bug!! Report me!"] else []) = 0)
    by by intros [].
  rewrite Hpre, Z.add_0_l.
  case_bool_decide as H1; case_bool_decide as H2; try done; congruence.
Qed.

Lemma total_insert (h : list Z) (i : nat) (v x : Z) :
  h !! i = Some v → total (<[i := x]> h) = total h - v + x.
Proof.
  revert i. induction h as [|y h IH]; intros [|i] Hi; try done.
  - simpl in *. simplify_eq. lia.
  - simpl in *. rewrite (IH i Hi). lia.
Qed.

Lemma total_incr32 (h h' : list Z) (b : Z) :
  incr32 h b = Some h' → wrap32 (total h') = wrap32 (total h + 1).
Proof.
  unfold incr32. intros H.
  destruct (h !! Z.to_nat b) as [v|] eqn:Hv; [|done]. simpl in H. simplify_eq.
  rewrite (total_insert _ _ _ _ Hv). unfold wrap32.
  rewrite Zplus_mod_idemp_r. f_equal. lia.
Qed.

Lemma tally_rel_refl (s : Matrix_state) : tally_rel s s.
Proof. exists []. by rewrite app_nil_r, !Z.add_0_r. Qed.

Lemma tally_rel_trans (s1 s2 s3 : Matrix_state) :
  tally_rel s1 s2 → tally_rel s2 s3 → tally_rel s1 s3.
Proof.
  intros (evs1 & H1 & P1 & R1) (evs2 & H2 & P2 & R2). exists (evs1 ++ evs2).
  split; [by rewrite H2, H1, app_assoc|].
  rewrite !reports_of_app, P2, R2. unfold wrap32 in *.
  split.
  - rewrite <- Zplus_mod_idemp_l, P1, Zplus_mod_idemp_l. f_equal. lia.
  - rewrite <- Zplus_mod_idemp_l, R1, Zplus_mod_idemp_l. f_equal. lia.
Qed.

Lemma tally_rel_quiet (s s' : Matrix_state) (evs : list event) :
  trace s' = trace s ++ evs → Forall quiet evs →
  Matrix_timesPress s' = Matrix_timesPress s →
  Matrix_timesRelease s' = Matrix_timesRelease s →
  tally_rel s s'.
Proof.
  intros Htr Hq Hp Hr. exists evs. split; [done|].
  by rewrite !(reports_of_quiet _ _ Hq), !Z.add_0_r, Hp, Hr.
Qed.

Lemma scan_key_tally (T scanNum : Z) (d : bool) (key : Z) (s s' : Matrix_state) :
  scan_key T scanNum d key s = Some s' → tally_rel s s'.
Proof.
  intros Hsk.
  destruct (scan_key_exact _ _ _ _ _ _ Hsk) as (st0 & _ & _ & _ & Htr & Hh).
  eexists. split; [exact Htr|]. rewrite !scan_events_reports.
  destruct (scan_notify T scanNum d (Matrix_divCounter s)
              (Matrix_repeatThreshold s) st0) as [|c [|c' l]] eqn:Hn.
  - destruct Hh as [-> ->]. rewrite !bool_decide_eq_false_2 by done.
    by rewrite !Z.add_0_r.
  - destruct c; try (destruct Hh as [-> ->];
      rewrite !bool_decide_eq_false_2 by (intros ?; simplify_eq);
      by rewrite !Z.add_0_r).
    + destruct Hh as [Hi ->]. rewrite bool_decide_eq_true_2 by done.
      rewrite bool_decide_eq_false_2 by (intros ?; simplify_eq).
      rewrite Z.add_0_r. split; [|done]. by eapply total_incr32.
    + destruct Hh as [Hi ->].
      rewrite bool_decide_eq_false_2 by (intros ?; simplify_eq).
      rewrite bool_decide_eq_true_2 by done.
      rewrite Z.add_0_r. split; [done|]. by eapply total_incr32.
  - destruct c; destruct Hh as [-> ->];
      rewrite !bool_decide_eq_false_2 by (intros ?; simplify_eq);
      by rewrite !Z.add_0_r.
Qed.

Lemma Matrix_scan_tally (scanNum : Z) (sense_in : Z → Z → bool)
    (s s' : Matrix_state) :
  config_ok → wf s → Matrix_scan scanNum sense_in s = Some s' → tally_rel s s'.
Proof.
  intros Hcfg Hwf Hscan.
  destruct (Matrix_scan_steps _ _ _ _ Hscan)
    as [[_ ->]|(_ & s2 & s3 & H2 & H3 & H4)].
  { apply (tally_rel_quiet _ _ []); by rewrite ?app_nil_r. }
  destruct (scan_stats_effect _ _ _ H2) as (_ & Htr2 & _ & _ & Hr2 & Hp2 & _).
  assert (Hpin : ∀ strobe type t, True →
            True ∧ tally_rel t
                     (set_trace (trace t ++ [Matrix_pin_strobe strobe type]) t)).
  { intros strobe type t _. split; [done|].
    by apply (tally_rel_quiet _ _ [Matrix_pin_strobe strobe type]);
      [|apply Forall_singleton|..]. }
  assert (Hkey : ∀ d key t t', 0 ≤ key → True →
            scan_key DebounceDivThreshold_define scanNum d key t = Some t' →
            True ∧ tally_rel t t').
  { intros d key t t' _ _ Hsk. split; [done|]. by eapply scan_key_tally. }
  destruct (scan_loops_lift (λ _, True) tally_rel scanNum sense_in
              tally_rel_refl tally_rel_trans Hpin Hkey s2 s3 I H3) as [_ R3].
  pose proof (wf_scan_stats _ _ _ H2 (wf_tick _ _ Hwf)) as Hwf2.
  pose proof (scan_loops_wf _ _ _ _ Hcfg Hwf2 H3) as Hwf3.
  destruct (debug_state_table_effect scanNum s3) as (evs & Hq & _ & _ & H4');
    [by destruct Hcfg as (_ & _ & ?)|by destruct Hwf3|].
  rewrite H4' in H4. simplify_eq.
  eapply tally_rel_trans; [|eapply tally_rel_trans; [exact R3|]].
  - apply (tally_rel_quiet _ _ []); by rewrite ?app_nil_r.
  - apply (tally_rel_quiet _ _ evs); try done;
      by destruct (0 <? matrixDebugStateCounter s3).
Qed.

(** ** What the scan prints *)

Lemma scan_events_resolved (T scanNum : Z) (d : bool) (key tick threshold mode : Z)
    (st0 : KeyState) :
  resolved st0 →
  scan_events T scanNum d key tick threshold mode st0
  = match scan_notify T scanNum d tick threshold st0 with
    | [] => []
    | c :: _ =>
        Macro_keyState key c
        :: debug_output mode key (scan_entry T scanNum d tick threshold st0)
    end.
Proof.
  intros Hres. unfold scan_events, scan_notify.
  destruct (bool_decide (curState (debounce T d (reset_state scanNum st0))
                         = KeyState_Invalid)) eqn:Hinv; [|done].
  destruct (wrap32 (tick - lastChangeCounter
                             (debounce T d (reset_state scanNum st0)))
            <? threshold); [done|]. simpl.
  destruct (resolving_prev_valid T scanNum d st0 Hres
              (bool_decide_eq_true_1 _ Hinv)) as [_ Hprev].
  by rewrite bool_decide_eq_false_2.
Qed.

Lemma scan_entry_prev (T scanNum : Z) (d : bool) (tick threshold : Z)
    (st0 : KeyState) :
  prevState (scan_entry T scanNum d tick threshold st0)
  = prevState (debounce T d (reset_state scanNum st0)).
Proof.
  unfold scan_entry. set (st := debounce T d (reset_state scanNum st0)).
  case_bool_decide; [|done].
  destruct (wrap32 (tick - lastChangeCounter st) <? threshold); [done|].
  destruct (prevState st) eqn:Hp, (inactiveCount st <? activeCount st);
    simpl; congruence.
Qed.

(** A key is reported as pressed only from Release or Off. *)
Lemma scan_notify_press (T scanNum : Z) (d : bool) (tick threshold : Z)
    (st0 : KeyState) (l : list KeyPosition) :
  scan_notify T scanNum d tick threshold st0 = KeyState_Press :: l →
  curState (scan_entry T scanNum d tick threshold st0) = KeyState_Press
  ∧ prevState (scan_entry T scanNum d tick threshold st0) ≠ KeyState_Press.
Proof.
  unfold scan_notify. rewrite scan_entry_prev.
  destruct (bool_decide _ && negb _) eqn:Hc; [|done].
  intros Hn. simplify_eq. split; [done|].
  apply andb_true_iff in Hc as [Hinv Hlt].
  apply negb_true_iff in Hlt.
  revert H. unfold scan_entry. rewrite Hinv, Hlt.
  set (st := debounce T d (reset_state scanNum st0)).
  destruct (prevState st) eqn:Hp; try done;
    by destruct (inactiveCount st <? activeCount st).
Qed.

Lemma printed_keys_app (evs1 evs2 : list event) :
  printed_keys (evs1 ++ evs2) = printed_keys evs1 ++ printed_keys evs2.
Proof.
  induction evs1 as [|e evs1 IH]; [done|]. destruct e; simpl; by rewrite ?IH.
Qed.

Lemma pressed_keys_app (evs1 evs2 : list event) :
  pressed_keys (evs1 ++ evs2) = pressed_keys evs1 ++ pressed_keys evs2.
Proof.
  induction evs1 as [|e evs1 IH]; [done|].
  destruct e as [k []| | | | | | | |]; simpl; by rewrite ?IH.
Qed.

(** In debug mode 1 the scan of a key prints its code exactly when it
    reports the key as pressed. *)
Lemma scan_events_mode1 (T scanNum : Z) (d : bool) (key tick threshold : Z)
    (st0 : KeyState) :
  resolved st0 →
  printed_keys (scan_events T scanNum d key tick threshold 1 st0)
  = pressed_keys (scan_events T scanNum d key tick threshold 1 st0).
Proof.
  intros Hres. rewrite scan_events_resolved by done.
  destruct (scan_notify T scanNum d tick threshold st0) as [|c l] eqn:Hn;
    [done|].
  unfold debug_output. simpl.
  destruct (decide (c = KeyState_Press)) as [->|Hc].
  - destruct (scan_notify_press _ _ _ _ _ _ _ Hn) as [Hcur Hprev].
    rewrite Hcur. repeat case_bool_decide; simpl; congruence.
  - assert (Hcur : curState (scan_entry T scanNum d tick threshold st0) = c).
    { revert Hn. unfold scan_notify. destruct (bool_decide _ && negb _); [|done].
      by intros ?; simplify_eq. }
    rewrite Hcur. repeat case_bool_decide; simpl; try congruence;
      by destruct c.
Qed.

(** With debugging off the scan of a key prints nothing. *)
Lemma scan_events_mode0 (T scanNum : Z) (d : bool) (key tick threshold : Z)
    (st0 : KeyState) :
  resolved st0 →
  Forall (λ e, is_print e = false)
    (scan_events T scanNum d key tick threshold 0 st0).
Proof.
  intros Hres. rewrite scan_events_resolved by done.
  destruct (scan_notify T scanNum d tick threshold st0) as [|c l]; [done|].
  unfold debug_output. simpl. by repeat constructor.
Qed.

(** An invocation on globals with resolved entries, in the debug mode
    [m] and with no table requested: the trace grows by events with the
    property [P], when the strobe events and the events of every key
    scan have it. *)
Lemma Matrix_scan_grows (P : list event → Prop) (m : Z) (scanNum : Z)
    (sense_in : Z → Z → bool) (s s' : Matrix_state) :
  P [] →
  (∀ evs1 evs2, P evs1 → P evs2 → P (evs1 ++ evs2)) →
  (∀ strobe type, P [Matrix_pin_strobe strobe type]) →
  (∀ n d key tick threshold st0, resolved st0 →
     P (scan_events DebounceDivThreshold_define n d key tick threshold m st0)) →
  config_ok → wf s →
  Forall resolved (Matrix_scanArray s) →
  matrixDebugMode s = m → matrixDebugStateCounter s ≤ 0 →
  Matrix_scan scanNum sense_in s = Some s' →
  grows_by P s s'
  ∧ Forall resolved (Matrix_scanArray s')
  ∧ matrixDebugMode s' = m
  ∧ matrixDebugStateCounter s' = matrixDebugStateCounter s.
Proof.
  intros Hnil Happ Hpin Hev Hcfg Hwf Hres Hmode Hc Hscan.
  destruct (Matrix_scan_steps _ _ _ _ Hscan)
    as [[_ ->]|(_ & s2 & s3 & H2 & H3 & H4)].
  { split; [|done]. exists []. split; [|done]. simpl. by rewrite app_nil_r. }
  destruct (scan_stats_effect _ _ _ H2)
    as (Ha2 & Htr2 & _ & _ & _ & _ & Hm2 & Hc2 & _).
  simpl in Ha2, Htr2, Hm2, Hc2.
  set (I := λ t : Matrix_state,
         Forall resolved (Matrix_scanArray t) ∧ matrixDebugMode t = m
         ∧ matrixDebugStateCounter t = matrixDebugStateCounter s).
  assert (Hpin' : ∀ strobe type t, I t →
            I (set_trace (trace t ++ [Matrix_pin_strobe strobe type]) t)
            ∧ grows_by P t
                (set_trace (trace t ++ [Matrix_pin_strobe strobe type]) t)).
  { intros strobe type t Ht. split; [done|]. by eexists. }
  assert (Hkey : ∀ d key t t', 0 ≤ key → I t →
            scan_key DebounceDivThreshold_define scanNum d key t = Some t' →
            I t' ∧ grows_by P t t').
  { intros d key t t' _ (Hr & Hm & Hct) Hsk.
    destruct (scan_key_exact _ _ _ _ _ _ Hsk)
      as (st0 & Hst0 & (_ & _ & Hm' & Hc' & _) & Harr & Htr & _).
    pose proof (Forall_lookup_1 _ _ _ _ Hr Hst0) as Hr0.
    split.
    - split_and!; [|congruence|congruence]. rewrite Harr.
      apply Forall_insert; [done|].
      by destruct (scan_entry_follows DebounceDivThreshold_define scanNum d
                     (Matrix_divCounter t) (Matrix_repeatThreshold t) st0 Hr0).
    - eexists. split; [exact Htr|]. rewrite Hm. by apply Hev. }
  destruct (scan_loops_lift I (grows_by P) scanNum sense_in
              (λ t, grows_by_refl P t Hnil)
              (λ t1 t2 t3, grows_by_trans P t1 t2 t3 Happ)
              Hpin' Hkey s2 s3) as [(Hr3 & Hm3 & Hc3) R3]; [|done|].
  { unfold I. by rewrite Ha2, Hm2, Hc2. }
  unfold debug_state_table in H4.
  destruct (Z.ltb_spec 0 (matrixDebugStateCounter s3)); [lia|].
  simplify_eq. split_and!; [|done..].
  destruct R3 as (evs & Htr3 & HP). exists evs. split; [|done].
  by rewrite Htr3, Htr2.
Qed.

(** ** The state table, exactly *)

Lemma tables_app (evs1 evs2 : list event) :
  tables (evs1 ++ evs2) = tables evs1 + tables evs2.
Proof.
  induction evs1 as [|e evs1 IH]; [done|]. destruct e; simpl; rewrite ?IH; lia.
Qed.

Lemma tables_table_rows (entries : list KeyState) (key : Z) :
  tables (table_rows key entries) = 0.
Proof.
  revert key. induction entries as [|st entries IH]; intros key; [done|].
  simpl. rewrite tables_app, IH. unfold table_row.
  by destruct (key `mod` 4 =? 0).
Qed.

Lemma tables_table_output (scanNum : Z) (s : Matrix_state) :
  tables (table_output scanNum s) = 1.
Proof.
  unfold table_output. rewrite !tables_app, tables_table_rows. done.
Qed.

Lemma tables_scan_events (T scanNum : Z) (d : bool) (key tick threshold mode : Z)
    (st0 : KeyState) :
  tables (scan_events T scanNum d key tick threshold mode st0) = 0.
Proof.
  unfold scan_events. destruct (bool_decide _ && negb _); [|done].
  rewrite tables_app. simpl.
  assert (Hd : ∀ st, tables (debug_output mode key st) = 0).
  { intros st. unfold debug_output.
    destruct (negb (mode =? 0) && negb (bool_decide (curState st = prevState st)));
      [|done].
    destruct ((mode =? 1) && bool_decide (curState st = KeyState_Press)); [done|].
    by destruct (mode =? 2). }
  rewrite Hd. by case_bool_decide.
Qed.

Lemma set_trace_set_trace (l1 l2 : list event) (s : Matrix_state) :
  set_trace (trace (set_trace (trace s ++ l1) s) ++ l2) (set_trace (trace s ++ l1) s)
  = set_trace (trace s ++ l1 ++ l2) s.
Proof. simpl. by rewrite app_assoc. Qed.

Lemma emit_set_trace (e : event) (l : list event) (s : Matrix_state) :
  emit e (set_trace l s) = Some (set_trace (l ++ [e]) s).
Proof. reflexivity. Qed.

Lemma table_loop (l : list KeyState) :
  ∀ (m : Z) (pre : list KeyState) (s : Matrix_state),
    0 ≤ m →
    Matrix_scanArray s = pre ++ l →
    length pre = Z.to_nat m →
    for_each (seqZ m (Z.of_nat (length l)))
      (λ key s,
         state ← Matrix_scanArray s !! Z.to_nat key;
         (when (key mod 4 =? 0) (emit (print NL))
          >>> emit (print (ESC +:+ "[1m0x"))
          >>> emit (printHex_op key 2)
          >>> emit (print (ESC +:+ "[0m"))
          >>> emit (print ":")
          >>> Matrix_keyPositionDebug (prevState state)
          >>> Matrix_keyPositionDebug (curState state)
          >>> emit (print " 0x")
          >>> emit (printHex_op (activeCount state) 4)
          >>> emit (print " 0x")
          >>> emit (printHex_op (inactiveCount state) 4)
          >>> emit (print " ")) s) s
    = Some (set_trace (trace s ++ table_rows m l) s).
Proof.
  induction l as [|st l IH]; intros m pre s Hm Harr Hpre.
  - simpl. unfold skip. by rewrite set_trace_nil.
  - rewrite seqZ_cons by (simpl; lia). cbn [for_each].
    replace (Z.pred (Z.of_nat (length (st :: l)))) with (Z.of_nat (length l))
      by (simpl; lia).
    assert (Hst : Matrix_scanArray s !! Z.to_nat m = Some st).
    { rewrite Harr, <- Hpre. by apply list_lookup_middle. }
    eapply and_then_intro.
    { rewrite Hst. simpl. rewrite !keyPositionDebug_glyph.
      instantiate (1 := set_trace (trace s ++ table_row m st) s).
      unfold table_row, and_then, when, emit, modify, skip.
      destruct (m `mod` 4 =? 0); simpl; by rewrite <- ?app_assoc. }
    rewrite (IH (Z.succ m) (pre ++ [st])); [| lia | |].
    + rewrite set_trace_set_trace. reflexivity.
    + simpl. by rewrite Harr, <- app_assoc.
    + rewrite length_app. simpl. lia.
Qed.

Lemma debug_state_table_exact (scanNum : Z) (s : Matrix_state) :
  Matrix_maxKeys ≤ 255 →
  length (Matrix_scanArray s) = Z.to_nat Matrix_maxKeys →
  0 < matrixDebugStateCounter s →
  debug_state_table scanNum s
  = Some (set_trace (trace s ++ table_output scanNum s)
            (set_debugStateCounter (matrixDebugStateCounter s - 1) s)).
Proof.
  intros Hkeys Hlen Hc. unfold debug_state_table.
  replace (0 <? matrixDebugStateCounter s) with true
    by (symmetry; by apply Z.ltb_lt).
  eapply and_then_intro; [reflexivity|].
  eapply and_then_intro; [reflexivity|].
  do 10 (eapply and_then_intro; [apply emit_set_trace|]).
  eapply and_then_intro.
  { unfold for_uint8. rewrite bool_decide_eq_true_2 by done.
    replace (seqZ 0 Matrix_maxKeys)
      with (seqZ 0 (Z.of_nat (Z.to_nat Matrix_maxKeys)))
      by (unfold seqZ; by rewrite Nat2Z.id).
    rewrite <- Hlen.
    apply (table_loop (Matrix_scanArray s) 0 []); [lia|reflexivity|reflexivity]. }
  rewrite emit_set_trace. f_equal. unfold table_output.
  cbn [trace set_trace set_debugStateCounter Matrix_scanArray].
  rewrite <- !app_assoc. reflexivity.
Qed.

(** An invocation that is not throttled prints the table once, after
    the scan, when the counter is positive, and not otherwise. *)
Lemma Matrix_scan_dump (scanNum : Z) (sense_in : Z → Z → bool)
    (s s' : Matrix_state) :
  config_ok → wf s →
  throttled (set_divCounter (wrap32 (Matrix_divCounter s + 1)) s) = false →
  Matrix_scan scanNum sense_in s = Some s' →
  ∃ evs,
    tables evs = 0
    ∧ (0 < matrixDebugStateCounter s →
       trace s' = trace s ++ evs ++ table_output scanNum s'
       ∧ matrixDebugStateCounter s' = matrixDebugStateCounter s - 1)
    ∧ (matrixDebugStateCounter s ≤ 0 →
       trace s' = trace s ++ evs
       ∧ matrixDebugStateCounter s' = matrixDebugStateCounter s).
Proof.
  intros Hcfg Hwf Hthr Hscan.
  destruct (Matrix_scan_steps _ _ _ _ Hscan)
    as [[Hthr' _]|(_ & s2 & s3 & H2 & H3 & H4)]; [congruence|].
  destruct (scan_stats_effect _ _ _ H2)
    as (_ & Htr2 & _ & _ & _ & _ & _ & Hc2 & _).
  simpl in Htr2, Hc2.
  set (I := λ t : Matrix_state,
         matrixDebugStateCounter t = matrixDebugStateCounter s).
  set (P := λ evs : list event, tables evs = 0).
  assert (Hpin : ∀ strobe type t, I t →
            I (set_trace (trace t ++ [Matrix_pin_strobe strobe type]) t)
            ∧ grows_by P t
                (set_trace (trace t ++ [Matrix_pin_strobe strobe type]) t)).
  { intros strobe type t Ht. split; [done|]. by eexists. }
  assert (Hkey : ∀ d key t t', 0 ≤ key → I t →
            scan_key DebounceDivThreshold_define scanNum d key t = Some t' →
            I t' ∧ grows_by P t t').
  { intros d key t t' _ Ht Hsk.
    destruct (scan_key_exact _ _ _ _ _ _ Hsk)
      as (st0 & _ & (_ & _ & _ & Hc' & _) & _ & Htr & _).
    split; [unfold I in *; congruence|].
    eexists. split; [exact Htr|]. apply tables_scan_events. }
  assert (Happ : ∀ evs1 evs2, P evs1 → P evs2 → P (evs1 ++ evs2)).
  { unfold P. intros evs1 evs2 H1 H2'. rewrite tables_app. lia. }
  destruct (scan_loops_lift I (grows_by P) scanNum sense_in
              (λ t, grows_by_refl P t eq_refl)
              (λ t1 t2 t3, grows_by_trans P t1 t2 t3 Happ)
              Hpin Hkey s2 s3 Hc2 H3) as [Hc3 (evs & Htr3 & Hev)].
  unfold I in Hc3.
  pose proof (wf_scan_stats _ _ _ H2 (wf_tick _ _ Hwf)) as Hwf2.
  pose proof (scan_loops_wf _ _ _ _ Hcfg Hwf2 H3) as Hwf3.
  exists evs. split; [done|]. split; intros Hc.
  - rewrite debug_state_table_exact in H4;
      [|by destruct Hcfg as (_ & _ & ?)|by destruct Hwf3|lia].
    simplify_eq. simpl. rewrite Htr3, Htr2, Hc3, <- app_assoc. done.
  - unfold debug_state_table in H4.
    destruct (Z.ltb_spec 0 (matrixDebugStateCounter s3)); [lia|].
    simplify_eq. by rewrite Htr3, Htr2.
Qed.

Lemma run_dumps (calls : list (Z * (Z → Z → bool))) (s s' : Matrix_state) :
  config_ok → wf s → DebounceThrottleDiv_define ≤ 0 →
  0 ≤ matrixDebugStateCounter s →
  run calls s = Some s' →
  ∃ evs,
    trace s' = trace s ++ evs
    ∧ tables evs = Z.min (Z.of_nat (length calls)) (matrixDebugStateCounter s)
    ∧ matrixDebugStateCounter s'
      = Z.max 0 (matrixDebugStateCounter s - Z.of_nat (length calls)).
Proof.
  intros Hcfg Hwf Hd. revert s Hwf.
  induction calls as [|c calls IH]; intros s Hwf Hc Hrun.
  - rewrite run_nil in Hrun. simplify_eq. exists []. rewrite app_nil_r.
    simpl. split_and!; [done|lia|lia].
  - apply run_cons in Hrun as (s1 & H1 & Hrun).
    pose proof (Matrix_scan_wf _ _ _ _ Hcfg Hwf H1) as Hwf1.
    destruct (Matrix_scan_dump _ _ _ _ Hcfg Hwf (throttled_off _ Hd) H1)
      as (evs1 & Ht1 & Hpos & Hzero).
    rewrite length_cons.
    destruct (Z_lt_le_dec 0 (matrixDebugStateCounter s)) as [Hlt|Hle].
    + destruct (Hpos Hlt) as [Htr1 Hc1].
      destruct (IH s1 Hwf1 ltac:(lia) Hrun) as (evs & Htr & Ht & Hc').
      exists (evs1 ++ table_output c.1 s1 ++ evs).
      split_and!.
      * by rewrite Htr, Htr1, <- !app_assoc.
      * rewrite !tables_app, tables_table_output, Ht1, Ht, Hc1. lia.
      * rewrite Hc', Hc1. lia.
    + destruct (Hzero Hle) as [Htr1 Hc1].
      destruct (IH s1 Hwf1 ltac:(lia) Hrun) as (evs & Htr & Ht & Hc').
      exists (evs1 ++ evs). split_and!.
      * by rewrite Htr, Htr1, <- !app_assoc.
      * rewrite !tables_app, Ht1, Ht, Hc1. lia.
      * rewrite Hc', Hc1. lia.
Qed.

Lemma wf_set_debugStateCounter (v : Z) (s : Matrix_state) :
  wf s → wf (set_debugStateCounter v s).
Proof. done. Qed.

Lemma wf_set_debugMode (v : Z) (s : Matrix_state) :
  wf s → wf (set_debugMode v s).
Proof. done. Qed.

(** ** The strobe pins *)







(** ** The pin actions *)

Lemma pin_bit_testbit (gpio : GPIO_Pin) (j : Z) :
  0 ≤ pin gpio ≤ 31 → 0 ≤ j < 32 →
  Z.testbit (pin_bit gpio) j = (pin gpio =? j).
Proof.
  intros Hp Hj. unfold pin_bit, wrap32.
  rewrite Z.mod_pow2_bits_low by lia.
  rewrite Z.shiftl_1_l. apply Z.pow2_bits_eqb. lia.
Qed.

Lemma pin_mask_testbit (gpio : GPIO_Pin) (j : Z) :
  0 ≤ pin gpio ≤ 31 → 0 ≤ j < 32 →
  Z.testbit (pin_mask gpio) j = negb (pin gpio =? j).
Proof.
  intros Hp Hj. unfold pin_mask, wrap32.
  rewrite Z.mod_pow2_bits_low by lia.
  rewrite Z.lnot_spec by lia.
  rewrite Z.shiftl_1_l. f_equal. apply Z.pow2_bits_eqb. lia.
Qed.

Lemma land_bit_testbit (v : Z) (gpio : GPIO_Pin) :
  0 ≤ pin gpio ≤ 31 →
  (Z.land v (pin_bit gpio) =? 0) = negb (Z.testbit v (pin gpio)).
Proof.
  intros Hp. unfold pin_bit, wrap32.
  rewrite Z.shiftl_1_l, Z.mod_small.
  2: { split; [apply Z.pow_nonneg; lia|apply Z.pow_lt_mono_r; lia]. }
  rewrite land_pow2 by lia.
  destruct (Z.testbit v (pin gpio)); simpl; [|done].
  apply Z.eqb_neq. assert (0 < 2 ^ pin gpio) by (apply Z.pow_pos_nonneg; lia).
  lia.
Qed.

Lemma gpio_offset_bytes (gpio : GPIO_Pin) :
  0 ≤ port gpio < 2 ^ 26 → 4 * gpio_offset gpio = 64 * port gpio.
Proof.
  intros Hp. unfold gpio_offset, wrap32. rewrite Z.mod_small by lia.
  replace (port gpio * 64) with (port gpio * 16 * 4) by lia.
  rewrite Z.div_mul by lia. lia.
Qed.

Lemma port_offset_bytes (gpio : GPIO_Pin) :
  0 ≤ port gpio < 2 ^ 20 → 0 ≤ pin gpio < 1024 →
  4 * port_offset gpio = 4096 * port gpio + 4 * pin gpio.
Proof.
  intros Hp Hi. unfold port_offset, wrap32.
  rewrite (Z.mod_small (port gpio * 4096)) by lia.
  replace (port gpio * 4096) with (port gpio * 1024 * 4) by lia.
  rewrite Z.div_mul by lia. rewrite Z.mod_small by lia. lia.
Qed.

(** ** The counters of a held key that opens *)

Lemma scan_steady_open (T : Z) (steps : list (Z * Z * Z)) :
  0 ≤ T →
  activeCount (scan_steady T false steps (KeyState_held T))
  = Z.shiftr T (Z.of_nat (length steps))
  ∧ inactiveCount (scan_steady T false steps (KeyState_held T))
    = Z.min (Z.of_nat (length steps)) T.
Proof.
  intros HT. induction steps as [|p steps [IHa IHi]] using rev_ind.
  - simpl. split; [by rewrite Z.shiftr_0_r|lia].
  - rewrite scan_steady_snoc, length_app. simpl.
    destruct (scan_entry_counts T p.1.1 false p.1.2 p.2
                (scan_steady T false steps (KeyState_held T))) as [-> ->].
    unfold debounce.
    destruct (Z.ltb_spec
                (inactiveCount (scan_steady T false steps (KeyState_held T))) T)
      as [Hlt|Hge]; simpl; rewrite ?IHa, ?IHi in *.
    + split; [|lia]. rewrite Z.shiftr_shiftr by lia. f_equal. lia.
    + split; [|lia]. rewrite Z.shiftr_shiftr by lia. f_equal. lia.
Qed.

Lemma run_tick (calls : list (Z * (Z → Z → bool))) (s s' : Matrix_state) :
  config_ok → wf s → run calls s = Some s' →
  Matrix_divCounter s' = wrap32 (Matrix_divCounter s + Z.of_nat (length calls))
                         ∨ (calls = [] ∧ s' = s).
Proof.
  intros Hcfg. revert s. induction calls as [|c calls IH]; intros s Hwf Hrun.
  - rewrite run_nil in Hrun. simplify_eq. by right.
  - apply run_cons in Hrun as (s1 & H1 & Hrun). left.
    destruct (Matrix_scan_globals _ _ _ _ Hcfg Hwf H1) as (Hd & _).
    destruct (IH s1 (Matrix_scan_wf _ _ _ _ Hcfg Hwf H1) Hrun) as [->|[-> ->]].
    + rewrite Hd, length_cons. unfold wrap32.
      rewrite Zplus_mod_idemp_l. f_equal. lia.
    + rewrite Hd. simpl. done.
Qed.

Lemma run_globals (calls : list (Z * (Z → Z → bool))) (s s' : Matrix_state) :
  config_ok → wf s → run calls s = Some s' →
  Matrix_repeatThreshold s' = Matrix_repeatThreshold s
  ∧ matrixDebugMode s' = matrixDebugMode s.
Proof.
  intros Hcfg Hwf Hrun.
  destruct (run_invariant
              (λ t, Matrix_repeatThreshold t = Matrix_repeatThreshold s
                    ∧ matrixDebugMode t = matrixDebugMode s)
              calls s s') as (_ & HJ); try done.
  intros scanNum sense_in t t' Hwft [Ht Hm] Hscan.
  destruct (Matrix_scan_globals _ _ _ _ Hcfg Hwft Hscan) as (_ & Ht' & Hm').
  split; congruence.
Qed.

(** ** The claims *)

(** C1: a key whose entry reaches the state resolution (after the reset
    and the counters the current state is [KeyState_Invalid] and the
    ticks since the last change, [diff], have reached the repeat
    threshold).  From Press or Hold the entry becomes Hold when
    [activeCount > inactiveCount], with the histograms and the last
    change tick untouched, and otherwise Release, with bucket
    [floor(log2(diff))] of the release histogram incremented (modulo
    [2^32], as a [uint32_t]) and the last change tick set to the tick
    counter.  From Release or Off it becomes Press when
    [activeCount > inactiveCount], with the bucket of the press
    histogram incremented and the last change tick set, and otherwise
    Off with nothing recorded and the last change tick unchanged. *)
Theorem C1_state_resolution (T scanNum : Z) (detected : bool) (key : Z)
    (s : Matrix_state) (st0 : KeyState) :
  let st := debounce T detected (reset_state scanNum st0) in
  let diff := wrap32 (Matrix_divCounter s - lastChangeCounter st) in
  let b := Z.to_nat (Z.log2 diff) in
  Matrix_scanArray s !! Z.to_nat key = Some st0 →
  length (Matrix_timesRelease s) = 32%nat →
  length (Matrix_timesPress s) = 32%nat →
  curState st = KeyState_Invalid →
  Matrix_repeatThreshold s ≤ diff →
  0 < diff →
  ∃ s' st',
    scan_key T scanNum detected key s = Some s'
    ∧ Matrix_scanArray s' !! Z.to_nat key = Some st'
    ∧ (prevState st = KeyState_Press ∨ prevState st = KeyState_Hold →
       (inactiveCount st < activeCount st →
        curState st' = KeyState_Hold
        ∧ lastChangeCounter st' = lastChangeCounter st
        ∧ Matrix_timesRelease s' = Matrix_timesRelease s
        ∧ Matrix_timesPress s' = Matrix_timesPress s)
       ∧ (activeCount st ≤ inactiveCount st →
          curState st' = KeyState_Release
          ∧ lastChangeCounter st' = Matrix_divCounter s
          ∧ (∃ v, Matrix_timesRelease s !! b = Some v
                  ∧ Matrix_timesRelease s'
                    = <[b := wrap32 (v + 1)]> (Matrix_timesRelease s))
          ∧ Matrix_timesPress s' = Matrix_timesPress s))
    ∧ (prevState st = KeyState_Release ∨ prevState st = KeyState_Off →
       (inactiveCount st < activeCount st →
        curState st' = KeyState_Press
        ∧ lastChangeCounter st' = Matrix_divCounter s
        ∧ (∃ v, Matrix_timesPress s !! b = Some v
                ∧ Matrix_timesPress s'
                  = <[b := wrap32 (v + 1)]> (Matrix_timesPress s))
        ∧ Matrix_timesRelease s' = Matrix_timesRelease s)
       ∧ (activeCount st ≤ inactiveCount st →
          curState st' = KeyState_Off
          ∧ lastChangeCounter st' = lastChangeCounter st
          ∧ Matrix_timesRelease s' = Matrix_timesRelease s
          ∧ Matrix_timesPress s' = Matrix_timesPress s)).
Proof.
  intros st diff b Hst0 Hlr Hlp Hinvalid Hge Hdiff.
  destruct (bucket_of_wrap32 _ Hdiff) as [Hb Hb32]. fold diff in Hb, Hb32.
  assert (Hk : (Z.to_nat key < length (Matrix_scanArray s))%nat)
    by by eapply lookup_lt_Some.
  destruct (incr32_Some (Matrix_timesRelease s) (bucket_of diff))
    as (vr & Hvr & Her); [rewrite Hb; lia|].
  destruct (incr32_Some (Matrix_timesPress s) (bucket_of diff))
    as (vp & Hvp & Hep); [rewrite Hb; lia|].
  rewrite Hb in Hvr, Hvp. fold b in Hvr, Hvp.
  destruct (resolve (bucket_of diff) st s) as [[st' s1]|] eqn:Hres.
  2: { unfold resolve in Hres. rewrite Her, Hep in Hres.
       destruct (prevState st), (inactiveCount st <? activeCount st); done. }
  assert (Harr : Matrix_scanArray s1 = Matrix_scanArray s).
  { unfold resolve in Hres. rewrite Her, Hep in Hres.
    destruct (prevState st), (inactiveCount st <? activeCount st);
      simpl in Hres; by simplify_eq. }
  destruct (scan_key_resolving T scanNum detected key s s1 st0 st'
              Hst0 Hinvalid Hge Hres Harr) as (evs & Hscan & _ & _).
  eexists _, st'. split; [exact Hscan|]. simpl.
  split; [by apply list_lookup_insert_eq|].
  unfold resolve in Hres. rewrite Her, Hep, Hb in Hres. fold b in Hres.
  split; intros Hprev; split; intros Hcmp;
    (destruct (Z.ltb_spec (inactiveCount st) (activeCount st)); [|try lia]);
    try lia;
    destruct Hprev as [Hprev|Hprev]; rewrite Hprev in Hres;
    simpl in Hres; simplify_eq; simpl; split_and!; eauto.
Qed.

(** C2: from the globals [Matrix_setup] establishes, after any earlier
    invocations, a scan pass (an invocation with [scanNum == 0] and the
    invocations with [scanNum != 0] that follow it) runs to its end,
    calls [Macro_keyState] at most once for the key, and leaves the
    key's current state different from [KeyState_Invalid]. *)
Theorem C2_notify_once_per_pass (earlier pass : list (Z * (Z → Z → bool)))
    (key : Z) :
  config_ok → 0 ≤ key < Matrix_maxKeys → is_pass pass →
  ∃ s0 s1 s2 evs st,
    Matrix_setup boot = Some s0
    ∧ run earlier s0 = Some s1
    ∧ run pass s1 = Some s2
    ∧ trace s2 = trace s1 ++ evs
    ∧ (keyState_calls key evs ≤ 1)%nat
    ∧ Matrix_scanArray s2 !! Z.to_nat key = Some st
    ∧ curState st ≠ KeyState_Invalid.
Proof.
  intros Hcfg Hkey Hpass.
  destruct (Matrix_setup_boot Hcfg) as (s0 & H0 & Hwf0 & Harr0 & _).
  assert (Hres0 : Forall resolved (Matrix_scanArray s0)).
  { rewrite Harr0. apply Forall_replicate, cleared_resolved. }
  destruct (run_spec key earlier s0 Hcfg Hwf0)
    as (s1 & H1 & Hwf1 & _ & _ & _ & _ & _ & _ & Hres1 & _).
  destruct (run_spec key pass s1 Hcfg Hwf1)
    as (s2 & H2 & Hwf2 & _ & _ & _ & _ & _ & _ & Hres2 & _ & evs & Htr & Hev).
  destruct (Hev (Hres1 Hres0)) as [Hcalls _].
  destruct (lookup_lt_is_Some_2 (Matrix_scanArray s2) (Z.to_nat key))
    as [st Hst]; [destruct Hwf2 as [-> _]; lia|].
  exists s0, s1, s2, evs, st. split_and!; try done.
  - etransitivity; [exact Hcalls|]. apply pass_visits; [|done].
    destruct Hcfg as (_ & _ & ?). lia.
  - by apply (Forall_lookup_1 _ _ _ _ (Hres2 (Hres1 Hres0)) Hst).
Qed.

(** C3: after [Matrix_setup] and any sequence of invocations of
    [Matrix_scan], whatever the sense pins show, both counters of every
    entry are at least 0 and at most the threshold; the same holds in
    every state the globals go through on the way, inside the
    invocations. *)
Theorem C3_counters_saturate (calls : list (Z * (Z → Z → bool))) :
  config_ok → 0 ≤ DebounceDivThreshold_define →
  ∃ s0 s,
    Matrix_setup boot = Some s0
    ∧ run calls s0 = Some s
    ∧ (∀ key st, Matrix_scanArray s !! key = Some st →
         (0 ≤ activeCount st ≤ DebounceDivThreshold_define)
         ∧ (0 ≤ inactiveCount st ≤ DebounceDivThreshold_define))
    ∧ (∀ t, reachable t → ∀ key st, Matrix_scanArray t !! key = Some st →
         (0 ≤ activeCount st ≤ DebounceDivThreshold_define)
         ∧ (0 ≤ inactiveCount st ≤ DebounceDivThreshold_define)).
Proof.
  intros Hcfg HT.
  destruct (Matrix_setup_boot Hcfg) as (s0 & H0 & Hwf0 & Harr0 & _).
  assert (Hall0 : Forall counts_ok (Matrix_scanArray s0)).
  { rewrite Harr0. by apply Forall_replicate, cleared_counts_ok. }
  destruct (run_spec 0 calls s0 Hcfg Hwf0)
    as (s & Hs & Hwf & _ & _ & _ & _ & _ & _ & _ & Hc & _).
  exists s0, s. split_and!; [done..| |].
  - intros key st Hst. apply (Forall_lookup_1 _ _ _ _ (Hc Hall0) Hst).
  - intros t Hreach.
    assert (Hinv : inv counts_ok t).
    { clear s Hs Hwf Hc.
      induction Hreach as
        [t0 Ht0|t sn si t' _ IH Ht|t _ IH|t sn t' _ IH Ht|t e t' _ IH He Ht
        |t sn d strobe sense t' _ IH Hstrobe Hsense Ht].
      - simplify_eq. by split.
      - destruct IH as [Hwf Hall].
        destruct (Matrix_scan_spec 0 sn si t Hcfg Hwf) as (u & Hu & Ru & _).
        simplify_eq. split; [by eapply scan_rel_wf|].
        destruct Ru as (_ & _ & _ & _ & _ & _ & _ & Hc & _). by apply Hc.
      - destruct IH as [Hwf Hall]. by split.
      - destruct IH as [Hwf Hall].
        unfold scan_stats, and_then, modify in Ht. simpl in Ht. simplify_eq.
        destruct (sn =? 0), (matrixMaxScans t <? sn); by split.
      - destruct IH as [Hwf Hall].
        unfold emit, modify in Ht. simplify_eq. by split.
      - destruct IH as [Hwf Hall].
        destruct (does_scan_key 0 sn d (key_of strobe sense)
                    (key_of_in_range _ _ Hstrobe Hsense) t Hwf)
          as (u & Hu & Ru). simplify_eq.
        split; [by eapply loop_rel_wf|].
        destruct Ru as ((_ & _ & _ & _ & _ & _ & _ & Hc & _) & _). by apply Hc. }
    destruct Hinv as [_ Hall].
    intros key st Hst. apply (Forall_lookup_1 _ _ _ _ Hall Hst).
Qed.

(** C4 (amended): when a key reaches the state resolution with the
    previous state [KeyState_Invalid], the scan of the key returns; it
    prints the diagnostic, leaves the current state
    [KeyState_Invalid] -- no other state is assigned -- and calls
    [Macro_keyState] with [KeyState_Invalid]. *)
Theorem C4_invalid_previous_state (T scanNum : Z) (detected : bool) (key : Z)
    (s : Matrix_state) (st0 : KeyState) :
  let st := debounce T detected (reset_state scanNum st0) in
  let diff := wrap32 (Matrix_divCounter s - lastChangeCounter st) in
  Matrix_scanArray s !! Z.to_nat key = Some st0 →
  curState st = KeyState_Invalid →
  Matrix_repeatThreshold s ≤ diff →
  prevState st = KeyState_Invalid →
  scan_key T scanNum detected key s
  = Some (set_trace
            (trace s ++ [erro_print "Matrix scan bug!! Report me!";
                         Macro_keyState key KeyState_Invalid])
            (set_scanArray (<[Z.to_nat key := st]> (Matrix_scanArray s)) s)).
Proof.
  intros st diff Hst0 Hinvalid Hge Hprev.
  destruct (scan_key_resolving T scanNum detected key s
              (set_trace (trace s ++ [erro_print "Matrix scan bug!! Report me!"]) s)
              st0 st Hst0 Hinvalid Hge) as (evs & Hscan & _ & Hevs).
  - unfold resolve. fold st. by rewrite Hprev.
  - done.
  - rewrite Hscan, Hevs by congruence. simpl.
    rewrite Hinvalid, <- app_assoc. done.
Qed.

(** C5: when, after the reset and the counters, the entry's current
    state is [KeyState_Invalid] and fewer ticks than the repeat
    threshold have passed since the last change, the scan of the key
    sets the current state to the previous state and does nothing else:
    no histogram changes, the last change tick stays, nothing is
    reported. *)
Theorem C5_repeat_suppression (T scanNum : Z) (detected : bool) (key : Z)
    (s : Matrix_state) (st0 : KeyState) :
  let st := debounce T detected (reset_state scanNum st0) in
  let diff := wrap32 (Matrix_divCounter s - lastChangeCounter st) in
  Matrix_scanArray s !! Z.to_nat key = Some st0 →
  curState st = KeyState_Invalid →
  diff < Matrix_repeatThreshold s →
  scan_key T scanNum detected key s
  = Some (set_scanArray
            (<[Z.to_nat key := set_curState (prevState st) st]> (Matrix_scanArray s))
            s).
Proof.
  intros st diff Hst0 Hinvalid Hlt.
  unfold scan_key. rewrite Hst0. cbn [mbind option_bind]. fold st.
  rewrite (bool_decide_eq_true_2 _ Hinvalid). fold diff.
  destruct (Z.ltb_spec diff (Matrix_repeatThreshold s)); [|lia].
  apply put_key_Some. by eapply lookup_lt_Some.
Qed.

(** C6 (amended): for every delta from 1 to [2^32 - 1] the bucket the
    code computes is [floor(log2(delta))], an index from 0 to 31, and a
    delta of [2^k] with [k] from 0 to 31 lands exactly in bucket [k].
    There is no clamp: for a delta of 0 the computed index is 255,
    outside the histogram. *)
Theorem C6_bucket_log2 (delta k : Z) :
  0 < delta < 2 ^ 32 → 0 ≤ k ≤ 31 →
  bucket_of delta = Z.log2 delta
  ∧ 0 ≤ bucket_of delta ≤ 31
  ∧ bucket_of (2 ^ k) = k
  ∧ bucket_of 0 = 255.
Proof.
  intros Hd Hk.
  pose proof (log2_below_32 delta Hd).
  rewrite (bucket_of_log2 delta Hd).
  repeat split; try lia.
  rewrite bucket_of_log2.
  - apply Z.log2_pow2; lia.
  - split; [apply Z.pow_pos_nonneg; lia|].
    apply Z.pow_lt_mono_r; lia.
Qed.

(** C7: an invocation of [Matrix_scan] returns with the tick counter
    incremented (modulo [2^32]).  With the throttle divider 1, an
    invocation that starts on an odd tick counter does nothing else: no
    entry, no statistic, no histogram changes and nothing is called;
    one that starts on an even tick counter goes on to the statistics;
    and the parity of the tick counter flips with every invocation, so
    every other invocation is skipped. *)
Theorem C7_throttle (scanNum : Z) (sense_in : Z → Z → bool) (s : Matrix_state) :
  config_ok → wf s →
  ∃ s', Matrix_scan scanNum sense_in s = Some s'
    ∧ Matrix_divCounter s' = wrap32 (Matrix_divCounter s + 1)
    ∧ Z.even (Matrix_divCounter s') = negb (Z.even (Matrix_divCounter s))
    ∧ (DebounceThrottleDiv_define = 1 →
       (Z.even (Matrix_divCounter s) = false →
        s' = set_divCounter (wrap32 (Matrix_divCounter s + 1)) s)
       ∧ (Z.even (Matrix_divCounter s) = true →
          matrixCurScans s'
          = (if scanNum =? 0 then 0 else wrap16 (matrixCurScans s + 1)))).
Proof.
  intros Hcfg Hwf.
  destruct (Matrix_scan_spec 0 scanNum sense_in s Hcfg Hwf)
    as (s' & Hs' & _ & Hdiv & Hskip & Hscan).
  exists s'. split_and!; [done|done|by rewrite Hdiv, even_wrap32_succ|].
  intros Hone.
  assert (Hthr : throttled (set_divCounter (wrap32 (Matrix_divCounter s + 1)) s)
                 = negb (Z.even (Matrix_divCounter s))).
  { unfold throttled. rewrite Hone. simpl.
    change (Z.shiftl 1 0) with 1. by rewrite land_1_even, even_wrap32_succ. }
  split; intros Hpar; rewrite Hpar in Hthr.
  - by apply Hskip.
  - by apply Hscan.
Qed.

(** C8: after [Matrix_setup] and any sequence of invocations of
    [Matrix_scan], [Macro_keyState] has never been called with
    [KeyState_Invalid]; and when the scan of a key, from there, calls
    [Macro_keyState], it is for that key, the entry was still
    [KeyState_Invalid] after the reset (the call resolves it), and the
    state passed is the one the entry then holds, which is not
    [KeyState_Invalid]. *)
Theorem C8_never_notifies_invalid (calls : list (Z * (Z → Z → bool))) (key : Z)
    (T scanNum : Z) (detected : bool) (k : Z) (sk : Matrix_state)
    (st0 : KeyState) (state : KeyPosition) :
  config_ok →
  ∃ s0 s,
    Matrix_setup boot = Some s0
    ∧ run calls s0 = Some s
    ∧ (Macro_keyState key KeyState_Invalid ∉ trace s)
    ∧ (Matrix_scanArray s !! Z.to_nat k = Some st0 →
       scan_key T scanNum detected k s = Some sk →
       Macro_keyState key state ∈ drop (length (trace s)) (trace sk) →
       key = k
       ∧ curState (debounce T detected (reset_state scanNum st0)) = KeyState_Invalid
       ∧ state ≠ KeyState_Invalid
       ∧ ∃ st', Matrix_scanArray sk !! Z.to_nat k = Some st'
                ∧ curState st' = state).
Proof.
  intros Hcfg.
  destruct (Matrix_setup_boot Hcfg) as (s0 & H0 & Hwf0 & Harr0 & _ & _ & _ & Hq0).
  assert (Hres0 : Forall resolved (Matrix_scanArray s0)).
  { rewrite Harr0. apply Forall_replicate, cleared_resolved. }
  destruct (run_spec 0 calls s0 Hcfg Hwf0)
    as (s & Hs & _ & _ & _ & _ & _ & _ & _ & Hres & _ & evs & Htr & Hev).
  destruct (Hev Hres0) as [_ Hok].
  exists s0, s. split_and!; [done..| |].
  - rewrite Htr. intros [Hin|Hin]%elem_of_app.
    + rewrite Forall_forall in Hq0. by apply (Hq0 _ Hin).
    + rewrite Forall_forall in Hok. by apply (Hok _ Hin).
  - intros Hst0 Hsk Hin.
    destruct (scan_key_notifies T scanNum detected k s sk st0 key state
                Hst0 Hsk Hin) as (Hkey & Hinvalid & Hvalid & Hst').
    split_and!; [done..| |done].
    apply Hvalid.
    pose proof (Forall_lookup_1 _ _ _ _ (Hres Hres0) Hst0) as Hr.
    by destruct (resolving_prev_valid T scanNum detected st0 Hr Hinvalid).
Qed.

(** C9 (amended): an invocation of [Matrix_scan] with [scanNum == 0]
    that is not throttled moves [matrixCurScans] to [matrixPrevScans]
    and sets [matrixCurScans] to 0; [matrixMaxScans], the running
    maximum of [scanNum], keeps its value. *)
Theorem C9_statistics_at_first_scan (sense_in : Z → Z → bool) (s : Matrix_state) :
  config_ok → wf s → 0 ≤ matrixMaxScans s →
  throttled (set_divCounter (wrap32 (Matrix_divCounter s + 1)) s) = false →
  ∃ s', Matrix_scan 0 sense_in s = Some s'
    ∧ matrixPrevScans s' = matrixCurScans s
    ∧ matrixCurScans s' = 0
    ∧ matrixMaxScans s' = matrixMaxScans s.
Proof.
  intros Hcfg Hwf Hmax Hthr.
  destruct (Matrix_scan_spec 0 0 sense_in s Hcfg Hwf)
    as (s' & Hs' & _ & _ & _ & Hscan).
  destruct (Hscan Hthr) as (Hm & Hc & Hp).
  exists s'. split_and!; try done.
  rewrite Hm. destruct (Z.ltb_spec (matrixMaxScans s) 0); [lia|done].
Qed.

(** C10: the scan of a key changes a histogram only when the ticks
    since the last change have reached the repeat threshold; so an
    invocation of [Matrix_scan] changes only buckets [i] with
    [Matrix_repeatThreshold < 2^(i+1)], with the threshold 16 it leaves
    buckets 0 to 3 of both histograms as they are, and after
    [Matrix_setup] and any sequence of invocations these buckets are
    still zero. *)
Theorem C10_low_buckets_untouched (T scanNum : Z) (detected : bool) (key : Z)
    (sense_in : Z → Z → bool) (calls : list (Z * (Z → Z → bool)))
    (s sk : Matrix_state) (st0 : KeyState) (i : nat) :
  config_ok → wf s →
  (Matrix_scanArray s !! Z.to_nat key = Some st0 →
   scan_key T scanNum detected key s = Some sk →
   Matrix_timesRelease sk ≠ Matrix_timesRelease s
   ∨ Matrix_timesPress sk ≠ Matrix_timesPress s →
   Matrix_repeatThreshold s
   ≤ wrap32 (Matrix_divCounter s
             - lastChangeCounter (debounce T detected (reset_state scanNum st0))))
  ∧ (∃ s', Matrix_scan scanNum sense_in s = Some s'
       ∧ (Matrix_timesRelease s' !! i ≠ Matrix_timesRelease s !! i
          ∨ Matrix_timesPress s' !! i ≠ Matrix_timesPress s !! i →
          Matrix_repeatThreshold s < 2 ^ (Z.of_nat i + 1))
       ∧ (Matrix_repeatThreshold s = 16 → (i ≤ 3)%nat →
          Matrix_timesRelease s' !! i = Matrix_timesRelease s !! i
          ∧ Matrix_timesPress s' !! i = Matrix_timesPress s !! i))
  ∧ (∃ s0 sN, Matrix_setup boot = Some s0
       ∧ run calls s0 = Some sN
       ∧ ((i ≤ 3)%nat →
          Matrix_timesRelease sN !! i = Some 0
          ∧ Matrix_timesPress sN !! i = Some 0)).
Proof.
  intros Hcfg Hwf.
  assert (Hlow : (i ≤ 3)%nat → low_bucket 16 i).
  { intros Hi. unfold low_bucket. change 16 with (2 ^ 4).
    apply Z.pow_le_mono_r; lia. }
  split_and!.
  - intros Hst0 Hsk Hchg.
    set (st := debounce T detected (reset_state scanNum st0)).
    destruct (Z.lt_ge_cases
                (wrap32 (Matrix_divCounter s - lastChangeCounter st))
                (Matrix_repeatThreshold s)) as [Hlt|Hge]; [|done].
    exfalso. unfold scan_key in Hsk. rewrite Hst0 in Hsk.
    cbn [mbind option_bind] in Hsk. fold st in Hsk.
    assert (Hk : (Z.to_nat key < length (Matrix_scanArray s))%nat)
      by by eapply lookup_lt_Some.
    destruct (bool_decide (curState st = KeyState_Invalid)).
    + destruct (Z.ltb_spec (wrap32 (Matrix_divCounter s - lastChangeCounter st))
                  (Matrix_repeatThreshold s)); [|lia].
      rewrite put_key_Some in Hsk by done. simplify_eq.
      simpl in Hchg. by destruct Hchg.
    + rewrite put_key_Some in Hsk by done. simplify_eq.
      simpl in Hchg. by destruct Hchg.
  - destruct (Matrix_scan_spec 0 scanNum sense_in s Hcfg Hwf)
      as (s' & Hs' & (_ & _ & _ & _ & _ & Hh & _) & _).
    exists s'. split_and!; [done| |].
    + intros Hchg.
      destruct (Z.lt_ge_cases (Matrix_repeatThreshold s) (2 ^ (Z.of_nat i + 1)))
        as [|Hge]; [done|].
      destruct (Hh i Hge) as [Er Ep]. by destruct Hchg.
    + intros H16 Hi. apply Hh. rewrite H16. by apply Hlow.
  - destruct (Matrix_setup_boot Hcfg)
      as (s0 & H0 & Hwf0 & _ & Hr0 & Hp0 & H16 & _).
    destruct (run_spec 0 calls s0 Hcfg Hwf0)
      as (sN & HsN & _ & _ & _ & _ & _ & _ & Hh & _).
    exists s0, sN. split_and!; [done..|].
    intros Hi. destruct (Hh i) as [-> ->]; [rewrite H16; by apply Hlow|].
    rewrite Hr0, Hp0. split; apply lookup_replicate_2; lia.
Qed.

(** ** Further properties of the scan *)

(** X1: an invocation that is not throttled treats the keys one by one:
    the entry of the key at ([strobe], [sense]) afterwards is [scan_entry]
    of its entry before, with the level of its own sense pin, the
    incremented tick counter and the repeat threshold, and the states
    reported for the key grow by [scan_notify] of the same; no other
    key's level or entry has a part in it. *)
Theorem X1_scan_is_keywise (scanNum : Z) (sense_in : Z → Z → bool)
    (strobe sense : Z) (s : Matrix_state) :
  config_ok → wf s →
  0 ≤ strobe < Matrix_colsNum → 0 ≤ sense < Matrix_rowsNum →
  throttled (set_divCounter (wrap32 (Matrix_divCounter s + 1)) s) = false →
  ∃ s' st,
    Matrix_scan scanNum sense_in s = Some s'
    ∧ Matrix_scanArray s !! Z.to_nat (key_of strobe sense) = Some st
    ∧ Matrix_scanArray s' !! Z.to_nat (key_of strobe sense)
      = Some (scan_entry DebounceDivThreshold_define scanNum
                (sense_in strobe sense) (wrap32 (Matrix_divCounter s + 1))
                (Matrix_repeatThreshold s) st)
    ∧ key_events (key_of strobe sense) (trace s')
      = key_events (key_of strobe sense) (trace s)
        ++ scan_notify DebounceDivThreshold_define scanNum
             (sense_in strobe sense) (wrap32 (Matrix_divCounter s + 1))
             (Matrix_repeatThreshold s) st.
Proof.
  intros Hcfg Hwf Hstrobe Hsense Hthr.
  pose proof Hcfg as (_ & _ & Hkeys).
  destruct (Matrix_scan_spec 0 scanNum sense_in s Hcfg Hwf) as (s' & Hs' & _).
  pose proof (key_of_in_range strobe sense Hstrobe Hsense) as Hrange.
  destruct (lookup_lt_is_Some_2 (Matrix_scanArray s)
              (Z.to_nat (key_of strobe sense))) as [st Hst].
  { destruct Hwf as [-> _]. lia. }
  destruct (key_of_unique (key_of strobe sense) strobe sense
              ltac:(lia) Hstrobe Hsense eq_refl) as [Es Ee].
  destruct (Matrix_scan_entry scanNum sense_in (key_of strobe sense) s s'
              Hcfg Hwf (key_of_nonneg _ _) Hs' Hthr)
    as [(H0 & _)|(_ & Ha & He)].
  { rewrite hits_key_of in H0 by (done || lia). done. }
  rewrite <- Es, <- Ee in Ha, He.
  exists s', st. split_and!; [done|done| |by apply He].
  by rewrite Ha, Hst.
Qed.

(** X2: an invocation with [scanNum != 0], on globals whose entries are
    all resolved, decides nothing: every entry keeps its previous state,
    its current state and its last change tick, and no state is reported
    for any key; only the counters move. *)
Theorem X2_subscans_only_count (scanNum : Z) (sense_in : Z → Z → bool)
    (s : Matrix_state) :
  config_ok → wf s → Forall resolved (Matrix_scanArray s) → scanNum ≠ 0 →
  ∃ s',
    Matrix_scan scanNum sense_in s = Some s'
    ∧ (∀ i st, Matrix_scanArray s !! i = Some st →
         ∃ st', Matrix_scanArray s' !! i = Some st'
                ∧ prevState st' = prevState st
                ∧ curState st' = curState st
                ∧ lastChangeCounter st' = lastChangeCounter st)
    ∧ (∀ key, 0 ≤ key → key_events key (trace s') = key_events key (trace s)).
Proof.
  intros Hcfg Hwf Hall Hnz.
  destruct (Matrix_scan_spec 0 scanNum sense_in s Hcfg Hwf) as (s' & Hs' & _).
  exists s'. split; [done|].
  destruct (throttled (set_divCounter (wrap32 (Matrix_divCounter s + 1)) s))
    eqn:Hthr.
  { rewrite (Matrix_scan_throttled _ _ _ _ Hs' Hthr). split; [|done].
    intros i st Hst. by exists st. }
  split.
  - intros i st Hst.
    pose proof (Forall_lookup_1 _ _ _ _ Hall Hst) as Hres.
    destruct (Matrix_scan_entry scanNum sense_in (Z.of_nat i) s s' Hcfg Hwf
                ltac:(lia) Hs' Hthr) as [(_ & Ha & _)|(_ & Ha & _)];
      rewrite Nat2Z.id in Ha; rewrite Ha, Hst.
    + by exists st.
    + eexists. split; [reflexivity|].
      destruct (scan_entry_keeps DebounceDivThreshold_define scanNum
                  (sense_in (Z.of_nat i `mod` Matrix_colsNum)
                     (Z.of_nat i `div` Matrix_colsNum))
                  (wrap32 (Matrix_divCounter s + 1)) (Matrix_repeatThreshold s)
                  st Hres (or_introl Hnz)) as (Hc & Hl & Hp & _).
      split_and!; [by apply Hp|done|done].
  - intros key Hkey.
    destruct (Matrix_scan_entry scanNum sense_in key s s' Hcfg Hwf Hkey Hs' Hthr)
      as [(_ & _ & He)|(H1 & _ & He)]; [done|].
    pose proof (hits_in_range key ltac:(lia)) as Hrange.
    destruct (lookup_lt_is_Some_2 (Matrix_scanArray s) (Z.to_nat key))
      as [st Hst]; [destruct Hwf as [-> _]; lia|].
    rewrite (He st Hst).
    pose proof (Forall_lookup_1 _ _ _ _ Hall Hst) as Hres.
    destruct (scan_entry_keeps DebounceDivThreshold_define scanNum
                (sense_in (key `mod` Matrix_colsNum) (key `div` Matrix_colsNum))
                (wrap32 (Matrix_divCounter s + 1)) (Matrix_repeatThreshold s)
                st Hres (or_introl Hnz)) as (_ & _ & _ & _ & ->).
    by rewrite app_nil_r.
Qed.

(** X3: a key whose entry is resolved and whose last change is fewer
    ticks back than the repeat threshold, counted from the incremented
    tick counter, comes out of an invocation -- with any [scanNum],
    throttled or not -- with the same current state and last change
    tick, and nothing is reported for it. *)
Theorem X3_no_report_within_threshold (scanNum : Z) (sense_in : Z → Z → bool)
    (key : Z) (s : Matrix_state) (st : KeyState) :
  config_ok → wf s → 0 ≤ key →
  Matrix_scanArray s !! Z.to_nat key = Some st →
  resolved st →
  wrap32 (wrap32 (Matrix_divCounter s + 1) - lastChangeCounter st)
  < Matrix_repeatThreshold s →
  ∃ s' st',
    Matrix_scan scanNum sense_in s = Some s'
    ∧ Matrix_scanArray s' !! Z.to_nat key = Some st'
    ∧ curState st' = curState st
    ∧ lastChangeCounter st' = lastChangeCounter st
    ∧ key_events key (trace s') = key_events key (trace s).
Proof.
  intros Hcfg Hwf Hkey Hst Hres Hlt.
  destruct (Matrix_scan_spec 0 scanNum sense_in s Hcfg Hwf) as (s' & Hs' & _).
  exists s'.
  destruct (throttled (set_divCounter (wrap32 (Matrix_divCounter s + 1)) s))
    eqn:Hthr.
  { exists st. split; [done|].
    by rewrite (Matrix_scan_throttled _ _ _ _ Hs' Hthr). }
  destruct (Matrix_scan_entry scanNum sense_in key s s' Hcfg Hwf Hkey Hs' Hthr)
    as [(_ & Ha & He)|(_ & Ha & He)].
  { exists st. split_and!; try done. by rewrite Ha. }
  destruct (scan_entry_keeps DebounceDivThreshold_define scanNum
              (sense_in (key `mod` Matrix_colsNum) (key `div` Matrix_colsNum))
              (wrap32 (Matrix_divCounter s + 1)) (Matrix_repeatThreshold s)
              st Hres (or_intror Hlt)) as (Hc & Hl & _ & _ & Hn).
  eexists. split_and!; [done|by rewrite Ha, Hst|done|done|].
  by rewrite (He st Hst), Hn, app_nil_r.
Qed.

(** X4: after [Matrix_setup] at start-up, the first 15 invocations of
    [Matrix_scan] report no key, whatever the sense pins show and
    whatever the [scanNum]s are: the tick counter is still below the
    repeat threshold of 16, counted from a last change at tick 0.  Every
    entry still has previous and current state Off and no change
    recorded. *)
Theorem X4_quiet_start (calls : list (Z * (Z → Z → bool))) :
  config_ok → (length calls ≤ 15)%nat →
  ∃ s0 s,
    Matrix_setup boot = Some s0
    ∧ run calls s0 = Some s
    ∧ Forall untouched (Matrix_scanArray s)
    ∧ ∀ key, 0 ≤ key → key_events key (trace s) = [].
Proof.
  intros Hcfg Hlen.
  destruct (Matrix_setup_boot Hcfg) as (s0 & H0 & Hwf0 & Harr & _ & _ & Hth & Hq).
  destruct (run_spec 0 calls s0 Hcfg Hwf0) as (s & Hs & _ & _).
  assert (Hdiv : Matrix_divCounter s0 = 0).
  { rewrite Matrix_setup_effect in H0 by (done || apply length_replicate).
    by simplify_eq. }
  exists s0, s. split; [done|]. split; [done|].
  destruct (run_untouched calls s0 s) as [Hall He];
    [done|done|lia|rewrite Hdiv, Hth; lia|rewrite Hth; lia| |done|].
  { rewrite Harr. apply Forall_replicate, cleared_untouched. }
  split; [done|]. intros key Hkey. rewrite (He key Hkey).
  by apply key_events_quiet.
Qed.

(** X5: after [Matrix_setup] at start-up and any sequence of
    invocations, the states reported for a key position of the matrix,
    in order and with Off put in front, follow the key cycle -- after
    Off or Release only Press or Off is reported, after Press or Hold
    only Hold or Release -- and the current state of the key's entry is
    the last state reported for it (Off when there is none). *)
Theorem X5_reports_follow_cycle (calls : list (Z * (Z → Z → bool))) (key : Z) :
  config_ok → 0 ≤ key < Matrix_maxKeys →
  ∃ s0 s st,
    Matrix_setup boot = Some s0
    ∧ run calls s0 = Some s
    ∧ Matrix_scanArray s !! Z.to_nat key = Some st
    ∧ protocol (KeyState_Off :: key_events key (trace s))
    ∧ last (KeyState_Off :: key_events key (trace s)) = Some (curState st).
Proof.
  intros Hcfg Hkey.
  destruct (Matrix_setup_boot Hcfg) as (s0 & H0 & Hwf0 & Harr & _ & _ & _ & Hq).
  destruct (run_spec 0 calls s0 Hcfg Hwf0) as (s & Hs & _ & _).
  exists s0, s.
  destruct (run_invariant
              (λ t, ∃ st, Matrix_scanArray t !! Z.to_nat key = Some st
                 ∧ resolved st
                 ∧ protocol (KeyState_Off :: key_events key (trace t))
                 ∧ last (KeyState_Off :: key_events key (trace t))
                   = Some (curState st))
              calls s0 s) as (_ & st & Hst & _ & Hp & Hl); try done.
  - intros scanNum sense_in t t' Hwf HJ Hscan.
    by eapply Matrix_scan_protocol; [| |lia| |].
  - exists (KeyState_cleared DebounceDivThreshold_define).
    rewrite Harr, (key_events_quiet _ _ Hq). split_and!; try done.
    apply lookup_replicate_2. lia.
  - by exists st.
Qed.

(** X6: after [Matrix_setup] at start-up and any sequence of
    invocations, the previous and the current state of every entry form
    one of the pairs of the key cycle: the current state is the previous
    state or one of its successors (Off: Press; Press: Hold or Release;
    Hold: Release; Release: Press or Off), and neither is
    [KeyState_Invalid]. *)
Theorem X6_state_pairs_legal (calls : list (Z * (Z → Z → bool))) :
  config_ok →
  ∃ s0 s,
    Matrix_setup boot = Some s0
    ∧ run calls s0 = Some s
    ∧ Forall legal_pair (Matrix_scanArray s).
Proof.
  intros Hcfg.
  destruct (Matrix_setup_boot Hcfg) as (s0 & H0 & Hwf0 & Harr & _).
  destruct (run_spec 0 calls s0 Hcfg Hwf0) as (s & Hs & _ & _).
  exists s0, s. split; [done|]. split; [done|].
  destruct (run_invariant
              (λ t, Forall (λ st, resolved st ∧ legal_pair st) (Matrix_scanArray t))
              calls s0 s) as (_ & Hall); try done.
  - intros scanNum sense_in t t' Hwf HJ Hscan.
    eapply (Matrix_scan_Forall (λ st, resolved st ∧ legal_pair st)); try done.
    intros n d tick threshold st [Hres Hleg].
    destruct (scan_entry_follows DebounceDivThreshold_define n d tick threshold
                st Hres) as (Hres' & Hleg' & _).
    split; [done|]. by apply Hleg'.
  - rewrite Harr. by apply Forall_replicate.
  - eapply Forall_impl; [exact Hall|]. by intros st [_ ?].
Qed.

(** X7: [Matrix_setup] on globals whose arrays have their declared
    lengths returns; it clears every entry of the debounce array (Off,
    Off, counters 0 and the threshold, last change 0), zeroes both
    histograms, [matrixMaxScans] and [matrixPrevScans], prints the three
    sizes and sets up the pins; it does not touch the tick counter, the
    repeat threshold, [matrixCurScans] and the two debug settings.  A
    second [Matrix_setup] prints again and leaves the globals as the
    first one set them. *)
Theorem X7_setup_reinitialises (s : Matrix_state) :
  config_ok →
  length (Matrix_scanArray s) = Z.to_nat Matrix_maxKeys →
  length (Matrix_timesRelease s) = 32%nat →
  length (Matrix_timesPress s) = 32%nat →
  ∃ s1,
    Matrix_setup s = Some s1
    ∧ Matrix_scanArray s1
      = replicate (Z.to_nat Matrix_maxKeys)
          (mkKeyState KeyState_Off KeyState_Off 0 DebounceDivThreshold_define 0)
    ∧ Matrix_timesRelease s1 = replicate 32 0
    ∧ Matrix_timesPress s1 = replicate 32 0
    ∧ matrixMaxScans s1 = 0
    ∧ matrixPrevScans s1 = 0
    ∧ Matrix_divCounter s1 = Matrix_divCounter s
    ∧ Matrix_repeatThreshold s1 = Matrix_repeatThreshold s
    ∧ matrixCurScans s1 = matrixCurScans s
    ∧ matrixDebugMode s1 = matrixDebugMode s
    ∧ matrixDebugStateCounter s1 = matrixDebugStateCounter s
    ∧ trace s1 = trace s ++ setup_output
    ∧ Matrix_setup s1 = Some (set_trace (trace s1 ++ setup_output) s1).
Proof.
  intros Hcfg Harr Hrel Hpress.
  eexists. split; [by apply Matrix_setup_effect|].
  split_and!; try reflexivity.
  by rewrite Matrix_setup_effect by (done || apply length_replicate).
Qed.


(** X9: with a throttle divider [d] from 1 to 31, an invocation is
    skipped when the incremented tick counter is in the lower half of
    its block of [2^d] ticks and goes on to the statistics when it is in
    the upper half: the invocations are skipped and processed in
    alternating groups of [2^(d-1)]. *)
Theorem X9_throttle_blocks (scanNum : Z) (sense_in : Z → Z → bool)
    (s : Matrix_state) :
  config_ok → wf s → 1 ≤ DebounceThrottleDiv_define ≤ 31 →
  ∃ s',
    Matrix_scan scanNum sense_in s = Some s'
    ∧ (wrap32 (Matrix_divCounter s + 1) `mod` 2 ^ DebounceThrottleDiv_define
       < 2 ^ (DebounceThrottleDiv_define - 1) →
       s' = set_divCounter (wrap32 (Matrix_divCounter s + 1)) s)
    ∧ (2 ^ (DebounceThrottleDiv_define - 1)
       ≤ wrap32 (Matrix_divCounter s + 1) `mod` 2 ^ DebounceThrottleDiv_define →
       matrixMaxScans s' = Z.max (matrixMaxScans s) scanNum
       ∧ matrixCurScans s'
         = (if scanNum =? 0 then 0 else wrap16 (matrixCurScans s + 1))).
Proof.
  intros Hcfg Hwf Hd.
  destruct (Matrix_scan_spec 0 scanNum sense_in s Hcfg Hwf) as (s' & Hs' & _).
  exists s'. split; [done|].
  pose proof (throttled_block
                (set_divCounter (wrap32 (Matrix_divCounter s + 1)) s)
                ltac:(lia)) as Hthr.
  simpl in Hthr. split; intros Hhalf.
  - rewrite bool_decide_eq_true_2 in Hthr by done.
    by apply (Matrix_scan_throttled scanNum sense_in).
  - rewrite bool_decide_eq_false_2 in Hthr by lia.
    destruct (Matrix_scan_stats _ _ _ _ Hcfg Hwf Hthr Hs') as (? & ? & _).
    done.
Qed.

(** X10: without throttling, an invocation with [scanNum == 0], then
    invocations with [scanNum != 0], then again one with
    [scanNum == 0]: afterwards [matrixPrevScans] is the number of the
    invocations in between (modulo [2^16]) and [matrixCurScans] is 0. *)
Theorem X10_prev_scans_counts (f0 f1 : Z → Z → bool)
    (subs : list (Z * (Z → Z → bool))) (s : Matrix_state) :
  config_ok → wf s → DebounceThrottleDiv_define ≤ 0 →
  Forall (λ c, c.1 ≠ 0) subs →
  ∃ s',
    run ((0, f0) :: subs ++ [(0, f1)]) s = Some s'
    ∧ matrixPrevScans s' = wrap16 (Z.of_nat (length subs))
    ∧ matrixCurScans s' = 0.
Proof.
  intros Hcfg Hwf Hd Hsubs.
  destruct (run_spec 0 ((0, f0) :: subs ++ [(0, f1)]) s Hcfg Hwf)
    as (s' & Hs' & _).
  exists s'. split; [done|].
  apply run_cons in Hs' as (s1 & H1 & Hs').
  apply run_app in Hs' as (s2 & H2 & Hs').
  apply run_cons in Hs' as (s3 & H3 & Hs'). rewrite run_nil in Hs'.
  simplify_eq. simpl in H1, H3.
  pose proof (Matrix_scan_wf _ _ _ _ Hcfg Hwf H1) as Hwf1.
  assert (Hwf2 : wf s2).
  { by destruct (run_invariant (λ _, True) subs s1 s2). }
  destruct (Matrix_scan_stats _ _ _ _ Hcfg Hwf (throttled_off _ Hd) H1)
    as (_ & Hcur1 & _).
  destruct (Matrix_scan_stats _ _ _ _ Hcfg Hwf2 (throttled_off _ Hd) H3)
    as (_ & Hcur3 & Hprev3).
  simpl in Hcur1, Hcur3, Hprev3. split; [|done].
  rewrite Hprev3.
  destruct (run_subscans subs s1 s2 Hcfg Hwf1 Hd Hsubs H2) as [->|[-> ->]].
  - by rewrite Hcur1.
  - by rewrite Hcur1.
Qed.

(** X11: without throttling, after [Matrix_setup] at start-up and any
    sequence of invocations, [matrixMaxScans] is the largest [scanNum]
    passed so far (0 when there was none): no invocation lowers it. *)
Theorem X11_max_scans_is_maximum (calls : list (Z * (Z → Z → bool))) :
  config_ok → DebounceThrottleDiv_define ≤ 0 →
  ∃ s0 s,
    Matrix_setup boot = Some s0
    ∧ run calls s0 = Some s
    ∧ matrixMaxScans s = foldl Z.max 0 (calls.*1).
Proof.
  intros Hcfg Hd.
  destruct (Matrix_setup_boot Hcfg) as (s0 & H0 & Hwf0 & _).
  destruct (run_spec 0 calls s0 Hcfg Hwf0) as (s & Hs & _).
  exists s0, s. split; [done|]. split; [done|].
  rewrite (run_maxScans calls s0 s Hcfg Hwf0 Hd Hs). f_equal.
  rewrite Matrix_setup_effect in H0 by (done || apply length_replicate).
  by simplify_eq.
Qed.

(** X12: the comment of matrix_scan.c:313-314.  A key whose entry is as
    [Matrix_setup] leaves it (active count 0, inactive count at the
    threshold [T]) and whose sense pin then shows the key closed in [n]
    scans in a row has the active count [min n T] and the inactive count
    [T >> n].  For a threshold from 1 to [0xFFFF] the active count is
    above the inactive count from the 13th scan on at the latest; for
    the threshold [0xFFFF] it is not before the 13th scan. *)
Theorem X12_thirteen_scans (T : Z) (steps : list (Z * Z * Z)) :
  1 ≤ T ≤ 65535 →
  let st := scan_steady T true steps (KeyState_cleared T) in
  let n := Z.of_nat (length steps) in
  activeCount st = Z.min n T
  ∧ inactiveCount st = Z.shiftr T n
  ∧ (13 ≤ n → inactiveCount st < activeCount st)
  ∧ (T = 65535 → n < 13 → activeCount st ≤ inactiveCount st).
Proof.
  intros HT st n.
  destruct (scan_steady_closed T steps ltac:(lia)) as [Ha Hi].
  fold st n in Ha, Hi. rewrite Ha, Hi.
  assert (Hn : 0 ≤ n) by lia.
  rewrite Z.shiftr_div_pow2 by done.
  split_and!; [done|done| |].
  - intros H13.
    assert (Hp : 2 ^ 13 ≤ 2 ^ n) by (apply Z.pow_le_mono_r; lia).
    assert (Hq : T `div` 2 ^ n ≤ T `div` 2 ^ 13)
      by (apply Z.div_le_compat_l; lia).
    assert (Hr : T `div` 2 ^ 13 < 8) by (apply Z.div_lt_upper_bound; lia).
    destruct (Z_lt_le_dec T 13) as [Hsmall|Hbig]; [|lia].
    rewrite Z.div_small by lia. lia.
  - intros -> Hlt.
    assert (Hp : 2 ^ n ≤ 2 ^ 12) by (apply Z.pow_le_mono_r; lia).
    assert (Hpos : 0 < 2 ^ n) by (apply Z.pow_pos_nonneg; lia).
    assert (Hq : 65535 `div` 2 ^ 12 ≤ 65535 `div` 2 ^ n)
      by (apply Z.div_le_compat_l; lia).
    change (65535 `div` 2 ^ 12) with 15 in Hq. lia.
Qed.

(** X13: the histograms count the reports.  After [Matrix_setup] at
    start-up and any sequence of invocations, the sum of the buckets of
    [Matrix_timesPress] is, modulo [2^32], the number of Press states
    passed to [Macro_keyState], and the sum of the buckets of
    [Matrix_timesRelease] the number of Release states passed: every
    such report increments exactly one bucket of its histogram, and
    nothing else does. *)
Theorem X13_histograms_count_reports (calls : list (Z * (Z → Z → bool))) :
  config_ok →
  ∃ s0 s,
    Matrix_setup boot = Some s0
    ∧ run calls s0 = Some s
    ∧ wrap32 (total (Matrix_timesPress s))
      = wrap32 (reports_of KeyState_Press (trace s))
    ∧ wrap32 (total (Matrix_timesRelease s))
      = wrap32 (reports_of KeyState_Release (trace s)).
Proof.
  intros Hcfg.
  destruct (Matrix_setup_boot Hcfg) as (s0 & H0 & Hwf0 & _ & Hr0 & Hp0 & _ & Hq).
  destruct (run_spec 0 calls s0 Hcfg Hwf0) as (s & Hs & _ & _).
  exists s0, s. split; [done|]. split; [done|].
  destruct (run_invariant
              (λ t, wrap32 (total (Matrix_timesPress t))
                    = wrap32 (reports_of KeyState_Press (trace t))
                    ∧ wrap32 (total (Matrix_timesRelease t))
                      = wrap32 (reports_of KeyState_Release (trace t)))
              calls s0 s) as (_ & HJ); try done.
  - intros scanNum sense_in t t' Hwf [Jp Jr] Hscan.
    destruct (Matrix_scan_tally _ _ _ _ Hcfg Hwf Hscan) as (evs & -> & -> & ->).
    rewrite !reports_of_app. unfold wrap32 in *. split.
    + rewrite <- Zplus_mod_idemp_l, Jp, Zplus_mod_idemp_l. done.
    + rewrite <- Zplus_mod_idemp_l, Jr, Zplus_mod_idemp_l. done.
  - by rewrite Hr0, Hp0, !(reports_of_quiet _ _ Hq).
Qed.

(** X14: unless debugging is switched on, the scan prints nothing.
    After [Matrix_setup] at start-up and any sequence of invocations,
    none of the calls made after those of [Matrix_setup] is a call of a
    print routine: there is no debug output, no state table, and the
    diagnostic of the state switch is never printed. *)
Theorem X14_silent_by_default (calls : list (Z * (Z → Z → bool))) :
  config_ok →
  ∃ s0 s evs,
    Matrix_setup boot = Some s0
    ∧ run calls s0 = Some s
    ∧ trace s = trace s0 ++ evs
    ∧ Forall (λ e, is_print e = false) evs.
Proof.
  intros Hcfg.
  destruct (Matrix_setup_boot Hcfg) as (s0 & H0 & Hwf0 & Harr & _).
  destruct (run_spec 0 calls s0 Hcfg Hwf0) as (s & Hs & _ & _).
  exists s0, s.
  pose proof H0 as H0'.
  rewrite Matrix_setup_effect in H0' by (done || apply length_replicate).
  destruct (run_invariant
              (λ t, grows_by (Forall (λ e, is_print e = false)) s0 t
                    ∧ Forall resolved (Matrix_scanArray t)
                    ∧ matrixDebugMode t = 0
                    ∧ matrixDebugStateCounter t = 0)
              calls s0 s) as (_ & (evs & Htr & Hev) & _); try done.
  - intros scanNum sense_in t t' Hwf (Hg & Hr & Hm & Hc) Hscan.
    destruct (Matrix_scan_grows (Forall (λ e, is_print e = false)) 0
                scanNum sense_in t t') as (Hg' & Hr' & Hm' & Hc');
      try done.
    + intros evs1 evs2 ??. by apply Forall_app.
    + intros strobe type. by apply Forall_singleton.
    + intros. by apply scan_events_mode0.
    + lia.
    + split_and!; [|done|done|congruence].
      eapply grows_by_trans; [|exact Hg|exact Hg'].
      intros evs1 evs2 ??. by apply Forall_app.
  - split_and!.
    + by apply grows_by_refl.
    + rewrite Harr. apply Forall_replicate, cleared_resolved.
    + by simplify_eq.
    + by simplify_eq.
  - by exists evs.
Qed.

(** X15: debug mode 1 prints the scan codes of the pressed keys.  The
    command [matrixDebug] without an argument, given on globals in
    another mode, sets the mode 1 and prints it; from there, as long as
    no table is requested, the scan codes the invocations print with
    [printHex] are exactly the keys they report as pressed, in the same
    order. *)
Theorem X15_debug_mode_prints_presses
    (CLI_argumentIsolation : string → string * string) (args : string)
    (calls : list (Z * (Z → Z → bool))) (s : Matrix_state) :
  config_ok → wf s →
  Forall resolved (Matrix_scanArray s) →
  matrixDebugMode s ≠ 1 → matrixDebugStateCounter s ≤ 0 →
  first_char (CLI_argumentIsolation args).1 = Ascii.zero →
  ∃ s1 s2 evs,
    cliFunc_matrixDebug CLI_argumentIsolation args s
    = Some (s1, [out (print NL); out (info_msg "Matrix Debug Mode: ");
                 printInt8 1])
    ∧ matrixDebugMode s1 = 1
    ∧ run calls s1 = Some s2
    ∧ trace s2 = trace s ++ evs
    ∧ printed_keys evs = pressed_keys evs.
Proof.
  intros Hcfg Hwf Hres Hmode Hc Harg.
  set (s1 := set_debugMode 1 s).
  assert (Hwf1 : wf s1) by by apply wf_set_debugMode.
  destruct (run_spec 0 calls s1 Hcfg Hwf1) as (s2 & Hs2 & _ & _).
  exists s1, s2.
  destruct (run_invariant
              (λ t, grows_by (λ evs, printed_keys evs = pressed_keys evs) s1 t
                    ∧ Forall resolved (Matrix_scanArray t)
                    ∧ matrixDebugMode t = 1
                    ∧ matrixDebugStateCounter t ≤ 0)
              calls s1 s2) as (_ & (evs & Htr & Hev) & _); try done.
  - intros scanNum sense_in t t' Hwft (Hg & Hr & Hm & Hct) Hscan.
    destruct (Matrix_scan_grows (λ evs, printed_keys evs = pressed_keys evs) 1
                scanNum sense_in t t') as (Hg' & Hr' & Hm' & Hc');
      try done.
    + intros evs1 evs2 E1 E2.
      by rewrite printed_keys_app, pressed_keys_app, E1, E2.
    + intros. by apply scan_events_mode1.
    + split_and!; [|done|done|lia].
      eapply grows_by_trans; [|exact Hg|exact Hg'].
      intros evs1 evs2 E1 E2.
      by rewrite printed_keys_app, pressed_keys_app, E1, E2.
  - split_and!; [by apply grows_by_refl|done..].
  - exists evs. split_and!; [|done|done|done|done].
    unfold cliFunc_matrixDebug. rewrite Harg. simpl.
    destruct (Z.eqb_spec (matrixDebugMode s) 1); [done|]. done.
Qed.

(** X16: the command [matrixState] requests the table [N] times, where
    [N] is 1 without an argument and the number read from the argument,
    as a [uint16_t], otherwise.  Without throttling, the invocations
    that follow print the table once each until [N] tables are printed,
    and none after that: after [k] invocations [min k N] tables are
    printed and the counter is [max 0 (N - k)]. *)
Theorem X16_state_table_count
    (CLI_argumentIsolation : string → string * string) (numToInt : string → Z)
    (args : string) (calls : list (Z * (Z → Z → bool))) (s : Matrix_state) :
  config_ok → wf s → DebounceThrottleDiv_define ≤ 0 →
  let arg1 := (CLI_argumentIsolation args).1 in
  let N := if Ascii.eqb (first_char arg1) Ascii.zero then 1
           else wrap16 (numToInt arg1) in
  ∃ s1 s2 evs,
    cliFunc_matrixState CLI_argumentIsolation numToInt args s = Some (s1, [])
    ∧ matrixDebugStateCounter s1 = N
    ∧ run calls s1 = Some s2
    ∧ trace s2 = trace s ++ evs
    ∧ tables evs = Z.min (Z.of_nat (length calls)) N
    ∧ matrixDebugStateCounter s2 = Z.max 0 (N - Z.of_nat (length calls)).
Proof.
  intros Hcfg Hwf Hd arg1 N.
  set (s1 := set_debugStateCounter N s).
  assert (Hwf1 : wf s1) by by apply wf_set_debugStateCounter.
  assert (HN : 0 ≤ N).
  { unfold N. destruct (Ascii.eqb _ _); [lia|].
    unfold wrap16. apply Z.mod_pos_bound. lia. }
  destruct (run_spec 0 calls s1 Hcfg Hwf1) as (s2 & Hs2 & _ & _).
  destruct (run_dumps calls s1 s2 Hcfg Hwf1 Hd HN Hs2) as (evs & Htr & Ht & Hc).
  exists s1, s2, evs. split_and!; try done.
  unfold cliFunc_matrixState. fold arg1. unfold s1, N.
  by destruct (Ascii.eqb (first_char arg1) Ascii.zero).
Qed.


(** X18: the command [matrixHist] changes nothing and prints, after
    the heading, one line for each of the 32 buckets in order: the
    number of the bucket, its count in the release histogram and then
    its count in the press histogram. *)
Theorem X18_hist_command (args : string) (s : Matrix_state) :
  length (Matrix_timesRelease s) = 32%nat →
  length (Matrix_timesPress s) = 32%nat →
  ∃ lines,
    cliFunc_matrixHist args s = Some (s, lines)
    ∧ length lines = 193%nat
    ∧ lines !! 0%nat = Some (out (print ("Histogram" +:+ CRLF)))
    ∧ ∀ (i : nat) (r p : Z),
        Matrix_timesRelease s !! i = Some r →
        Matrix_timesPress s !! i = Some p →
        lines !! (1 + 6 * i)%nat = Some (printInt8 (Z.of_nat i))
        ∧ lines !! (3 + 6 * i)%nat = Some (printInt32 r)
        ∧ lines !! (5 + 6 * i)%nat = Some (printInt32 p)
        ∧ lines !! (6 + 6 * i)%nat = Some (out (print NL)).
Proof.
  intros Hr Hp. unfold cliFunc_matrixHist, hist_row.
  destruct (Matrix_timesRelease s) as [|r0 tr]; [done|].
  do 31 (destruct tr as [|? tr]; [done|]). destruct tr; [|done].
  destruct (Matrix_timesPress s) as [|p0 tp]; [done|].
  do 31 (destruct tp as [|? tp]; [done|]). destruct tp; [|done].
  eexists. split; [reflexivity|]. split; [reflexivity|]. split; [reflexivity|].
  intros i r p Hi Hpi.
  do 32 (destruct i as [|i];
         [simpl in Hi, Hpi; simplify_eq; by split_and!|]).
  done.
Qed.


(** ** The pin actions *)

(** X20: reading a sense pin.  [Matrix_pin] with [Type_Sense] makes one
    access, a read of the input register of the pin's port, and no
    write; it returns 1 when the bit of the pin is set in the value
    read and 0 when it is clear.  With every other type it returns 0. *)
Theorem X20_pin_sense (hw : Target) (gpio : GPIO_Pin) (type : PinType)
    (rd : nat → Z) :
  0 ≤ pin gpio ≤ 31 →
  Matrix_pin hw gpio Type_Sense rd
  = ([reg_read (GPIO_PDIR hw gpio)],
     if Z.testbit (rd 0%nat) (pin gpio) then 1 else 0)
  ∧ (type ≠ Type_Sense → (Matrix_pin hw gpio type rd).2 = 0).
Proof.
  intros Hp. split.
  - unfold Matrix_pin. rewrite land_bit_testbit by done.
    by destruct (Z.testbit (rd 0%nat) (pin gpio)).
  - by destruct type.
Qed.

(** X21: the writing pin actions change one bit.  With a type other
    than [Type_Sense], [Matrix_pin] starts with a read and a write of
    the same register of the pin's port -- the set register to switch a
    strobe on, the clear register to switch it off, the direction
    register in the two setups -- and the value written is the value
    read with the bit of the pin set, or cleared in [Type_SenseSetup];
    the other 31 bits are written back as read.  Whatever follows is an
    access to the control register of the pin. *)
Theorem X21_pin_changes_one_bit (hw : Target) (gpio : GPIO_Pin) (type : PinType)
    (rd : nat → Z) :
  0 ≤ pin gpio ≤ 31 → type ≠ Type_Sense →
  ∃ v rest,
    let reg := match type with
               | Type_StrobeOn => GPIO_PSOR hw gpio
               | Type_StrobeOff => GPIO_PCOR hw gpio
               | _ => GPIO_PDDR hw gpio
               end in
    (Matrix_pin hw gpio type rd).1 = reg_read reg :: reg_write reg v :: rest
    ∧ Z.testbit v (pin gpio)
      = match type with Type_SenseSetup => false | _ => true end
    ∧ (∀ j, 0 ≤ j < 32 → j ≠ pin gpio →
         Z.testbit v j = Z.testbit (rd 0%nat) j)
    ∧ Forall (λ a, access_addr a = PORT_PCR hw gpio) rest.
Proof.
  intros Hp Htype.
  assert (Hset : Z.testbit (Z.lor (rd 0%nat) (pin_bit gpio)) (pin gpio) = true
                 ∧ ∀ j, 0 ≤ j < 32 → j ≠ pin gpio →
                     Z.testbit (Z.lor (rd 0%nat) (pin_bit gpio)) j
                     = Z.testbit (rd 0%nat) j).
  { split.
    - rewrite Z.lor_spec, pin_bit_testbit, Z.eqb_refl by lia.
      by rewrite orb_true_r.
    - intros j Hj Hne. rewrite Z.lor_spec, pin_bit_testbit by lia.
      rewrite (proj2 (Z.eqb_neq _ _)) by lia. by rewrite orb_false_r. }
  assert (Hclr : Z.testbit (Z.land (rd 0%nat) (pin_mask gpio)) (pin gpio) = false
                 ∧ ∀ j, 0 ≤ j < 32 → j ≠ pin gpio →
                     Z.testbit (Z.land (rd 0%nat) (pin_mask gpio)) j
                     = Z.testbit (rd 0%nat) j).
  { split.
    - rewrite Z.land_spec, pin_mask_testbit, Z.eqb_refl by lia.
      by rewrite andb_false_r.
    - intros j Hj Hne. rewrite Z.land_spec, pin_mask_testbit by lia.
      rewrite (proj2 (Z.eqb_neq _ _)) by lia. by rewrite andb_true_r. }
  destruct Hset as [Hs1 Hs2], Hclr as [Hc1 Hc2].
  destruct type; try done; simpl; eexists _, _;
    (split; [reflexivity|]); (split; [done|]); (split; [done|]);
    destruct (Matrix_type hw); by repeat constructor.
Qed.

(** X22: a pin action stays with its own pin.  Every access of
    [Matrix_pin] is to the direction, set or clear register of the
    pin's port or to the control register of the pin, or it is a read
    of the input register of the port.  The registers of a port lie
    [0x40] times its number above those of port A, the control register
    [0x1000] times the port plus 4 times the pin above that of pin 0 of
    port A: two pins share a control register only when they are the
    same pin. *)
Theorem X22_pin_own_registers (hw : Target) (gpio gpio' : GPIO_Pin)
    (type : PinType) (rd : nat → Z) :
  0 ≤ port gpio < 2 ^ 20 → 0 ≤ pin gpio ≤ 31 →
  0 ≤ port gpio' < 2 ^ 20 → 0 ≤ pin gpio' ≤ 31 →
  Forall (λ a,
            (access_addr a = GPIOA_PDDR hw + 64 * port gpio
             ∨ access_addr a = GPIOA_PSOR hw + 64 * port gpio
             ∨ access_addr a = GPIOA_PCOR hw + 64 * port gpio
             ∨ (access_addr a = GPIOA_PDIR hw + 64 * port gpio
                ∧ is_write a = false)
             ∨ access_addr a
               = PORTA_PCR0 hw + 4096 * port gpio + 4 * pin gpio))
    (Matrix_pin hw gpio type rd).1
  ∧ (PORT_PCR hw gpio = PORT_PCR hw gpio' → gpio = gpio').
Proof.
  intros Hport Hpin Hport' Hpin'.
  assert (Hg : 4 * gpio_offset gpio = 64 * port gpio)
    by (apply gpio_offset_bytes; lia).
  assert (Hc : 4 * port_offset gpio = 4096 * port gpio + 4 * pin gpio)
    by (apply port_offset_bytes; lia).
  assert (Hc' : 4 * port_offset gpio' = 4096 * port gpio' + 4 * pin gpio')
    by (apply port_offset_bytes; lia).
  split.
  - unfold Matrix_pin, GPIO_PDDR, GPIO_PSOR, GPIO_PCOR, GPIO_PDIR, PORT_PCR.
    rewrite Hg, Hc.
    destruct type, (Matrix_type hw); simpl;
      repeat (apply Forall_cons; split; [simpl; auto 10 with lia|]);
      by apply Forall_nil.
  - unfold PORT_PCR. rewrite Hc, Hc'. intros Heq.
    destruct gpio as [p i], gpio' as [p' i']. simpl in *.
    assert (p = p') by lia. assert (i = i') by lia. by subst.
Qed.

(** ** Safety and release *)

(** X23: scanning never leaves the arrays.  On globals whose debounce
    array and histograms have their declared lengths and whose repeat
    threshold is at least 1, any sequence of invocations of
    [Matrix_scan], with any [scanNum]s and any levels on the sense pins,
    returns: every index into the debounce array is below
    [Matrix_maxKeys] and every histogram bucket below 32.  The globals
    keep this shape, the tick counter has advanced by the number of
    invocations (modulo [2^32]), and the repeat threshold and the debug
    mode are unchanged. *)
Theorem X23_scan_in_bounds (calls : list (Z * (Z → Z → bool))) (s : Matrix_state) :
  config_ok →
  length (Matrix_scanArray s) = Z.to_nat Matrix_maxKeys →
  length (Matrix_timesRelease s) = 32%nat →
  length (Matrix_timesPress s) = 32%nat →
  1 ≤ Matrix_repeatThreshold s →
  ∃ s',
    run calls s = Some s'
    ∧ length (Matrix_scanArray s') = Z.to_nat Matrix_maxKeys
    ∧ length (Matrix_timesRelease s') = 32%nat
    ∧ length (Matrix_timesPress s') = 32%nat
    ∧ Matrix_divCounter s'
      = (if calls is [] then Matrix_divCounter s
         else wrap32 (Matrix_divCounter s + Z.of_nat (length calls)))
    ∧ Matrix_repeatThreshold s' = Matrix_repeatThreshold s
    ∧ matrixDebugMode s' = matrixDebugMode s.
Proof.
  intros Hcfg Harr Hrel Hpress Hth.
  assert (Hwf : wf s) by (unfold wf; split_and!; [done..|lia]).
  destruct (run_spec 0 calls s Hcfg Hwf) as (s' & Hs' & (Ha & Hr & Hp & _) & _).
  destruct (run_globals calls s s' Hcfg Hwf Hs') as [Ht Hm].
  exists s'. split_and!; try done.
  destruct calls as [|c calls].
  - rewrite run_nil in Hs'. by simplify_eq.
  - by destruct (run_tick _ s s' Hcfg Hwf Hs') as [Hd|[? _]].
Qed.

(** X24: the release mirrors the press.  A held key whose counts are
    steady (active count at the threshold [T], inactive count 0) and
    whose sense pin then shows the key open in [n] scans in a row has
    the active count [T >> n] and the inactive count [min n T].  For a
    threshold from 1 to [0xFFFF] the active count is no longer above
    the inactive count -- the condition for Release -- from the 13th
    scan on at the latest; for the threshold [0xFFFF] it still is above
    it in the first 12 scans. *)
Theorem X24_release_after_thirteen (T : Z) (steps : list (Z * Z * Z)) :
  1 ≤ T ≤ 65535 →
  let st := scan_steady T false steps (KeyState_held T) in
  let n := Z.of_nat (length steps) in
  activeCount st = Z.shiftr T n
  ∧ inactiveCount st = Z.min n T
  ∧ (13 ≤ n → activeCount st ≤ inactiveCount st)
  ∧ (T = 65535 → n < 13 → inactiveCount st < activeCount st).
Proof.
  intros HT st n.
  destruct (scan_steady_open T steps ltac:(lia)) as [Ha Hi].
  fold st n in Ha, Hi. rewrite Ha, Hi.
  assert (Hn : 0 ≤ n) by lia.
  rewrite Z.shiftr_div_pow2 by done.
  split_and!; [done|done| |].
  - intros H13.
    assert (Hp : 2 ^ 13 ≤ 2 ^ n) by (apply Z.pow_le_mono_r; lia).
    assert (Hq : T `div` 2 ^ n ≤ T `div` 2 ^ 13)
      by (apply Z.div_le_compat_l; lia).
    assert (Hr : T `div` 2 ^ 13 < 8) by (apply Z.div_lt_upper_bound; lia).
    destruct (Z_lt_le_dec T 13) as [Hsmall|Hbig]; [|lia].
    rewrite Z.div_small by lia. lia.
  - intros -> Hlt.
    assert (Hp : 2 ^ n ≤ 2 ^ 12) by (apply Z.pow_le_mono_r; lia).
    assert (Hpos : 0 < 2 ^ n) by (apply Z.pow_pos_nonneg; lia).
    assert (Hq : 65535 `div` 2 ^ 12 ≤ 65535 `div` 2 ^ n)
      by (apply Z.div_le_compat_l; lia).
    change (65535 `div` 2 ^ 12) with 15 in Hq. lia.
Qed.

(** X25: a pass reports every key that is not held back.  In an
    invocation with [scanNum == 0] that is not throttled, a key of the
    matrix whose entry has a valid current state and whose last change
    is at least the repeat threshold back is reported exactly once,
    with the state its entry then holds -- also when that state is the
    one it had before (a key that is Off and stays Off is reported as
    Off, a held key as Hold). *)
Theorem X25_pass_reports_every_key (sense_in : Z → Z → bool)
    (strobe sense : Z) (s : Matrix_state) (st : KeyState) :
  config_ok → wf s →
  0 ≤ strobe < Matrix_colsNum → 0 ≤ sense < Matrix_rowsNum →
  throttled (set_divCounter (wrap32 (Matrix_divCounter s + 1)) s) = false →
  Matrix_scanArray s !! Z.to_nat (key_of strobe sense) = Some st →
  resolved st →
  Matrix_repeatThreshold s
  ≤ wrap32 (wrap32 (Matrix_divCounter s + 1) - lastChangeCounter st) →
  ∃ s' st',
    Matrix_scan 0 sense_in s = Some s'
    ∧ Matrix_scanArray s' !! Z.to_nat (key_of strobe sense) = Some st'
    ∧ key_events (key_of strobe sense) (trace s')
      = key_events (key_of strobe sense) (trace s) ++ [curState st']
    ∧ prevState st' = curState st
    ∧ follows (curState st) (curState st').
Proof.
  intros Hcfg Hwf Hstrobe Hsense Hthr Hst Hres Hge.
  pose proof Hcfg as (_ & _ & Hkeys).
  destruct (Matrix_scan_spec 0 0 sense_in s Hcfg Hwf) as (s' & Hs' & _).
  destruct (key_of_unique (key_of strobe sense) strobe sense
              ltac:(lia) Hstrobe Hsense eq_refl) as [Es Ee].
  destruct (Matrix_scan_entry 0 sense_in (key_of strobe sense) s s'
              Hcfg Hwf (key_of_nonneg _ _) Hs' Hthr)
    as [(H0 & _)|(_ & Ha & He)].
  { rewrite hits_key_of in H0 by (done || lia). done. }
  rewrite <- Es, <- Ee in Ha, He. rewrite Hst in Ha. simpl in Ha.
  specialize (He st Hst).
  set (tick := wrap32 (Matrix_divCounter s + 1)) in *.
  set (st' := scan_entry DebounceDivThreshold_define 0 (sense_in strobe sense)
                tick (Matrix_repeatThreshold s) st) in *.
  destruct (reset_debounce_fields DebounceDivThreshold_define 0
              (sense_in strobe sense) st) as (Hlast & _ & _ & [(_ & Hp & Hc)|[? _]]);
    [|done].
  assert (Hn : scan_notify DebounceDivThreshold_define 0 (sense_in strobe sense)
                 tick (Matrix_repeatThreshold s) st = [curState st']).
  { unfold scan_notify. rewrite Hc, Hlast.
    rewrite bool_decide_eq_true_2 by done.
    destruct (Z.ltb_spec (wrap32 (tick - lastChangeCounter st))
                (Matrix_repeatThreshold s)); [lia|done]. }
  exists s', st'. split_and!; [done|done|by rewrite He, Hn| |].
  - unfold st'. by rewrite scan_entry_prev.
  - destruct (scan_entry_follows DebounceDivThreshold_define 0
                (sense_in strobe sense) tick (Matrix_repeatThreshold s) st Hres)
      as (_ & _ & [[Hnil _]|[_ Hf]]); [|done].
    fold st' in Hnil. congruence.
Qed.

(** X26: [Matrix_keyPositionDebug] prints one string and does nothing
    else, and the strings of the five states are pairwise different:
    the state can be read back from what is printed. *)
Theorem X26_glyphs_distinct (pos pos' : KeyPosition) (s : Matrix_state) :
  Matrix_keyPositionDebug pos s
  = Some (set_trace (trace s ++ [print (position_glyph pos)]) s)
  ∧ (position_glyph pos = position_glyph pos' → pos = pos').
Proof.
  split.
  - by rewrite keyPositionDebug_glyph.
  - destruct pos, pos'; simpl; intros H; try done; by inversion H.
Qed.

End Matrix.

(** ** The theorems at concrete inputs *)

(** A held key (tick 100, last change at tick 10) whose contact reads
    open: the entry becomes Release, bucket 6 of the release histogram
    counts it and the last change tick becomes 100. *)
Lemma C1_witness :
  Matrix_scanArray (ex_globals 100 [ex_held]) !! Z.to_nat 0 = Some ex_held
  ∧ length (Matrix_timesRelease (ex_globals 100 [ex_held])) = 32%nat
  ∧ length (Matrix_timesPress (ex_globals 100 [ex_held])) = 32%nat
  ∧ curState (debounce 5 false (reset_state 0 ex_held)) = KeyState_Invalid
  ∧ Matrix_repeatThreshold (ex_globals 100 [ex_held]) ≤ 90
  ∧ 0 < 90
  ∧ ∃ s' st',
      scan_key 5 0 false 0 (ex_globals 100 [ex_held]) = Some s'
      ∧ Matrix_scanArray s' !! Z.to_nat 0 = Some st'
      ∧ curState st' = KeyState_Release
      ∧ lastChangeCounter st' = 100
      ∧ Matrix_timesRelease s' !! 6%nat = Some 1.
Proof.
  destruct (C1_state_resolution 5 0 false 0 (ex_globals 100 [ex_held]) ex_held)
    as (s' & st' & Hscan & Hst' & Hhold & _);
    [reflexivity|reflexivity|reflexivity|reflexivity|vm_compute; discriminate
    |reflexivity|].
  split_and!; [reflexivity|reflexivity|reflexivity|reflexivity
              |vm_compute; discriminate|reflexivity|].
  destruct Hhold as [_ Hrel]; [by right|].
  destruct Hrel as (Hcur & Hlast & (v & Hv & Hr) & _); [vm_compute; discriminate|].
  exists s', st'. split_and!; [done..|].
  rewrite Hr. vm_compute in Hv. injection Hv as <-. reflexivity.
Defined.

(** A 2 x 2 matrix: after one pass with every contact closed, a pass of
    two invocations reports key 3 at most once and leaves it resolved. *)
Lemma C2_witness :
  config_ok 2 2
  ∧ 0 ≤ 3 < Matrix_maxKeys 2 2
  ∧ is_pass [(0, all_closed); (1, all_open)]
  ∧ ∃ s0 s1 s2 evs st,
      Matrix_setup 2 2 5 CRLF (boot 2 2) = Some s0
      ∧ run 2 2 5 0 CRLF [(0, all_closed)] s0 = Some s1
      ∧ run 2 2 5 0 CRLF [(0, all_closed); (1, all_open)] s1 = Some s2
      ∧ trace s2 = trace s1 ++ evs
      ∧ (keyState_calls 3 evs ≤ 1)%nat
      ∧ Matrix_scanArray s2 !! Z.to_nat 3 = Some st
      ∧ curState st ≠ KeyState_Invalid.
Proof.
  assert (Hcfg : config_ok 2 2) by (unfold config_ok, Matrix_maxKeys; lia).
  assert (Hkey : 0 ≤ 3 < Matrix_maxKeys 2 2) by (unfold Matrix_maxKeys; lia).
  assert (Hpass : is_pass [(0, all_closed); (1, all_open)]).
  { split; [reflexivity|]. repeat constructor. simpl. lia. }
  split_and!; [done..|].
  exact (C2_notify_once_per_pass 2 2 5 0 CRLF [(0, all_closed)]
           [(0, all_closed); (1, all_open)] 3 Hcfg Hkey Hpass).
Defined.

(** A 2 x 2 matrix with the threshold 5: the counters stay within 0 .. 5
    over three invocations. *)
Lemma C3_witness :
  config_ok 2 2
  ∧ 0 ≤ 5
  ∧ ∃ s0 s,
      Matrix_setup 2 2 5 CRLF (boot 2 2) = Some s0
      ∧ run 2 2 5 0 CRLF [(0, all_closed); (1, all_closed); (0, all_open)] s0
        = Some s
      ∧ ∀ key st, Matrix_scanArray s !! key = Some st →
          (0 ≤ activeCount st ≤ 5) ∧ (0 ≤ inactiveCount st ≤ 5).
Proof.
  assert (Hcfg : config_ok 2 2) by (unfold config_ok, Matrix_maxKeys; lia).
  assert (HT : 0 ≤ 5) by lia.
  split_and!; [done..|].
  destruct (C3_counters_saturate 2 2 5 0 CRLF
              [(0, all_closed); (1, all_closed); (0, all_open)] Hcfg HT)
    as (s0 & s & H0 & Hs & Hbounds & _).
  exists s0, s. split_and!; assumption.
Defined.

(** An entry whose previous and current states are both
    [KeyState_Invalid], 90 ticks after its last change. *)
Lemma C4_witness :
  Matrix_scanArray (ex_globals 100 [ex_broken]) !! Z.to_nat 0 = Some ex_broken
  ∧ curState (debounce 5 true (reset_state 1 ex_broken)) = KeyState_Invalid
  ∧ Matrix_repeatThreshold (ex_globals 100 [ex_broken]) ≤ 90
  ∧ prevState (debounce 5 true (reset_state 1 ex_broken)) = KeyState_Invalid
  ∧ scan_key 5 1 true 0 (ex_globals 100 [ex_broken])
    = Some (set_trace
              [erro_print "Matrix scan bug!! Report me!";
               Macro_keyState 0 KeyState_Invalid]
              (set_scanArray
                 [mkKeyState KeyState_Invalid KeyState_Invalid 1 2 10]
                 (ex_globals 100 [ex_broken]))).
Proof.
  split_and!; [reflexivity|reflexivity|vm_compute; discriminate|reflexivity|].
  apply (C4_invalid_previous_state 5 1 true 0 (ex_globals 100 [ex_broken]) ex_broken);
    [reflexivity|reflexivity|vm_compute; discriminate|reflexivity].
Defined.

(** The claim as the spec states it fails there: the current state is
    not the fallback Off, and [Macro_keyState] receives
    [KeyState_Invalid]. *)
Lemma C4_counterexample :
  ∃ s' st',
    scan_key 5 1 true 0 (ex_globals 100 [ex_broken]) = Some s'
    ∧ Matrix_scanArray s' !! Z.to_nat 0 = Some st'
    ∧ prevState st' = KeyState_Invalid
    ∧ curState st' = KeyState_Invalid
    ∧ curState st' ≠ KeyState_Off
    ∧ trace s' = [erro_print "Matrix scan bug!! Report me!";
                  Macro_keyState 0 KeyState_Invalid].
Proof.
  eexists _, _. split_and!; [vm_compute; reflexivity|reflexivity|..]; done.
Qed.

(** A held key two ticks after its last change: the entry goes back to
    Hold and nothing else changes. *)
Lemma C5_witness :
  Matrix_scanArray (ex_globals 12 [ex_held]) !! Z.to_nat 0 = Some ex_held
  ∧ curState (debounce 5 false (reset_state 0 ex_held)) = KeyState_Invalid
  ∧ 2 < Matrix_repeatThreshold (ex_globals 12 [ex_held])
  ∧ scan_key 5 0 false 0 (ex_globals 12 [ex_held])
    = Some (set_scanArray [mkKeyState KeyState_Hold KeyState_Hold 0 5 10]
              (ex_globals 12 [ex_held])).
Proof.
  split_and!; [reflexivity|reflexivity|reflexivity|].
  apply (C5_repeat_suppression 5 0 false 0 (ex_globals 12 [ex_held]) ex_held);
    reflexivity.
Defined.

(** A delta of 90 ticks falls into bucket 6, as does 64. *)
Lemma C6_witness :
  0 < 90 < 2 ^ 32 ∧ 0 ≤ 6 ≤ 31 ∧ bucket_of 90 = 6 ∧ bucket_of (2 ^ 6) = 6.
Proof.
  assert (Hd : 0 < 90 < 2 ^ 32) by lia.
  assert (Hk : 0 ≤ 6 ≤ 31) by lia.
  destruct (C6_bucket_log2 90 6 Hd Hk) as (H1 & _ & H2 & _).
  split_and!; [done..| |done]. exact H1.
Defined.

(** The claim as the spec states it fails for a delta of 0: the index is
    255, not the clamped value 0. *)
Lemma C6_counterexample :
  bucket_of 0 = 255
  ∧ bucket_of 0 ≠ Z.min 31 (Z.max 0 (Z.log2 (Z.max 0 1))).
Proof. split; [reflexivity|vm_compute; discriminate]. Qed.

(** With the divider 1, an invocation that starts on tick 7 only moves
    the tick counter to 8. *)
Lemma C7_witness :
  config_ok 2 2
  ∧ wf 2 2 (ex_globals 7 (replicate 4 ex_idle))
  ∧ Matrix_scan 2 2 5 1 CRLF 0 all_closed (ex_globals 7 (replicate 4 ex_idle))
    = Some (set_divCounter 8 (ex_globals 7 (replicate 4 ex_idle))).
Proof.
  assert (Hcfg : config_ok 2 2) by (unfold config_ok, Matrix_maxKeys; lia).
  assert (Hwf : wf 2 2 (ex_globals 7 (replicate 4 ex_idle))).
  { unfold wf. simpl. split_and!; [reflexivity..|lia]. }
  split_and!; [done..|].
  destruct (C7_throttle 2 2 5 1 CRLF 0 all_closed _ Hcfg Hwf)
    as (s' & Hs' & _ & _ & Hone).
  destruct (Hone eq_refl) as [Hodd _].
  rewrite (Hodd eq_refl) in Hs'. exact Hs'.
Defined.

(** A 2 x 2 matrix with every contact closed for twenty passes: key 1 is
    never reported as [KeyState_Invalid]. *)
Lemma C8_witness :
  config_ok 2 2
  ∧ ∃ s0 s,
      Matrix_setup 2 2 5 CRLF (boot 2 2) = Some s0
      ∧ run 2 2 5 0 CRLF (replicate 20 (0, all_closed)) s0 = Some s
      ∧ (Macro_keyState 1 KeyState_Invalid ∉ trace s).
Proof.
  assert (Hcfg : config_ok 2 2) by (unfold config_ok, Matrix_maxKeys; lia).
  split; [done|].
  destruct (C8_never_notifies_invalid 2 2 5 0 CRLF (replicate 20 (0, all_closed)) 1
              5 0 true 1 (ex_globals 0 []) ex_idle KeyState_Press Hcfg)
    as (s0 & s & H0 & Hs & Hnever & _).
  exists s0, s. split_and!; assumption.
Defined.

(** An invocation with [scanNum == 0] on globals with the statistics
    5, 3, 1: the current count moves to the previous one and becomes 0,
    the maximum stays 5. *)
Lemma C9_witness :
  config_ok 2 2
  ∧ wf 2 2 ex_counted
  ∧ 0 ≤ matrixMaxScans ex_counted
  ∧ throttled 0 (set_divCounter (wrap32 (Matrix_divCounter ex_counted + 1)) ex_counted)
    = false
  ∧ ∃ s',
      Matrix_scan 2 2 5 0 CRLF 0 all_open ex_counted = Some s'
      ∧ matrixPrevScans s' = 3
      ∧ matrixCurScans s' = 0
      ∧ matrixMaxScans s' = 5.
Proof.
  assert (Hcfg : config_ok 2 2) by (unfold config_ok, Matrix_maxKeys; lia).
  assert (Hwf : wf 2 2 ex_counted).
  { unfold wf. simpl. split_and!; [reflexivity..|lia]. }
  assert (Hmax : 0 ≤ matrixMaxScans ex_counted) by (simpl; lia).
  split_and!; [done|done|done|reflexivity|].
  exact (C9_statistics_at_first_scan 2 2 5 0 CRLF all_open ex_counted
           Hcfg Hwf Hmax eq_refl).
Defined.

(** The claim as the spec states it fails after [Matrix_setup], an
    invocation with [scanNum == 5] and one with [scanNum == 0]:
    [matrixMaxScans] is still 5. *)
Lemma C9_counterexample :
  ∃ s0 s1 s2,
    Matrix_setup 2 2 5 CRLF (boot 2 2) = Some s0
    ∧ Matrix_scan 2 2 5 0 CRLF 5 all_open s0 = Some s1
    ∧ Matrix_scan 2 2 5 0 CRLF 0 all_open s1 = Some s2
    ∧ matrixMaxScans s1 = 5
    ∧ matrixCurScans s1 = 1
    ∧ matrixPrevScans s2 = 1
    ∧ matrixCurScans s2 = 0
    ∧ matrixMaxScans s2 = 5
    ∧ matrixMaxScans s2 ≠ 0.
Proof.
  eexists _, _, _.
  split_and!; [vm_compute; reflexivity|vm_compute; reflexivity
              |vm_compute; reflexivity|reflexivity..|done].
Qed.

(** With the threshold 16, an invocation leaves bucket 3 as it is, and
    after [Matrix_setup] and twenty passes bucket 3 is still zero. *)
Lemma C10_witness :
  config_ok 2 2
  ∧ wf 2 2 ex_counted
  ∧ (∃ s', Matrix_scan 2 2 5 0 CRLF 0 all_closed ex_counted = Some s'
       ∧ Matrix_timesRelease s' !! 3%nat = Matrix_timesRelease ex_counted !! 3%nat
       ∧ Matrix_timesPress s' !! 3%nat = Matrix_timesPress ex_counted !! 3%nat)
  ∧ (∃ s0 sN, Matrix_setup 2 2 5 CRLF (boot 2 2) = Some s0
       ∧ run 2 2 5 0 CRLF (replicate 20 (0, all_closed)) s0 = Some sN
       ∧ Matrix_timesRelease sN !! 3%nat = Some 0
       ∧ Matrix_timesPress sN !! 3%nat = Some 0).
Proof.
  assert (Hcfg : config_ok 2 2) by (unfold config_ok, Matrix_maxKeys; lia).
  assert (Hwf : wf 2 2 ex_counted).
  { unfold wf. simpl. split_and!; [reflexivity..|lia]. }
  destruct (C10_low_buckets_untouched 2 2 5 0 CRLF 5 0 true 0 all_closed
              (replicate 20 (0, all_closed)) ex_counted ex_counted ex_idle 3
              Hcfg Hwf)
    as (_ & (s' & Hs' & _ & H16) & (s0 & sN & H0 & HN & Hzero)).
  split_and!; [done..| |].
  - exists s'. split; [done|]. apply H16; [reflexivity|lia].
  - exists s0, sN. split_and!; [done..| |]; apply Hzero; lia.
Defined.

(** ** The scenarios of the specification, run on the model *)

(** Scenario A: from the cleared state, contacts closed for sixteen
    passes: the first fifteen are within the repeat threshold and report
    nothing, the sixteenth reports Press for the key, sets the last
    change tick and counts the sample in bucket 4 of the press
    histogram. *)
Example scenario_press :
  ∃ s0 s15 s16 st,
    Matrix_setup 1 1 5 CRLF (boot 1 1) = Some s0
    ∧ run 1 1 5 0 CRLF (replicate 15 (0, all_closed)) s0 = Some s15
    ∧ keyState_calls 0 (trace s15) = 0%nat
    ∧ Matrix_scan 1 1 5 0 CRLF 0 all_closed s15 = Some s16
    ∧ Matrix_scanArray s16 !! 0%nat = Some st
    ∧ st = mkKeyState KeyState_Off KeyState_Press 5 0 16
    ∧ Matrix_timesPress s16 !! 4%nat = Some 1
    ∧ trace s16 = trace s15 ++ [Matrix_pin_strobe 0 Type_StrobeOn;
                                Macro_keyState 0 KeyState_Press;
                                Matrix_pin_strobe 0 Type_StrobeOff].
Proof.
  eexists _, _, _, _.
  split_and!; [vm_compute; reflexivity|vm_compute; reflexivity|reflexivity
              |vm_compute; reflexivity|reflexivity..].
Qed.

(** Scenario B: a held key whose contact reads open resolves to Release
    once the inactive count is not below the active count. *)
Example scenario_release :
  scan_key 5 0 false 0 (ex_globals 100 [ex_held])
  = Some (set_trace [Macro_keyState 0 KeyState_Release]
            (set_timesRelease (<[6%nat := 1]> (replicate 32 0))
               (set_scanArray [mkKeyState KeyState_Hold KeyState_Release 0 5 100]
                  (ex_globals 100 [ex_held])))).
Proof. reflexivity. Qed.

(** Scenario C: from Off, one closed sample and then open samples keep
    [activeCount <= inactiveCount]: the key stays Off, which is what each
    pass reports, and no histogram is touched. *)
Example scenario_bounce :
  ∃ s,
    run 1 1 5 0 CRLF [(0, all_closed); (0, all_open); (0, all_open)]
      (ex_globals 100 [ex_idle]) = Some s
    ∧ Matrix_scanArray s !! 0%nat
      = Some (mkKeyState KeyState_Off KeyState_Off 0 4 0)
    ∧ Matrix_timesPress s = replicate 32 0
    ∧ Matrix_timesRelease s = replicate 32 0
    ∧ trace s
      = [Matrix_pin_strobe 0 Type_StrobeOn; Macro_keyState 0 KeyState_Off;
         Matrix_pin_strobe 0 Type_StrobeOff;
         Matrix_pin_strobe 0 Type_StrobeOn; Macro_keyState 0 KeyState_Off;
         Matrix_pin_strobe 0 Type_StrobeOff;
         Matrix_pin_strobe 0 Type_StrobeOn; Macro_keyState 0 KeyState_Off;
         Matrix_pin_strobe 0 Type_StrobeOff].
Proof.
  eexists. split_and!; [vm_compute; reflexivity|reflexivity..].
Qed.

(** Scenario D: with the throttle divider 1, the invocation on an odd
    tick only counts the tick; the next one scans. *)
Example scenario_throttle :
  ∃ s1 s2,
    Matrix_scan 1 1 5 1 CRLF 0 all_closed (ex_globals 7 [ex_idle]) = Some s1
    ∧ s1 = set_divCounter 8 (ex_globals 7 [ex_idle])
    ∧ Matrix_scan 1 1 5 1 CRLF 0 all_closed s1 = Some s2
    ∧ Matrix_divCounter s2 = 9
    ∧ Matrix_scanArray s2 !! 0%nat
      = Some (mkKeyState KeyState_Off KeyState_Off 1 2 0).
Proof.
  eexists _, _. split_and!; [vm_compute; reflexivity|reflexivity
                            |vm_compute; reflexivity|reflexivity..].
Qed.

(** ** The further properties at concrete inputs *)

(** Key 3 of a 2 x 2 matrix, held, with its contact open: its entry is
    [scan_entry] of the entry before. *)
Lemma X1_witness :
  config_ok 2 2
  ∧ wf 2 2 ex_pressed
  ∧ 0 ≤ 1 < 2
  ∧ throttled 0 (set_divCounter (wrap32 (Matrix_divCounter ex_pressed + 1)) ex_pressed)
    = false
  ∧ ∃ s' st,
      Matrix_scan 2 2 5 0 CRLF 0 all_open ex_pressed = Some s'
      ∧ Matrix_scanArray ex_pressed !! Z.to_nat (key_of 2 1 1) = Some st
      ∧ Matrix_scanArray s' !! Z.to_nat (key_of 2 1 1)
        = Some (scan_entry 5 0 (all_open 1 1)
                  (wrap32 (Matrix_divCounter ex_pressed + 1))
                  (Matrix_repeatThreshold ex_pressed) st)
      ∧ key_events (key_of 2 1 1) (trace s')
        = key_events (key_of 2 1 1) (trace ex_pressed)
          ++ scan_notify 5 0 (all_open 1 1)
               (wrap32 (Matrix_divCounter ex_pressed + 1))
               (Matrix_repeatThreshold ex_pressed) st.
Proof.
  assert (Hcfg : config_ok 2 2) by (unfold config_ok, Matrix_maxKeys; lia).
  assert (Hwf : wf 2 2 ex_pressed).
  { unfold wf. simpl. split_and!; [reflexivity..|lia]. }
  assert (Hr : 0 ≤ 1 < 2) by lia.
  split_and!; [done|done|lia|lia|reflexivity|].
  exact (X1_scan_is_keywise 2 2 5 0 CRLF 0 all_open 1 1 ex_pressed
           Hcfg Hwf Hr Hr eq_refl).
Defined.

(** An invocation with [scanNum == 2] on the same globals. *)
Lemma X2_witness :
  config_ok 2 2
  ∧ wf 2 2 ex_pressed
  ∧ Forall resolved (Matrix_scanArray ex_pressed)
  ∧ 2 ≠ 0
  ∧ ∃ s',
      Matrix_scan 2 2 5 0 CRLF 2 all_open ex_pressed = Some s'
      ∧ (∀ i st, Matrix_scanArray ex_pressed !! i = Some st →
           ∃ st', Matrix_scanArray s' !! i = Some st'
                  ∧ prevState st' = prevState st
                  ∧ curState st' = curState st
                  ∧ lastChangeCounter st' = lastChangeCounter st)
      ∧ (∀ key, 0 ≤ key →
           key_events key (trace s') = key_events key (trace ex_pressed)).
Proof.
  assert (Hcfg : config_ok 2 2) by (unfold config_ok, Matrix_maxKeys; lia).
  assert (Hwf : wf 2 2 ex_pressed).
  { unfold wf. simpl. split_and!; [reflexivity..|lia]. }
  assert (Hres : Forall resolved (Matrix_scanArray ex_pressed)).
  { repeat constructor; discriminate. }
  assert (Hnz : 2 ≠ 0) by lia.
  split_and!; [done|done|done|done|].
  exact (X2_subscans_only_count 2 2 5 0 CRLF 2 all_open ex_pressed
           Hcfg Hwf Hres Hnz).
Defined.

(** Key 3 was pressed five ticks ago and its contact now reads open:
    the entry stays at Press and nothing is reported. *)
Lemma X3_witness :
  config_ok 2 2
  ∧ wf 2 2 ex_recent
  ∧ Matrix_scanArray ex_recent !! Z.to_nat 3
    = Some (mkKeyState KeyState_Off KeyState_Press 5 0 20)
  ∧ wrap32 (wrap32 (Matrix_divCounter ex_recent + 1) - 20)
    < Matrix_repeatThreshold ex_recent
  ∧ ∃ s' st',
      Matrix_scan 2 2 5 0 CRLF 0 all_open ex_recent = Some s'
      ∧ Matrix_scanArray s' !! Z.to_nat 3 = Some st'
      ∧ curState st' = KeyState_Press
      ∧ lastChangeCounter st' = 20
      ∧ key_events 3 (trace s') = key_events 3 (trace ex_recent).
Proof.
  assert (Hcfg : config_ok 2 2) by (unfold config_ok, Matrix_maxKeys; lia).
  assert (Hwf : wf 2 2 ex_recent).
  { unfold wf. simpl. split_and!; [reflexivity..|lia]. }
  assert (Hkey : 0 ≤ 3) by lia.
  assert (Hres : resolved (mkKeyState KeyState_Off KeyState_Press 5 0 20))
    by discriminate.
  split_and!; [done|done|reflexivity|reflexivity|].
  exact (X3_no_report_within_threshold 2 2 5 0 CRLF 0 all_open 3 ex_recent
           (mkKeyState KeyState_Off KeyState_Press 5 0 20)
           Hcfg Hwf Hkey eq_refl Hres eq_refl).
Defined.

(** Fifteen invocations with every contact closed. *)
Lemma X4_witness :
  config_ok 2 2
  ∧ (length (replicate 15 (0, all_closed)) ≤ 15)%nat
  ∧ ∃ s0 s,
      Matrix_setup 2 2 5 CRLF (boot 2 2) = Some s0
      ∧ run 2 2 5 0 CRLF (replicate 15 (0, all_closed)) s0 = Some s
      ∧ Forall untouched (Matrix_scanArray s)
      ∧ ∀ key, 0 ≤ key → key_events key (trace s) = [].
Proof.
  assert (Hcfg : config_ok 2 2) by (unfold config_ok, Matrix_maxKeys; lia).
  assert (Hlen : (length (replicate 15 (0, all_closed)) ≤ 15)%nat)
    by (simpl; lia).
  split_and!; [done|done|].
  exact (X4_quiet_start 2 2 5 0 CRLF (replicate 15 (0, all_closed)) Hcfg Hlen).
Defined.

(** Key 3 of a 2 x 2 matrix over twenty invocations with every contact
    closed and two with every contact open. *)
Lemma X5_witness :
  config_ok 2 2
  ∧ 0 ≤ 3 < Matrix_maxKeys 2 2
  ∧ ∃ s0 s st,
      Matrix_setup 2 2 5 CRLF (boot 2 2) = Some s0
      ∧ run 2 2 5 0 CRLF
          (replicate 20 (0, all_closed) ++ replicate 2 (0, all_open)) s0
        = Some s
      ∧ Matrix_scanArray s !! Z.to_nat 3 = Some st
      ∧ protocol (KeyState_Off :: key_events 3 (trace s))
      ∧ last (KeyState_Off :: key_events 3 (trace s)) = Some (curState st).
Proof.
  assert (Hcfg : config_ok 2 2) by (unfold config_ok, Matrix_maxKeys; lia).
  assert (Hkey : 0 ≤ 3 < Matrix_maxKeys 2 2) by (unfold Matrix_maxKeys; lia).
  split_and!; [done|lia|unfold Matrix_maxKeys; lia|].
  exact (X5_reports_follow_cycle 2 2 5 0 CRLF
           (replicate 20 (0, all_closed) ++ replicate 2 (0, all_open)) 3
           Hcfg Hkey).
Defined.

(** The same run: every entry holds a pair of the key cycle. *)
Lemma X6_witness :
  config_ok 2 2
  ∧ ∃ s0 s,
      Matrix_setup 2 2 5 CRLF (boot 2 2) = Some s0
      ∧ run 2 2 5 0 CRLF
          (replicate 20 (0, all_closed) ++ replicate 2 (0, all_open)) s0
        = Some s
      ∧ Forall legal_pair (Matrix_scanArray s).
Proof.
  assert (Hcfg : config_ok 2 2) by (unfold config_ok, Matrix_maxKeys; lia).
  split; [done|].
  exact (X6_state_pairs_legal 2 2 5 0 CRLF
           (replicate 20 (0, all_closed) ++ replicate 2 (0, all_open)) Hcfg).
Defined.

(** [Matrix_setup] in the middle of a reporting interval: the tick
    counter 20 and the current count 3 stay, the maximum 5 and the
    previous count 1 become 0. *)
Lemma X7_witness :
  config_ok 2 2
  ∧ length (Matrix_scanArray ex_counted) = Z.to_nat (Matrix_maxKeys 2 2)
  ∧ ∃ s1,
      Matrix_setup 2 2 5 CRLF ex_counted = Some s1
      ∧ Matrix_divCounter s1 = 20
      ∧ matrixCurScans s1 = 3
      ∧ matrixMaxScans s1 = 0
      ∧ matrixPrevScans s1 = 0
      ∧ Matrix_setup 2 2 5 CRLF s1
        = Some (set_trace (trace s1 ++ setup_output 2 2 CRLF) s1).
Proof.
  assert (Hcfg : config_ok 2 2) by (unfold config_ok, Matrix_maxKeys; lia).
  assert (Hlen : length (Matrix_scanArray ex_counted)
                 = Z.to_nat (Matrix_maxKeys 2 2)) by reflexivity.
  split_and!; [done|done|].
  destruct (X7_setup_reinitialises 2 2 5 CRLF ex_counted Hcfg Hlen
              eq_refl eq_refl)
    as (s1 & H1 & _ & _ & _ & Hmax & Hprev & Hdiv & _ & Hcur & _ & _ & _ & H2).
  exists s1. split_and!; assumption.
Defined.


(** With the divider 3, the invocation that brings the tick counter to
    8 is skipped: 8 is in the lower half of its block of 8 ticks. *)
Lemma X9_witness :
  config_ok 2 2
  ∧ wf 2 2 (ex_globals 7 (replicate 4 ex_idle))
  ∧ 1 ≤ 3 ≤ 31
  ∧ Matrix_scan 2 2 5 3 CRLF 0 all_closed (ex_globals 7 (replicate 4 ex_idle))
    = Some (set_divCounter 8 (ex_globals 7 (replicate 4 ex_idle))).
Proof.
  assert (Hcfg : config_ok 2 2) by (unfold config_ok, Matrix_maxKeys; lia).
  assert (Hwf : wf 2 2 (ex_globals 7 (replicate 4 ex_idle))).
  { unfold wf. simpl. split_and!; [reflexivity..|lia]. }
  assert (Hd : 1 ≤ 3 ≤ 31) by lia.
  split_and!; [done|done|lia|lia|].
  destruct (X9_throttle_blocks 2 2 5 3 CRLF 0 all_closed _ Hcfg Hwf Hd)
    as (s' & Hs' & Hlow & _).
  rewrite Hlow in Hs'; [exact Hs'|reflexivity].
Defined.

(** Three invocations with [scanNum] 1, 2, 3 between two with
    [scanNum == 0]. *)
Lemma X10_witness :
  config_ok 2 2
  ∧ wf 2 2 ex_counted
  ∧ 0 ≤ 0
  ∧ Forall (λ c : Z * (Z → Z → bool), c.1 ≠ 0)
      [(1, all_open); (2, all_open); (3, all_closed)]
  ∧ ∃ s',
      run 2 2 5 0 CRLF
        ((0, all_open)
         :: [(1, all_open); (2, all_open); (3, all_closed)] ++ [(0, all_open)])
        ex_counted = Some s'
      ∧ matrixPrevScans s' = wrap16 3
      ∧ matrixCurScans s' = 0.
Proof.
  assert (Hcfg : config_ok 2 2) by (unfold config_ok, Matrix_maxKeys; lia).
  assert (Hwf : wf 2 2 ex_counted).
  { unfold wf. simpl. split_and!; [reflexivity..|lia]. }
  assert (Hd : 0 ≤ 0) by lia.
  assert (Hsubs : Forall (λ c : Z * (Z → Z → bool), c.1 ≠ 0)
                    [(1, all_open); (2, all_open); (3, all_closed)]).
  { repeat constructor; simpl; lia. }
  split_and!; [done|done|done|done|].
  exact (X10_prev_scans_counts 2 2 5 0 CRLF all_open all_open
           [(1, all_open); (2, all_open); (3, all_closed)] ex_counted
           Hcfg Hwf Hd Hsubs).
Defined.

(** After invocations with [scanNum] 0, 1, 2, 0, 1 the maximum is 2. *)
Lemma X11_witness :
  config_ok 2 2
  ∧ 0 ≤ 0
  ∧ ∃ s0 s,
      Matrix_setup 2 2 5 CRLF (boot 2 2) = Some s0
      ∧ run 2 2 5 0 CRLF
          [(0, all_open); (1, all_open); (2, all_open); (0, all_open);
           (1, all_open)] s0 = Some s
      ∧ matrixMaxScans s = 2.
Proof.
  assert (Hcfg : config_ok 2 2) by (unfold config_ok, Matrix_maxKeys; lia).
  assert (Hd : 0 ≤ 0) by lia.
  split_and!; [done|done|].
  exact (X11_max_scans_is_maximum 2 2 5 0 CRLF
           [(0, all_open); (1, all_open); (2, all_open); (0, all_open);
            (1, all_open)] Hcfg Hd).
Defined.

(** With the threshold [0xFFFF], after twelve closed scans the counts
    are 12 and 15, after thirteen they are 13 and 7. *)
Lemma X12_witness :
  1 ≤ 65535 ≤ 65535
  ∧ activeCount (scan_steady 65535 true (replicate 13 (0, 100, 16))
                   (KeyState_cleared 65535)) = 13
  ∧ inactiveCount (scan_steady 65535 true (replicate 13 (0, 100, 16))
                     (KeyState_cleared 65535)) = 7.
Proof.
  assert (HT : 1 ≤ 65535 ≤ 65535) by lia.
  split; [done|].
  destruct (X12_thirteen_scans 65535 (replicate 13 (0, 100, 16)) HT)
    as (Ha & Hi & _).
  split; [exact Ha|exact Hi].
Defined.

(** Twenty invocations with every contact closed and two with every
    contact open: both histograms hold as many samples as there were
    reports. *)
Lemma X13_witness :
  config_ok 2 2
  ∧ ∃ s0 s,
      Matrix_setup 2 2 5 CRLF (boot 2 2) = Some s0
      ∧ run 2 2 5 0 CRLF
          (replicate 20 (0, all_closed) ++ replicate 2 (0, all_open)) s0
        = Some s
      ∧ wrap32 (total (Matrix_timesPress s))
        = wrap32 (reports_of KeyState_Press (trace s))
      ∧ wrap32 (total (Matrix_timesRelease s))
        = wrap32 (reports_of KeyState_Release (trace s)).
Proof.
  assert (Hcfg : config_ok 2 2) by (unfold config_ok, Matrix_maxKeys; lia).
  split; [done|].
  exact (X13_histograms_count_reports 2 2 5 0 CRLF
           (replicate 20 (0, all_closed) ++ replicate 2 (0, all_open)) Hcfg).
Defined.

(** The same run prints nothing. *)
Lemma X14_witness :
  config_ok 2 2
  ∧ ∃ s0 s evs,
      Matrix_setup 2 2 5 CRLF (boot 2 2) = Some s0
      ∧ run 2 2 5 0 CRLF
          (replicate 20 (0, all_closed) ++ replicate 2 (0, all_open)) s0
        = Some s
      ∧ trace s = trace s0 ++ evs
      ∧ Forall (λ e, is_print e = false) evs.
Proof.
  assert (Hcfg : config_ok 2 2) by (unfold config_ok, Matrix_maxKeys; lia).
  split; [done|].
  exact (X14_silent_by_default 2 2 5 0 CRLF
           (replicate 20 (0, all_closed) ++ replicate 2 (0, all_open)) Hcfg).
Defined.

(** [matrixDebug] without an argument, then an invocation with every
    contact closed. *)
Lemma X15_witness :
  config_ok 2 2
  ∧ wf 2 2 ex_pressed
  ∧ Forall resolved (Matrix_scanArray ex_pressed)
  ∧ matrixDebugMode ex_pressed ≠ 1
  ∧ matrixDebugStateCounter ex_pressed ≤ 0
  ∧ first_char (ex_isolation "").1 = Ascii.zero
  ∧ ∃ s1 s2 evs,
      cliFunc_matrixDebug CRLF ex_isolation "" ex_pressed
      = Some (s1, [out (print CRLF); out (info_msg "Matrix Debug Mode: ");
                   printInt8 1])
      ∧ matrixDebugMode s1 = 1
      ∧ run 2 2 5 0 CRLF [(0, all_closed)] s1 = Some s2
      ∧ trace s2 = trace ex_pressed ++ evs
      ∧ printed_keys evs = pressed_keys evs.
Proof.
  assert (Hcfg : config_ok 2 2) by (unfold config_ok, Matrix_maxKeys; lia).
  assert (Hwf : wf 2 2 ex_pressed).
  { unfold wf. simpl. split_and!; [reflexivity..|lia]. }
  assert (Hres : Forall resolved (Matrix_scanArray ex_pressed)).
  { repeat constructor; discriminate. }
  assert (Hmode : matrixDebugMode ex_pressed ≠ 1) by discriminate.
  assert (Hc : matrixDebugStateCounter ex_pressed ≤ 0) by (simpl; lia).
  split_and!; [done|done|done|done|done|reflexivity|].
  exact (X15_debug_mode_prints_presses 2 2 5 0 CRLF ex_isolation ""
           [(0, all_closed)] ex_pressed Hcfg Hwf Hres Hmode Hc eq_refl).
Defined.

(** [matrixState 3], then five invocations: three tables. *)
Lemma X16_witness :
  config_ok 2 2
  ∧ wf 2 2 ex_pressed
  ∧ 0 ≤ 0
  ∧ ∃ s1 s2 evs,
      cliFunc_matrixState ex_isolation ex_numToInt "3" ex_pressed = Some (s1, [])
      ∧ matrixDebugStateCounter s1 = 3
      ∧ run 2 2 5 0 CRLF (replicate 5 (0, all_open)) s1 = Some s2
      ∧ trace s2 = trace ex_pressed ++ evs
      ∧ tables evs = 3
      ∧ matrixDebugStateCounter s2 = 0.
Proof.
  assert (Hcfg : config_ok 2 2) by (unfold config_ok, Matrix_maxKeys; lia).
  assert (Hwf : wf 2 2 ex_pressed).
  { unfold wf. simpl. split_and!; [reflexivity..|lia]. }
  assert (Hd : 0 ≤ 0) by lia.
  split_and!; [done|done|done|].
  exact (X16_state_table_count 2 2 5 0 CRLF ex_isolation ex_numToInt "3"
           (replicate 5 (0, all_open)) ex_pressed Hcfg Hwf Hd).
Defined.


(** The histogram command on globals with empty histograms. *)
Lemma X18_witness :
  length (Matrix_timesRelease ex_pressed) = 32%nat
  ∧ length (Matrix_timesPress ex_pressed) = 32%nat
  ∧ ∃ lines,
      cliFunc_matrixHist CRLF "" ex_pressed = Some (ex_pressed, lines)
      ∧ length lines = 193%nat
      ∧ lines !! 1%nat = Some (printInt8 0)
      ∧ lines !! 3%nat = Some (printInt32 0)
      ∧ lines !! 5%nat = Some (printInt32 0).
Proof.
  split; [reflexivity|]. split; [reflexivity|].
  destruct (X18_hist_command CRLF "" ex_pressed eq_refl eq_refl)
    as (lines & Hl & Hlen & _ & Hrows).
  destruct (Hrows 0%nat 0 0 eq_refl eq_refl) as (H1 & H3 & H5 & _).
  exists lines. split_and!; assumption.
Defined.


(** Pin 16 of port B reads high on the MK20. *)
Lemma X20_witness :
  0 ≤ pin ex_pin ≤ 31
  ∧ Matrix_pin mk20dx ex_pin Type_Sense ex_reads
    = ([reg_read 1074786384], 1).
Proof.
  assert (Hp : 0 ≤ pin ex_pin ≤ 31) by (simpl; lia).
  split; [done|].
  destruct (X20_pin_sense mk20dx ex_pin Type_Sense ex_reads Hp) as [Hs _].
  exact Hs.
Defined.

(** Switching the strobe on pin 16 of port B on writes bit 16. *)
Lemma X21_witness :
  0 ≤ pin ex_pin ≤ 31
  ∧ Type_StrobeOn ≠ Type_Sense
  ∧ ∃ v rest,
      (Matrix_pin mk20dx ex_pin Type_StrobeOn ex_reads).1
      = reg_read (GPIO_PSOR mk20dx ex_pin)
        :: reg_write (GPIO_PSOR mk20dx ex_pin) v :: rest
      ∧ Z.testbit v 16 = true.
Proof.
  assert (Hp : 0 ≤ pin ex_pin ≤ 31) by (simpl; lia).
  assert (Ht : Type_StrobeOn ≠ Type_Sense) by discriminate.
  split; [done|]. split; [done|].
  destruct (X21_pin_changes_one_bit mk20dx ex_pin Type_StrobeOn ex_reads Hp Ht)
    as (v & rest & Hacc & Hbit & _).
  exists v, rest. split; [exact Hacc|exact Hbit].
Defined.

(** The set-up of pin 16 of port B as a sense pin touches the direction
    register of port B and the control register of the pin. *)
Lemma X22_witness :
  0 ≤ port ex_pin < 2 ^ 20
  ∧ 0 ≤ pin ex_pin ≤ 31
  ∧ Forall (λ a,
              (access_addr a = GPIOA_PDDR mk20dx + 64 * port ex_pin
               ∨ access_addr a = GPIOA_PSOR mk20dx + 64 * port ex_pin
               ∨ access_addr a = GPIOA_PCOR mk20dx + 64 * port ex_pin
               ∨ (access_addr a = GPIOA_PDIR mk20dx + 64 * port ex_pin
                  ∧ is_write a = false)
               ∨ access_addr a
                 = PORTA_PCR0 mk20dx + 4096 * port ex_pin + 4 * pin ex_pin))
      (Matrix_pin mk20dx ex_pin Type_SenseSetup ex_reads).1.
Proof.
  assert (Hport : 0 ≤ port ex_pin < 2 ^ 20) by (simpl; lia).
  assert (Hpin : 0 ≤ pin ex_pin ≤ 31) by (simpl; lia).
  split; [done|]. split; [done|].
  destruct (X22_pin_own_registers mk20dx ex_pin ex_pin Type_SenseSetup ex_reads
              Hport Hpin Hport Hpin) as [Hall _].
  exact Hall.
Defined.

(** Three invocations from the globals of a 2 x 2 matrix at tick 40. *)
Lemma X23_witness :
  config_ok 2 2
  ∧ length (Matrix_scanArray ex_pressed) = Z.to_nat (Matrix_maxKeys 2 2)
  ∧ 1 ≤ Matrix_repeatThreshold ex_pressed
  ∧ ∃ s',
      run 2 2 5 0 CRLF [(0, all_open); (1, all_closed); (0, all_closed)] ex_pressed
      = Some s'
      ∧ length (Matrix_scanArray s') = Z.to_nat (Matrix_maxKeys 2 2)
      ∧ Matrix_divCounter s' = 43.
Proof.
  assert (Hcfg : config_ok 2 2) by (unfold config_ok, Matrix_maxKeys; lia).
  assert (Hlen : length (Matrix_scanArray ex_pressed)
                 = Z.to_nat (Matrix_maxKeys 2 2)) by reflexivity.
  assert (Hth : 1 ≤ Matrix_repeatThreshold ex_pressed) by (simpl; lia).
  split_and!; [done|done|done|].
  destruct (X23_scan_in_bounds 2 2 5 0 CRLF
              [(0, all_open); (1, all_closed); (0, all_closed)] ex_pressed
              Hcfg Hlen eq_refl eq_refl Hth)
    as (s' & Hs' & Ha & _ & _ & Hd & _).
  exists s'. split_and!; [exact Hs'|exact Ha|exact Hd].
Defined.

(** With the threshold [0xFFFF], after thirteen open scans the counts
    are 7 and 13. *)
Lemma X24_witness :
  1 ≤ 65535 ≤ 65535
  ∧ activeCount (scan_steady 65535 false (replicate 13 (0, 100, 16))
                   (KeyState_held 65535)) = 7
  ∧ inactiveCount (scan_steady 65535 false (replicate 13 (0, 100, 16))
                     (KeyState_held 65535)) = 13.
Proof.
  assert (HT : 1 ≤ 65535 ≤ 65535) by lia.
  split; [done|].
  destruct (X24_release_after_thirteen 65535 (replicate 13 (0, 100, 16)) HT)
    as (Ha & Hi & _).
  split; [exact Ha|exact Hi].
Defined.

(** Key 3, held since tick 20, is reported at tick 41 with its contact
    open. *)
Lemma X25_witness :
  config_ok 2 2
  ∧ wf 2 2 ex_pressed
  ∧ Matrix_scanArray ex_pressed !! Z.to_nat (key_of 2 1 1)
    = Some (mkKeyState KeyState_Press KeyState_Hold 5 0 20)
  ∧ Matrix_repeatThreshold ex_pressed
    ≤ wrap32 (wrap32 (Matrix_divCounter ex_pressed + 1) - 20)
  ∧ ∃ s' st',
      Matrix_scan 2 2 5 0 CRLF 0 all_open ex_pressed = Some s'
      ∧ Matrix_scanArray s' !! Z.to_nat (key_of 2 1 1) = Some st'
      ∧ key_events (key_of 2 1 1) (trace s')
        = key_events (key_of 2 1 1) (trace ex_pressed) ++ [curState st']
      ∧ prevState st' = KeyState_Hold
      ∧ follows KeyState_Hold (curState st').
Proof.
  assert (Hcfg : config_ok 2 2) by (unfold config_ok, Matrix_maxKeys; lia).
  assert (Hwf : wf 2 2 ex_pressed).
  { unfold wf. simpl. split_and!; [reflexivity..|lia]. }
  assert (Hr : 0 ≤ 1 < 2) by lia.
  assert (Hres : resolved (mkKeyState KeyState_Press KeyState_Hold 5 0 20))
    by discriminate.
  assert (Hge : Matrix_repeatThreshold ex_pressed
                ≤ wrap32 (wrap32 (Matrix_divCounter ex_pressed + 1) - 20)).
  { vm_compute. discriminate. }
  split_and!; [done|done|reflexivity|done|].
  exact (X25_pass_reports_every_key 2 2 5 0 CRLF all_open 1 1 ex_pressed
           (mkKeyState KeyState_Press KeyState_Hold 5 0 20)
           Hcfg Hwf Hr Hr eq_refl eq_refl Hres Hge).
Defined.
